(** * FIRM-CP: the controller step and the POMCP belief-tree search

    A shallow embedding of
      - [include/Controllers/Controller.h]  (modules [Controller] and
        [ControllerExt]) and
      - [src/Planner/FIRMCP.cpp]            (modules [FIRMCP], [FIRMCPExt]
        and [CostToGo]),
    followed by the properties checked against them.

    Conventions.
    - A C++ [double] is modelled by a rational [Q] with exact arithmetic;
      rounding is not modelled.  [sqrt], [log] and [pow] are operations of
      the environment.
    - [size_t], [unsigned int] and [int] values are integers [Z] with the
      wrap-around written out; an overflowing [int] increment is undefined.
    - Collaborators whose code is not part of the two files (the space
      information, the filter, the separated controller, the belief state
      type, the nearest-neighbour structure) are operations of a type class;
      concrete instances are given for the examples.
    - Calls whose number or arguments matter are recorded in an event log. *)

From Stdlib Require Import ZArith QArith Qabs Qround List Bool Lia.
From stdpp Require Import base option list gmap.
Import ListNotations.

Local Open Scope Z_scope.

(** ** Results of a run *)

(** A call either returns, or runs into behaviour the C++ standard leaves
    undefined (out-of-range [operator[]], a read through a freed pointer, a
    failed [assert]), or leaves the process through [exit], or needs more
    loop iterations than the fuel it was given. *)
Inductive Res (A : Type) : Type :=
| Ret (a : A)
| Undefined
| Exited
| OutOfFuel.
Arguments Ret {A} a.
Arguments Undefined {A}.
Arguments Exited {A}.
Arguments OutOfFuel {A}.

(** [size_t] is 64 bits wide, [unsigned int] 32 bits. *)
Definition to_size_t (k : Z) : Z := k mod 2 ^ 64.
Definition to_uint (k : Z) : Z := k mod 2 ^ 32.

(** [int] is 32 bits wide, two's complement. *)
Definition INT_MAX : Z := 2 ^ 31 - 1.
Definition to_int (k : Z) : Z := (k + 2 ^ 31) mod 2 ^ 32 - 2 ^ 31.

(** [double]-valued view of a counter. *)
Definition Qnat (n : nat) : Q := inject_Z (Z.of_nat n).

Definition Qgtb (a b : Q) : bool := negb (Qle_bool a b).   (* a > b *)
Definition Qltb (a b : Q) : bool := negb (Qle_bool b a).   (* a < b *)
Definition Qgeb (a b : Q) : bool := Qle_bool b a.          (* a >= b *)

(* ===================================================================== *)
(** * Controller.h *)
(* ===================================================================== *)

Module Controller.

(** The collaborators of [Controller<SeparatedControllerType, FilterType>]:
    the space information [si_] with its hidden true state, the linear
    system constructor, and the two template parameters. *)
Class Space : Type := {
  State : Type;                 (* a belief: mean and covariance *)
  Control : Type;
  Observation : Type;
  LinearSystem : Type;
  World : Type;                 (* what si_ hides: true state, noise source, current belief *)
  (* si_ *)
  applyControl : Control -> World -> World;
  getObservation : World -> Observation * World;
  checkTrueStateValidity : World -> bool;
  setBelief : State -> World -> World;
  getZeroControl : Control;     (* si_->getMotionModel()->getZeroControl() *)
  (* LinearSystem(si, x, u, motionModel, observationModel) *)
  LinearSystemAt : State -> Control -> LinearSystem;
  (* LinearSystem(si, x, u, z, motionModel, observationModel) *)
  LinearSystemObs : State -> Control -> Observation -> LinearSystem;
  getX : LinearSystem -> State;
  (* norm((a - b).subvec(0,1), 2) on the arma data of two states *)
  planarNorm : State -> State -> Q;
  (* arma::trace(s->getCovariance()) *)
  traceCovariance : State -> Q;
  (* SeparatedControllerType, built from the goal and the linear systems *)
  generateFeedbackControl : State -> list LinearSystem -> State -> Z -> Control;
  (* FilterType::Evolve(state, control, z, current, next, nextBelief) *)
  filterEvolve : State -> Control -> Observation -> LinearSystem -> LinearSystem -> State
}.

(** The static thresholds of the class. *)
Record Thresholds : Type := {
  nodeReachedAngle_ : Q;
  nodeReachedDistance_ : Q;
  maxTries_ : Q;
  nominalTrajDeviationThreshold_ : Q
}.

(** Initial values of the statics (all -1). *)
Definition defaultThresholds : Thresholds :=
  {| nodeReachedAngle_ := -1; nodeReachedDistance_ := -1;
     maxTries_ := -1; nominalTrajDeviationThreshold_ := -1 |}.

Section Definitions.
Context {SP : Space}.

(** Calls that the properties below count or inspect. *)
Inductive Event : Type :=
| EvFilter (t : Z) (current next : LinearSystem)  (* filter_.Evolve(.., current, next, ..) *)
| EvValidity                                      (* si_->checkTrueStateValidity() *)
| EvSleep.                                        (* boost::this_thread::sleep(20 ms) *)

Record Sim : Type := {
  world : World;
  events : list Event            (* oldest first *)
}.

Definition emit (e : Event) (s : Sim) : Sim :=
  {| world := world s; events := events s ++ [e] |}.

Definition onWorld (f : World -> World) (s : Sim) : Sim :=
  {| world := f (world s); events := events s |}.

Definition doCheckTrueStateValidity (s : Sim) : bool * Sim :=
  (checkTrueStateValidity (world s), emit EvValidity s).

Definition isEvFilter (e : Event) : bool :=
  match e with EvFilter _ _ _ => true | _ => false end.
Definition isEvValidity (e : Event) : bool :=
  match e with EvValidity => true | _ => false end.

(** Number of [Evolve] iterations, respectively of true-state validity
    checks, recorded in a log. *)
Definition countEvolve (l : list Event) : nat := length (List.filter isEvFilter l).
Definition countValidity (l : list Event) : nat := length (List.filter isEvValidity l).

Record ControllerT : Type := {
  lss_ : list LinearSystem;
  goal_ : State;
  tries_ : Z;
  maxExecTime_ : Q;
  debug_ : bool
}.

(** Constructor: one linear system per nominal state, and
    [maxExecTime_ = ceil(nominalXs.size()*3)]. *)
Fixpoint buildLinearSystems (nominalXs : list State) (nominalUs : list Control)
  : Res (list LinearSystem) :=
  match nominalXs with
  | [] => Ret []
  | x :: xs =>
      match nominalUs with
      | [] => Undefined                       (* nominalUs[i] out of range *)
      | u :: us =>
          match buildLinearSystems xs us with
          | Ret l => Ret (LinearSystemAt x u :: l)
          | r => r
          end
      end
  end.

Definition mkController (goal : State) (nominalXs : list State)
    (nominalUs : list Control) : Res ControllerT :=
  match buildLinearSystems nominalXs nominalUs with
  | Ret l =>
      Ret {| lss_ := l; goal_ := goal; tries_ := 0;
             maxExecTime_ := inject_Z (Z.of_nat (length nominalXs) * 3);
             debug_ := false |}
  | Undefined => Undefined
  | Exited => Exited
  | OutOfFuel => OutOfFuel
  end.

Definition Length (c : ControllerT) : Z := Z.of_nat (length (lss_ c)).

(** [lss_[i]] for a [size_t] index; out of range is undefined. *)
Definition lssAt (c : ControllerT) (i : Z) : option LinearSystem :=
  nth_error (lss_ c) (Z.to_nat i).

Variable th : Thresholds.

(** [isTerminated(state, t)] *)
Definition isTerminated (c : ControllerT) (state : State) (t : Z) : bool :=
  let distance_to_goal := planarNorm state (goal_ c) in
  if Qgtb distance_to_goal (nodeReachedDistance_ th) then false else true.

(** The pair (current, next) that [Evolve] hands to the filter, given the
    goal-based system built first. *)
Definition selectLinearSystems (c : ControllerT) (t : Z) (goalLS : LinearSystem)
  : LinearSystem * LinearSystem :=
  if (0 <? Length c) && (t <=? Length c - 1) then
    if t =? Length c - 1 then
      (nth (Z.to_nat t) (lss_ c) goalLS, goalLS)
    else
      (nth (Z.to_nat t) (lss_ c) goalLS, nth (Z.to_nat (t + 1)) (lss_ c) goalLS)
  else (goalLS, goalLS).

(** [Evolve(state, t, nextState)]; [t] is a [size_t]. *)
Definition Evolve (c : ControllerT) (state : State) (t : Z) (s : Sim) : State * Sim :=
  let control := generateFeedbackControl (goal_ c) (lss_ c) state t in
  let s1 := onWorld (applyControl control) s in
  let '(zCorrected, w2) := getObservation (world s1) in
  let s2 := {| world := w2; events := events s1 |} in
  let goalLS := LinearSystemObs (goal_ c) getZeroControl zCorrected in
  let '(current, next) := selectLinearSystems c t goalLS in
  let nextBelief := filterEvolve state control zCorrected current next in
  let s3 := emit (EvFilter t current next) s2 in
  (nextBelief, onWorld (setBelief nextBelief) s3).

(** [nominalX_K]: [lss_[k].getX()] if [k < lss_.size()], else the last one. *)
Definition nominalX (c : ControllerT) (k : Z) : option State :=
  if k <? Length c then getX <$> lssAt c k
  else getX <$> lssAt c (to_size_t (Length c - 1)).

(** The test [abs(norm(deviation,2)) > nominalTrajDeviationThreshold_ ||
    !si_->checkTrueStateValidity()], with its short circuit. *)
Definition deviatedOrInvalid (nominal current : State) (s : Sim) : bool * Sim :=
  if Qgtb (Qabs (planarNorm nominal current)) (nominalTrajDeviationThreshold_ th)
  then (true, s)
  else let '(valid, s') := doCheckTrueStateValidity s in (negb valid, s').

(** One pass through the body of the [while] loop of [Execute], after the
    loop condition was found true. *)
Inductive BodyResult : Type :=
| BodyFalse (internalState : State)               (* return false *)
| BodyNext (internalState : State) (k : Z) (cost : Q).

Definition Execute_body (c : ControllerT) (constructionMode : bool)
    (internalState : State) (k : Z) (cost : Q) (s : Sim) : Res BodyResult * Sim :=
  let '(tempEndState, s1) := Evolve c internalState k s in
  let internalState := tempEndState in
  let '(collided, s2) :=
    if constructionMode then
      let '(isThisStateValid, s') := doCheckTrueStateValidity s1 in
      (negb isThisStateValid, s')
    else (false, s1) in
  if collided then (Ret (BodyFalse internalState), s2)
  else
    match nominalX c k with
    | None => (Undefined, s2)
    | Some nominalX_K =>
        let '(bad, s3) := deviatedOrInvalid nominalX_K internalState s2 in
        if bad then (Ret (BodyFalse internalState), s3)
        else
          let k := to_uint (k + 1) in
          let cost := (cost + traceCovariance internalState)%Q in
          let s4 := if constructionMode then s3 else emit EvSleep s3 in
          (Ret (BodyNext internalState k cost), s4)
    end.

(** What [Execute] leaves in its reference parameters. *)
Record ExecuteOut : Type := {
  ex_ok : bool;
  ex_endState : State;
  ex_filteringCost : Q;
  ex_stepsTaken : Z;
  ex_timeToStop : Z
}.

(** The [while] loop of [Execute]; [fuel] bounds the number of passes
    through the body. *)
Fixpoint Execute_loop (fuel : nat) (c : ControllerT) (constructionMode : bool)
    (internalState tempEndState : State) (k : Z) (cost : Q)
    (filteringCost : Q) (stepsTaken timeToStop : Z) (s : Sim)
  : Res ExecuteOut * Sim :=
  if isTerminated c tempEndState k then
    (Ret {| ex_ok := true; ex_endState := internalState;
            ex_filteringCost := (cost + 0)%Q;
            ex_stepsTaken := k + 0; ex_timeToStop := k |}, s)
  else
    match fuel with
    | O => (OutOfFuel, s)
    | S fuel' =>
        match Execute_body c constructionMode internalState k cost s with
        | (Ret (BodyFalse st), s') =>
            (Ret {| ex_ok := false; ex_endState := st;
                    ex_filteringCost := filteringCost;
                    ex_stepsTaken := stepsTaken; ex_timeToStop := timeToStop |}, s')
        | (Ret (BodyNext st k' cost'), s') =>
            Execute_loop fuel' c constructionMode st st k' cost'
              filteringCost stepsTaken timeToStop s'
        | (Undefined, s') => (Undefined, s')
        | (Exited, s') => (Exited, s')
        | (OutOfFuel, s') => (OutOfFuel, s')
        end
    end.

(** [Execute(startState, endState, filteringCost, stepsTaken, timeToStop,
    constructionMode)]; the last three arguments before [s] are the values
    the caller's variables hold on entry. *)
Definition Execute (fuel : nat) (c : ControllerT) (startState : State)
    (filteringCost : Q) (stepsTaken timeToStop : Z) (constructionMode : bool)
    (s : Sim) : Res ExecuteOut * Sim :=
  Execute_loop fuel c constructionMode startState startState 0 (1 # 1000)
    filteringCost stepsTaken timeToStop s.

(** [executeOneStep(k, startState, endState, filteringCost,
    constructionMode)]; [k] is an [int].  Returns the flag, [endState] and
    [filteringCost]. *)
Definition executeOneStep (c : ControllerT) (k : Z) (startState : State)
    (filteringCost : Q) (constructionMode : bool) (s : Sim)
  : Res (bool * State * Q) * Sim :=
  let cost := (1 # 1000)%Q in
  let internalState := startState in
  let '(endState, s1) := Evolve c internalState (to_size_t k) s in
  let '(collided, s2) :=
    if constructionMode then
      let '(valid, s') := doCheckTrueStateValidity s1 in (negb valid, s')
    else (false, s1) in
  if collided then (Ret (false, endState, filteringCost), s2)
  else
    match nominalX c (to_size_t k) with
    | None => (Undefined, s2)
    | Some nominalX_K =>
        let '(bad, s3) := deviatedOrInvalid nominalX_K endState s2 in
        if bad then (Ret (false, endState, filteringCost), s3)
        else
          let cost := (cost + traceCovariance endState)%Q in
          let s4 := if constructionMode then s3 else emit EvSleep s3 in
          (Ret (true, endState, cost), s4)
    end.

(** What [executeUpto] leaves in its reference parameters. *)
Record UptoOut : Type := {
  up_ok : bool;
  up_endState : State;
  up_filteringCost : Q;
  up_stepsTaken : Z
}.

(** The loop [while (k < numSteps)] of [executeUpto]; [n] counts the
    iterations that remain. *)
Fixpoint executeUpto_loop (n : nat) (c : ControllerT) (constructionMode : bool)
    (k : Z) (tempState endState : State) (filteringCost : Q) (stepsTaken : Z)
    (s : Sim) : Res UptoOut * Sim :=
  match n with
  | O => (Ret {| up_ok := true; up_endState := endState;
                 up_filteringCost := filteringCost; up_stepsTaken := k |}, s)
  | S n' =>
      match executeOneStep c k tempState filteringCost constructionMode s with
      | (Ret (e, tempEndState, filteringCost'), s') =>
          let k := k + 1 in
          if e then
            executeUpto_loop n' c constructionMode k tempEndState tempEndState
              filteringCost' stepsTaken s'
          else
            (Ret {| up_ok := false; up_endState := tempEndState;
                    up_filteringCost := filteringCost';
                    up_stepsTaken := stepsTaken |}, s')
      | (Undefined, s') => (Undefined, s')
      | (Exited, s') => (Exited, s')
      | (OutOfFuel, s') => (OutOfFuel, s')
      end
  end.

(** [executeUpto(numSteps, startState, endState, filteringCost, stepsTaken,
    constructionMode)]. *)
Definition executeUpto (c : ControllerT) (numSteps : Z) (startState endState : State)
    (filteringCost : Q) (stepsTaken : Z) (constructionMode : bool) (s : Sim)
  : Res UptoOut * Sim :=
  executeUpto_loop (Z.to_nat numSteps) c constructionMode 0 startState endState
    filteringCost stepsTaken s.

(** The cost one step contributes: the bias plus the trace of the posterior
    covariance. *)
Definition stepCost (posterior : State) : Q := ((1 # 1000) + traceCovariance posterior)%Q.

(** The posterior beliefs of the first [n] steps of [executeUpto], by
    iterating [Evolve] alone. *)
Fixpoint posteriors (n : nat) (c : ControllerT) (k : Z) (st : State) (s : Sim)
  : list State :=
  match n with
  | O => []
  | S n' =>
      let '(st', s') := Evolve c st (to_size_t k) s in
      st' :: posteriors n' c (k + 1) st' s'
  end.

End Definitions.

End Controller.

(* ===================================================================== *)
(** * FIRMCP.cpp *)
(* ===================================================================== *)

Module FIRMCP.

(** Vertex descriptors are indices; an edge descriptor carries its source,
    its target and the stable edge id. *)
Abbreviation Vertex := nat (only parsing).
Abbreviation Edge := (nat * nat * nat)%type (only parsing).

Definition source (e : Edge) : Vertex := fst (fst e).
Definition target (e : Edge) : Vertex := snd (fst e).

(** The tuning parameters and constants the planner reads. *)
Record Config : Type := {
  numPOMCPParticles_ : Z;
  maxPOMCPDepth_ : Z;
  maxFIRMReachDepth_ : Z;
  cExplorationForSimulate_ : Q;
  cExploitationForRolloutOutOfReach_ : Q;
  cExploitationForRolloutWithinReach_ : Q;
  costToGoRegulatorOutOfReach_ : Q;
  costToGoRegulatorWithinReach_ : Q;
  nEpsForIsReached_ : Q;
  rolloutSteps_ : Z;
  obstacleCostToGo_ : Q;
  infiniteCostToGo_ : Q;
  NNRadius_ : Q;
  startM_0 : Vertex               (* startM_[0] *)
}.

(** Collaborators of the planner that live outside FIRMCP.cpp. *)
Class Env : Type := {
  Belief : Type;                  (* mean and covariance of a FIRM::StateType *)
  EdgeControllerType : Type;
  TrueState : Type;
  Hidden : Type;                  (* what siF_ hides: true state, random generators *)
  (* target->isReached(current) and target->isReachedWithinNEps(current, n) *)
  isReached : Belief -> Belief -> bool;
  isReachedWithinNEps : Belief -> Belief -> Q -> bool;
  (* libm *)
  sqrt : Q -> Q;
  log : Q -> Q;
  pow : Q -> Q -> Q;
  (* rand() and arma::randu *)
  rand : Hidden -> nat * Hidden;
  randu : Hidden -> Q * Hidden;
  getTrueState : Hidden -> TrueState;
  setTrueState : TrueState -> Hidden -> Hidden;
  sampleTrueStateFromBelief : Belief -> Q -> Hidden -> option TrueState * Hidden;
  (* executeSimulationFromUpto(kStep, numSteps, start, edge, end, cost), run
     with the controller stored for the edge *)
  executeSimulationFromUpto :
    Z -> Z -> Belief -> Edge -> EdgeControllerType -> Hidden -> (bool * Belief * Q) * Hidden;
  computeApproxEdgeCost : Belief -> Belief -> Q;
  getCostToGoWithApproxStabCost : Vertex -> Q;
  (* connectionStrategy_(m, r), with m temporarily in the NN structure *)
  connectionStrategy_ : Vertex -> Belief -> Q -> list Vertex;
  checkMotion : Belief -> Belief -> bool;
  generateEdgeController : Belief -> Belief -> EdgeControllerType
}.

Section Definitions.
Context {E : Env}.

(** Modelled from the spec: the POMCP fields of FIRM::StateType and their
    accessors, whose declaration is outside the two files.  N(h), J(h), the
    flag [childQexpanded], the list of child actions, the tables N(h,q),
    M(h,q), Q(h,q) and the observation child per action.  A table read for
    an action without entry yields 0, and no entry in [childQVnodes] stands
    for INVALID_VERTEX_ID.  The accessors below carry the names the source
    calls them by; [copyState] overwrites the belief and keeps the
    statistics. *)
Record QVNode : Type := {
  belief : Belief;
  thisQVvisit : nat;                        (* N(h) *)
  thisQVmincosttogo : Q;                    (* J(h) *)
  childQexpanded : bool;
  childQnodes : list Vertex;
  childQvisits : gmap nat nat;              (* N(h,q) *)
  childQmisses : gmap nat nat;              (* M(h,q) *)
  childQcosttogoes : gmap nat Q;            (* Q(h,q) *)
  childQVnodes : gmap nat nat
}.

Definition getChildQvisit (n : QVNode) (q : Vertex) : nat := default 0%nat (childQvisits n !! q).
Definition getChildQmiss (n : QVNode) (q : Vertex) : nat := default 0%nat (childQmisses n !! q).
Definition getChildQcosttogo (n : QVNode) (q : Vertex) : Q := default 0%Q (childQcosttogoes n !! q).
Definition getChildQVnode (n : QVNode) (q : Vertex) : option Vertex := childQVnodes n !! q.

Definition setBeliefOf (b : Belief) (n : QVNode) : QVNode :=
  {| belief := b; thisQVvisit := thisQVvisit n; thisQVmincosttogo := thisQVmincosttogo n;
     childQexpanded := childQexpanded n; childQnodes := childQnodes n;
     childQvisits := childQvisits n; childQmisses := childQmisses n;
     childQcosttogoes := childQcosttogoes n; childQVnodes := childQVnodes n |}.

Definition addThisQVvisit (n : QVNode) : QVNode :=
  {| belief := belief n; thisQVvisit := S (thisQVvisit n);
     thisQVmincosttogo := thisQVmincosttogo n;
     childQexpanded := childQexpanded n; childQnodes := childQnodes n;
     childQvisits := childQvisits n; childQmisses := childQmisses n;
     childQcosttogoes := childQcosttogoes n; childQVnodes := childQVnodes n |}.

Definition setThisQVmincosttogo (j : Q) (n : QVNode) : QVNode :=
  {| belief := belief n; thisQVvisit := thisQVvisit n; thisQVmincosttogo := j;
     childQexpanded := childQexpanded n; childQnodes := childQnodes n;
     childQvisits := childQvisits n; childQmisses := childQmisses n;
     childQcosttogoes := childQcosttogoes n; childQVnodes := childQVnodes n |}.

Definition addChildQvisit (q : Vertex) (n : QVNode) : QVNode :=
  {| belief := belief n; thisQVvisit := thisQVvisit n;
     thisQVmincosttogo := thisQVmincosttogo n;
     childQexpanded := childQexpanded n; childQnodes := childQnodes n;
     childQvisits := <[q := S (getChildQvisit n q)]> (childQvisits n);
     childQmisses := childQmisses n;
     childQcosttogoes := childQcosttogoes n; childQVnodes := childQVnodes n |}.

Definition addChildQmiss (q : Vertex) (n : QVNode) : QVNode :=
  {| belief := belief n; thisQVvisit := thisQVvisit n;
     thisQVmincosttogo := thisQVmincosttogo n;
     childQexpanded := childQexpanded n; childQnodes := childQnodes n;
     childQvisits := childQvisits n;
     childQmisses := <[q := S (getChildQmiss n q)]> (childQmisses n);
     childQcosttogoes := childQcosttogoes n; childQVnodes := childQVnodes n |}.

Definition setChildQcosttogo (q : Vertex) (x : Q) (n : QVNode) : QVNode :=
  {| belief := belief n; thisQVvisit := thisQVvisit n;
     thisQVmincosttogo := thisQVmincosttogo n;
     childQexpanded := childQexpanded n; childQnodes := childQnodes n;
     childQvisits := childQvisits n; childQmisses := childQmisses n;
     childQcosttogoes := <[q := x]> (childQcosttogoes n);
     childQVnodes := childQVnodes n |}.

Definition addChildQVnode (q v : Vertex) (n : QVNode) : QVNode :=
  {| belief := belief n; thisQVvisit := thisQVvisit n;
     thisQVmincosttogo := thisQVmincosttogo n;
     childQexpanded := childQexpanded n; childQnodes := childQnodes n;
     childQvisits := childQvisits n; childQmisses := childQmisses n;
     childQcosttogoes := childQcosttogoes n;
     childQVnodes := <[q := v]> (childQVnodes n) |}.

Definition addChildQnode (q : Vertex) (n : QVNode) : QVNode :=
  {| belief := belief n; thisQVvisit := thisQVvisit n;
     thisQVmincosttogo := thisQVmincosttogo n;
     childQexpanded := childQexpanded n; childQnodes := childQnodes n ++ [q];
     childQvisits := childQvisits n; childQmisses := childQmisses n;
     childQcosttogoes := childQcosttogoes n; childQVnodes := childQVnodes n |}.

Definition setChildQexpanded (n : QVNode) : QVNode :=
  {| belief := belief n; thisQVvisit := thisQVvisit n;
     thisQVmincosttogo := thisQVmincosttogo n;
     childQexpanded := true; childQnodes := childQnodes n;
     childQvisits := childQvisits n; childQmisses := childQmisses n;
     childQcosttogoes := childQcosttogoes n; childQVnodes := childQVnodes n |}.

(** Modelled from the spec: a state object as [allocState] followed by
    [copyState] leaves it, with no visit, empty tables, not expanded and no
    observation child.  The initial J(h) is not stated anywhere; it is
    taken as 0. *)
Definition freshNode (b : Belief) : QVNode :=
  {| belief := b; thisQVvisit := 0; thisQVmincosttogo := 0;
     childQexpanded := false; childQnodes := [];
     childQvisits := ∅; childQmisses := ∅; childQcosttogoes := ∅; childQVnodes := ∅ |}.

(** The planner: [stateProperty_] holds the live state object of each
    vertex ([freeState] removes it, and a later read is undefined), [edges]
    is the edge list of [g_] in insertion order. *)
Record Planner : Type := {
  stateProperty_ : gmap nat QVNode;
  numVertices : nat;                       (* boost::num_vertices(g_) *)
  edges : list Edge;
  edgeControllers_ : gmap (nat * nat * nat) EdgeControllerType;
  maxEdgeID_ : nat;
  hidden : Hidden
}.

Definition withStates (f : gmap nat QVNode -> gmap nat QVNode) (p : Planner) : Planner :=
  {| stateProperty_ := f (stateProperty_ p); numVertices := numVertices p;
     edges := edges p; edgeControllers_ := edgeControllers_ p;
     maxEdgeID_ := maxEdgeID_ p; hidden := hidden p |}.

Definition withHidden (h : Hidden) (p : Planner) : Planner :=
  {| stateProperty_ := stateProperty_ p; numVertices := numVertices p;
     edges := edges p; edgeControllers_ := edgeControllers_ p;
     maxEdgeID_ := maxEdgeID_ p; hidden := h |}.

(** *** The state-and-failure monad of the planner *)

Definition PM (A : Type) : Type := Planner -> Res (A * Planner).

Definition ret {A} (a : A) : PM A := fun p => Ret (a, p).
Definition bind {A B} (m : PM A) (k : A -> PM B) : PM B :=
  fun p => match m p with
           | Ret (a, p') => k a p'
           | Undefined => Undefined
           | Exited => Exited
           | OutOfFuel => OutOfFuel
           end.
Definition undefined {A} : PM A := fun _ => Undefined.
Definition exited {A} : PM A := fun _ => Exited.
Definition outOfFuel {A} : PM A := fun _ => OutOfFuel.

End Definitions.

Declare Scope pm_scope.
Delimit Scope pm_scope with pm.
Notation "x <- c ;; k" := (bind c (fun x => k))
  (at level 100, c at next level, right associativity) : pm_scope.
Notation "c ;;; k" := (bind c (fun _ => k))
  (at level 100, right associativity) : pm_scope.

Section Operations.
Context {E : Env}.
Variable cfg : Config.
Local Open Scope pm_scope.

(** [stateProperty_[v]], read through the pointer. *)
Definition getNode (v : Vertex) : PM QVNode :=
  fun p => match stateProperty_ p !! v with
           | Some n => Ret (n, p)
           | None => Undefined
           end.

(** A member call on [stateProperty_[v]] that updates the state object. *)
Definition modifyNode (v : Vertex) (f : QVNode -> QVNode) : PM unit :=
  fun p => match stateProperty_ p !! v with
           | Some n => Ret (tt, withStates (insert v (f n)) p)
           | None => Undefined
           end.

Definition onHidden {A} (f : Hidden -> A * Hidden) : PM A :=
  fun p => let '(a, h) := f (hidden p) in Ret (a, withHidden h p).

(** [boost::edge(u, v, g_).first]; the descriptor is indeterminate when
    there is no such edge. *)
Definition boostEdge (u v : Vertex) : PM Edge :=
  fun p => match List.find (fun e => Nat.eqb (source e) u && Nat.eqb (target e) v) (edges p) with
           | Some e => Ret (e, p)
           | None => Undefined
           end.

(** The collection of the children of minimal score that
    [generatePOMCPPolicy] and [pomcpSimulate] share: [minQcosttogo] starts
    at [infiniteCostToGo_], a strictly smaller score clears the list. *)
Fixpoint collectMinQcosttogoNodes (score : Vertex -> Q) (childQnodes : list Vertex)
    (minQcosttogo : Q) (minQcosttogoNodes : list Vertex) : Q * list Vertex :=
  match childQnodes with
  | [] => (minQcosttogo, minQcosttogoNodes)
  | childQnode :: rest =>
      let childQcosttogo := score childQnode in
      if Qgeb minQcosttogo childQcosttogo then
        let nodes := if Qgtb minQcosttogo childQcosttogo then [] else minQcosttogoNodes in
        collectMinQcosttogoNodes score rest childQcosttogo (nodes ++ [childQnode])
      else collectMinQcosttogoNodes score rest minQcosttogo minQcosttogoNodes
  end.

(** The choice among the collected children: the only one, or the one at
    index [rand() % size]; an empty list fails the [assert]. *)
Definition pickMinQcosttogoNode (minQcosttogoNodes : list Vertex) : PM Vertex :=
  match minQcosttogoNodes with
  | [x] => ret x
  | [] => undefined
  | _ => random <- onHidden rand ;;
         ret (nth (random mod length minQcosttogoNodes) minQcosttogoNodes 0%nat)
  end.

(** The score of a child in [pomcpSimulate]: the cost-to-go minus the
    exploration bonus. *)
Definition ucbScore (n : QVNode) (childQnode : Vertex) : Q :=
  let thisQVvisit := Qnat (thisQVvisit n) in
  let childQvisit := Qnat (getChildQvisit n childQnode) in
  (getChildQcosttogo n childQnode
   - cExplorationForSimulate_ cfg
     * sqrt (log (thisQVvisit + 1) / (childQvisit + (1 # 10000000000))))%Q.

(** "SELECT AN ACTION USING GREEDY UCB POLICY" of [pomcpSimulate]. *)
Definition selectGreedyUCB (currentVertex : Vertex) : PM (Vertex * Edge) :=
  n <- getNode currentVertex ;;
  let '(_, minQcosttogoNodes) :=
    collectMinQcosttogoNodes (ucbScore n) (childQnodes n) (infiniteCostToGo_ cfg) [] in
  selectedChildQnode <- pickMinQcosttogoNode minQcosttogoNodes ;;
  selectedEdge <- boostEdge currentVertex selectedChildQnode ;;
  ret (selectedChildQnode, selectedEdge).

(** The backup at a vertex where the descent stops: N(h) += 1 and J(h) is
    set to the cost that is returned. *)
Definition terminalBackup (currentVertex : Vertex) (totalCostToGo : Q) : PM Q :=
  modifyNode currentVertex addThisQVvisit ;;;
  modifyNode currentVertex (setThisQVmincosttogo totalCostToGo) ;;;
  ret totalCostToGo.

(** Either the descent stops with a cost-to-go, or an action and its edge
    were selected. *)
Inductive Selection : Type :=
| Stop (totalCostToGo : Q)
| Go (selectedChildQnode : Vertex) (selectedEdge : Edge).

(** The block for [currentDepth >= maxPOMCPDepth_] of [pomcpSimulate]. *)
Definition simulateAtHorizon (currentVertex : Vertex) (currentDepth : Z)
    (selectedEdgePrev : Edge) : PM Selection :=
  let targetVertex := target selectedEdgePrev in
  if currentDepth >=? maxFIRMReachDepth_ cfg then
    j <- terminalBackup currentVertex (obstacleCostToGo_ cfg) ;; ret (Stop j)
  else
    tn <- getNode targetVertex ;;
    cn <- getNode currentVertex ;;
    if isReached (belief tn) (belief cn) then
      let approxEdgeCost := computeApproxEdgeCost (belief cn) (belief tn) in
      let approxCostToGo := (getCostToGoWithApproxStabCost targetVertex + approxEdgeCost)%Q in
      j <- terminalBackup currentVertex approxCostToGo ;; ret (Stop j)
    else
      if existsb (Nat.eqb targetVertex) (childQnodes cn) then
        ret (Go targetVertex selectedEdgePrev)
      else
        j <- terminalBackup currentVertex (obstacleCostToGo_ cfg) ;; ret (Stop j).

(** [addQVnodeToPOMCPTree(state)] *)
Definition addQVnodeToPOMCPTree (b : Belief) : PM Vertex :=
  fun p =>
    let m := numVertices p in
    Ret (m, {| stateProperty_ := <[m := freshNode b]> (stateProperty_ p);
               numVertices := S m; edges := edges p;
               edgeControllers_ := edgeControllers_ p;
               maxEdgeID_ := maxEdgeID_ p; hidden := hidden p |}).

(** "SIMULATE ACTION EXECUTION": the controller of the selected edge is
    run from the current belief; a failed run costs [obstacleCostToGo_]. *)
Definition simulateActionExecution (currentVertex : Vertex) (currentDepth : Z)
    (selectedEdge : Edge) : PM (bool * Belief * Q) :=
  cn <- getNode currentVertex ;;
  let kStep := Z.max 0 (currentDepth - maxPOMCPDepth_ cfg + 1) in
  fun p =>
    match edgeControllers_ p !! selectedEdge with
    | None => Undefined                      (* edgeControllers_.at(selectedEdge) *)
    | Some ec =>
        let '(executionStatus, nextBelief, executionCost, h) :=
          executeSimulationFromUpto kStep (rolloutSteps_ cfg) (belief cn) selectedEdge ec (hidden p) in
        let executionCost := if executionStatus then executionCost else obstacleCostToGo_ cfg in
        Ret ((executionStatus, nextBelief, executionCost), withHidden h p)
    end.

(** "ADD A QVNODE TO THE POMCP TREE": the observation child of the selected
    action is reused, with its belief overwritten, or created. *)
Definition resolveChildQVnode (currentVertex selectedChildQnode : Vertex)
    (nextBelief : Belief) : PM Vertex :=
  cn <- getNode currentVertex ;;
  match getChildQVnode cn selectedChildQnode with
  | Some nextVertex =>
      modifyNode nextVertex (setBeliefOf nextBelief) ;;; ret nextVertex
  | None =>
      nextVertex <- addQVnodeToPOMCPTree nextBelief ;;
      modifyNode currentVertex (addChildQVnode selectedChildQnode nextVertex) ;;;
      ret nextVertex
  end.

(** The recomputation of J(h) in the [else] branch of the backup: starting
    from the updated Q(h,q), the minimum with every stored Q(h,.). *)
Definition minOverStored (n : QVNode) (start : Q) : Q :=
  fold_left (fun acc childQnode =>
               let childQcosttogo := getChildQcosttogo n childQnode in
               if Qgtb acc childQcosttogo then childQcosttogo else acc)
            (childQnodes n) start.

(** The backup of [pomcpSimulate] ("UPDATE THE NUMBER OF VISITS AND MISSES"
    to the final [return]). *)
Definition simulateBackup (isNewNodeExpanded executionStatus : bool)
    (executionCost selectedChildQVmincosttogo : Q)
    (currentVertex selectedChildQnode : Vertex) : PM Q :=
  modifyNode currentVertex addThisQVvisit ;;;
  modifyNode currentVertex (addChildQvisit selectedChildQnode) ;;;
  (if negb executionStatus
   then modifyNode currentVertex (addChildQmiss selectedChildQnode)
   else ret tt) ;;;
  cn <- getNode currentVertex ;;
  let selectedChildQvisit := Qnat (getChildQvisit cn selectedChildQnode) in
  let selectedChildQcosttogo := getChildQcosttogo cn selectedChildQnode in
  let thisQVmincosttogo := thisQVmincosttogo cn in
  let selectedChildQcosttogoUpdated := executionCost in
  let selectedChildQcosttogoUpdated :=
    if executionStatus
    then (selectedChildQcosttogoUpdated + selectedChildQVmincosttogo)%Q
    else (selectedChildQcosttogoUpdated + obstacleCostToGo_ cfg)%Q in
  let selectedChildQcosttogo :=
    if isNewNodeExpanded then 0%Q else selectedChildQcosttogo in
  let selectedChildQcosttogoUpdated :=
    (selectedChildQcosttogo
     + (selectedChildQcosttogoUpdated - selectedChildQcosttogo) / selectedChildQvisit)%Q in
  let thisQVmincosttogoUpdated :=
    if Qltb selectedChildQcosttogoUpdated thisQVmincosttogo
    then selectedChildQcosttogoUpdated
    else minOverStored cn selectedChildQcosttogoUpdated in
  modifyNode currentVertex (setChildQcosttogo selectedChildQnode selectedChildQcosttogoUpdated) ;;;
  modifyNode currentVertex (setThisQVmincosttogo thisQVmincosttogoUpdated) ;;;
  ret thisQVmincosttogoUpdated.

(** The backup of [pomcpRollout], written out again in the source. *)
Definition rolloutBackup (isNewNodeExpanded executionStatus : bool)
    (executionCost selectedChildQVmincosttogo : Q)
    (currentVertex selectedChildQnode : Vertex) : PM Q :=
  modifyNode currentVertex addThisQVvisit ;;;
  modifyNode currentVertex (addChildQvisit selectedChildQnode) ;;;
  (if negb executionStatus
   then modifyNode currentVertex (addChildQmiss selectedChildQnode)
   else ret tt) ;;;
  cn <- getNode currentVertex ;;
  let selectedChildQvisit := Qnat (getChildQvisit cn selectedChildQnode) in
  let selectedChildQcosttogo := getChildQcosttogo cn selectedChildQnode in
  let thisQVmincosttogo := thisQVmincosttogo cn in
  let selectedChildQcosttogoUpdated := executionCost in
  let selectedChildQcosttogoUpdated :=
    if executionStatus
    then (selectedChildQcosttogoUpdated + selectedChildQVmincosttogo)%Q
    else (selectedChildQcosttogoUpdated + obstacleCostToGo_ cfg)%Q in
  let selectedChildQcosttogo :=
    if isNewNodeExpanded then 0%Q else selectedChildQcosttogo in
  let selectedChildQcosttogoUpdated :=
    (selectedChildQcosttogo
     + (selectedChildQcosttogoUpdated - selectedChildQcosttogo) / selectedChildQvisit)%Q in
  let thisQVmincosttogoUpdated :=
    if Qltb selectedChildQcosttogoUpdated thisQVmincosttogo
    then selectedChildQcosttogoUpdated
    else minOverStored cn selectedChildQcosttogoUpdated in
  modifyNode currentVertex (setChildQcosttogo selectedChildQnode selectedChildQcosttogoUpdated) ;;;
  modifyNode currentVertex (setThisQVmincosttogo thisQVmincosttogoUpdated) ;;;
  ret thisQVmincosttogoUpdated.

(** [addEdgeToPOMCPTreeWithApproxCost(a, b, edgeAdded)]: the edge gets the
    next edge id and its controller is stored; [edgeAdded] is always set.
    The result is the cost of the weight. *)
Definition addEdgeToPOMCPTreeWithApproxCost (a b : Vertex) : PM Q :=
  an <- getNode a ;;
  bn <- getNode b ;;
  let edgeController := generateEdgeController (belief an) (belief bn) in
  let approxEdgeCost := computeApproxEdgeCost (belief an) (belief bn) in
  fun p =>
    let id := maxEdgeID_ p in
    let newEdge := (a, b, id) in
    Ret (approxEdgeCost,
         {| stateProperty_ := stateProperty_ p; numVertices := numVertices p;
            edges := edges p ++ [newEdge];
            edgeControllers_ := <[newEdge := edgeController]> (edgeControllers_ p);
            maxEdgeID_ := S id; hidden := hidden p |}).

(** The loop over the neighbours in
    [expandQnodesOnPOMCPTreeWithApproxCostToGo]. *)
Fixpoint expandNeighbors (m : Vertex) (neighbors : list Vertex) : PM unit :=
  match neighbors with
  | [] => ret tt
  | n :: rest =>
      (if Nat.eqb m n then ret tt
       else
         mn <- getNode m ;;
         nn <- getNode n ;;
         if checkMotion (belief mn) (belief nn) then
           approxEdgeCost <- addEdgeToPOMCPTreeWithApproxCost m n ;;
           let approxCostToGo := (approxEdgeCost + getCostToGoWithApproxStabCost n)%Q in
           modifyNode m (addChildQnode n) ;;;
           modifyNode m (setChildQcosttogo n approxCostToGo)
         else ret tt) ;;;
      expandNeighbors m rest
  end.

(** [expandQnodesOnPOMCPTreeWithApproxCostToGo(m, isNewNodeExpanded)]; the
    branch that finds only [m] itself leaves through [exit(0)]. *)
Definition expandQnodesOnPOMCPTreeWithApproxCostToGo (m : Vertex)
    (isNewNodeExpanded : bool) : PM bool :=
  mn <- getNode m ;;
  let neighbors := connectionStrategy_ m (belief mn) (1 * NNRadius_ cfg)%Q in
  (match neighbors with
   | [n] => if Nat.eqb m n then exited else ret tt
   | _ => ret tt
   end) ;;;
  expandNeighbors m neighbors ;;;
  modifyNode m setChildQexpanded ;;;
  ret true.

(** The weight of one child in the rollout policy. *)
Definition rolloutWeight (isReachedWithinNEps : bool) (costtogo : Q) : Q :=
  if isReachedWithinNEps
  then (1 / (pow costtogo (cExploitationForRolloutWithinReach_ cfg)
             + costToGoRegulatorWithinReach_ cfg))%Q
  else (1 / (pow costtogo (cExploitationForRolloutOutOfReach_ cfg)
             + costToGoRegulatorOutOfReach_ cfg))%Q.

(** The loop "check for isReachedWithinNEps for any of nearest neighbor
    FIRM nodes": its body ends in an unconditional [break]. *)
Definition checkReachedWithinNEps (cn : QVNode) : PM bool :=
  match childQnodes cn with
  | [] => ret false
  | childQnode :: _ =>
      fn <- getNode childQnode ;;
      ret (isReachedWithinNEps (belief fn) (belief cn) (nEpsForIsReached_ cfg))
  end.

(** The accumulated weights, one upper limit per child, and their sum. *)
Fixpoint accumulateWeights (isReachedWithinNEps : bool) (cn : QVNode)
    (childQnodes : list Vertex) (weightSum : Q) : list Q * Q :=
  match childQnodes with
  | [] => ([], weightSum)
  | childQnode :: rest =>
      let costtogo := getChildQcosttogo cn childQnode in
      let weight := rolloutWeight isReachedWithinNEps costtogo in
      let weightSum := (weightSum + weight)%Q in
      let '(sections, total) := accumulateWeights isReachedWithinNEps cn rest weightSum in
      (weightSum :: sections, total)
  end.

(** The first index whose section lies above the picked threshold;
    [jSelected] stays uninitialised when there is none. *)
Fixpoint findSection (weightPicked : Q) (weightSections : list Q) (j : nat) : option nat :=
  match weightSections with
  | [] => None
  | w :: rest =>
      if Qltb weightPicked w then Some j else findSection weightPicked rest (S j)
  end.

(** "IMPORTANCE SAMPLING TO PICK ONE NEIGHBOR AS A TARGET" of
    [pomcpRollout]. *)
Definition selectRolloutAction (currentVertex : Vertex) : PM (Vertex * Edge) :=
  cn <- getNode currentVertex ;;
  isReachedWithinNEps <- checkReachedWithinNEps cn ;;
  let '(weightSections, weightSum) :=
    accumulateWeights isReachedWithinNEps cn (childQnodes cn) 0 in
  let weightSections := List.map (fun weight => (weight / weightSum)%Q) weightSections in
  weightPicked <- onHidden randu ;;
  match findSection weightPicked weightSections 0 with
  | None => undefined
  | Some jSelected =>
      match nth_error (childQnodes cn) jSelected with
      | None => undefined
      | Some selectedChildQnode =>
          selectedEdge <- boostEdge currentVertex selectedChildQnode ;;
          ret (selectedChildQnode, selectedEdge)
      end
  end.

(** "CREATE A NEW NODE IF NOT COINCIDES ANY OF EXISTING POMCP TREE NODES":
    expansion of a vertex that is not expanded yet. *)
Definition expandIfNeeded (currentVertex : Vertex) (isNewNodeExpanded : bool) : PM bool :=
  cn <- getNode currentVertex ;;
  if negb (childQexpanded cn)
  then expandQnodesOnPOMCPTreeWithApproxCostToGo currentVertex isNewNodeExpanded
  else ret true.

(** [pomcpRollout] up to the selection of the action. *)
Definition rolloutSelection (currentVertex : Vertex) (currentDepth : Z)
    (selectedEdgePrev : Edge) (isNewNodeExpanded : bool) : PM Selection :=
  if currentDepth >=? maxPOMCPDepth_ cfg then
    let targetVertex := target selectedEdgePrev in
    if currentDepth >=? maxFIRMReachDepth_ cfg then
      j <- terminalBackup currentVertex (obstacleCostToGo_ cfg) ;; ret (Stop j)
    else
      expanded <- expandIfNeeded currentVertex isNewNodeExpanded ;;
      if negb expanded then
        j <- terminalBackup currentVertex (obstacleCostToGo_ cfg) ;; ret (Stop j)
      else
        tn <- getNode targetVertex ;;
        cn <- getNode currentVertex ;;
        if isReached (belief tn) (belief cn) then
          let approxEdgeCost := computeApproxEdgeCost (belief cn) (belief tn) in
          let approxCostToGo :=
            (getCostToGoWithApproxStabCost targetVertex + approxEdgeCost)%Q in
          j <- terminalBackup currentVertex approxCostToGo ;; ret (Stop j)
        else
          if existsb (Nat.eqb targetVertex) (childQnodes cn) then
            ret (Go targetVertex selectedEdgePrev)
          else
            j <- terminalBackup currentVertex (obstacleCostToGo_ cfg) ;; ret (Stop j)
  else
    expanded <- expandIfNeeded currentVertex isNewNodeExpanded ;;
    if negb expanded then
      j <- terminalBackup currentVertex (obstacleCostToGo_ cfg) ;; ret (Stop j)
    else
      r <- selectRolloutAction currentVertex ;;
      ret (Go (fst r) (snd r)).

(** From "SIMULATE ACTION EXECUTION" to the end of either function: run the
    controller, resolve the observation child, recurse when the run
    succeeded, back up. *)
Definition descend (recurse : Vertex -> Z -> Edge -> PM Q)
    (backup : bool -> Q -> Q -> Vertex -> Vertex -> PM Q)
    (currentVertex : Vertex) (currentDepth : Z)
    (selectedChildQnode : Vertex) (selectedEdge : Edge) : PM Q :=
  r <- simulateActionExecution currentVertex currentDepth selectedEdge ;;
  let '(executionStatus, nextBelief, executionCost) := r in
  nextVertex <- resolveChildQVnode currentVertex selectedChildQnode nextBelief ;;
  selectedChildQVmincosttogo <-
    (if executionStatus
     then recurse nextVertex (currentDepth + 1) selectedEdge
     else ret 0%Q) ;;
  backup executionStatus executionCost selectedChildQVmincosttogo
    currentVertex selectedChildQnode.

(** [pomcpRollout(currentVertex, currentDepth, selectedEdgePrev,
    collisionDepth, isNewNodeExpanded)]; the recursive call leaves the last
    argument at its default [false].  [collisionDepth] is never written. *)
Fixpoint pomcpRollout (fuel : nat) (currentVertex : Vertex) (currentDepth : Z)
    (selectedEdgePrev : Edge) (isNewNodeExpanded : bool) : PM Q :=
  match fuel with
  | O => outOfFuel
  | S fuel' =>
      sel <- rolloutSelection currentVertex currentDepth selectedEdgePrev isNewNodeExpanded ;;
      match sel with
      | Stop totalCostToGo => ret totalCostToGo
      | Go selectedChildQnode selectedEdge =>
          descend (fun v d e => pomcpRollout fuel' v d e false)
                  (rolloutBackup isNewNodeExpanded)
                  currentVertex currentDepth selectedChildQnode selectedEdge
      end
  end.

(** [pomcpSimulate] up to the selection of the action, for an expanded
    vertex. *)
Definition simulateSelection (currentVertex : Vertex) (currentDepth : Z)
    (selectedEdgePrev : Edge) : PM Selection :=
  if currentDepth >=? maxPOMCPDepth_ cfg then
    simulateAtHorizon currentVertex currentDepth selectedEdgePrev
  else
    r <- selectGreedyUCB currentVertex ;;
    ret (Go (fst r) (snd r)).

(** [pomcpSimulate(currentVertex, currentDepth, selectedEdgePrev,
    collisionDepth)].  The local [isNewNodeExpanded] is [true] only on the
    path that returns the rollout's value, so the backup sees [false]. *)
Fixpoint pomcpSimulate (fuel : nat) (currentVertex : Vertex) (currentDepth : Z)
    (selectedEdgePrev : Edge) : PM Q :=
  match fuel with
  | O => outOfFuel
  | S fuel' =>
      cn <- getNode currentVertex ;;
      if negb (childQexpanded cn) then
        delayedCostToGo <- pomcpRollout fuel' currentVertex currentDepth selectedEdgePrev true ;;
        let executionCost := 0%Q in
        let discountFactor := 1%Q in
        ret (executionCost + discountFactor * delayedCostToGo)%Q
      else
        sel <- simulateSelection currentVertex currentDepth selectedEdgePrev ;;
        match sel with
        | Stop totalCostToGo => ret totalCostToGo
        | Go selectedChildQnode selectedEdge =>
            descend (pomcpSimulate fuel') (simulateBackup false)
                    currentVertex currentDepth selectedChildQnode selectedEdge
        end
  end.

(** The particle loop of [generatePOMCPPolicy]. *)
Fixpoint particleLoop (fuel : nat) (particles : nat) (currentVertex : Vertex) : PM unit :=
  match particles with
  | O => ret tt
  | S particles' =>
      cn <- getNode currentVertex ;;
      samp <- onHidden (sampleTrueStateFromBelief (belief cn) 3) ;;
      match samp with
      | None => particleLoop fuel particles' currentVertex
      | Some sampState =>
          onHidden (fun h => (tt, setTrueState sampState h)) ;;;
          pomcpSimulate fuel currentVertex 0 (0, 0, 0)%nat ;;;
          particleLoop fuel particles' currentVertex
      end
  end.

(** [generatePOMCPPolicy(currentVertex, goal)]; [fuel] is handed to each
    simulation. *)
Definition generatePOMCPPolicy (fuel : nat) (currentVertex goal : Vertex) : PM Edge :=
  tempTrueStateCopy <- onHidden (fun h => (getTrueState h, h)) ;;
  particleLoop fuel (Z.to_nat (to_uint (numPOMCPParticles_ cfg))) currentVertex ;;;
  cn <- getNode currentVertex ;;
  let '(_, minQcosttogoNodes) :=
    collectMinQcosttogoNodes (getChildQcosttogo cn) (childQnodes cn)
      (infiniteCostToGo_ cfg) [] in
  selectedChildQnode <- pickMinQcosttogoNode minQcosttogoNodes ;;
  selectedEdge <- boostEdge currentVertex selectedChildQnode ;;
  onHidden (fun h => (tt, setTrueState tempTrueStateCopy h)) ;;;
  ret selectedEdge.

(** [boost::out_edges(v, g_)] *)
Definition out_edges (v : Vertex) (p : Planner) : list Edge :=
  List.filter (fun e => Nat.eqb (source e) v) (edges p).

(** [boost::clear_vertex(v, g_)]: every edge from or to [v] goes. *)
Definition clear_vertex (v : Vertex) (l : list Edge) : list Edge :=
  List.filter (fun e => negb (Nat.eqb (source e) v || Nat.eqb (target e) v)) l.

(** [prunePOMCPNode(rootVertex)] *)
Definition prunePOMCPNode (rootVertex : Vertex) : PM unit :=
  if negb (Nat.eqb rootVertex (startM_0 cfg)) then
    fun p =>
      let controllers :=
        fold_left (fun m edge => delete edge m) (out_edges rootVertex p)
                  (edgeControllers_ p) in
      match stateProperty_ p !! rootVertex with
      | None => Undefined                    (* freeState on a freed state *)
      | Some _ =>
          Ret (tt, {| stateProperty_ := delete rootVertex (stateProperty_ p);
                      numVertices := numVertices p;
                      edges := clear_vertex rootVertex (edges p);
                      edgeControllers_ := controllers;
                      maxEdgeID_ := maxEdgeID_ p; hidden := hidden p |})
      end
  else ret tt.

(** The loop over the child actions in [prunePOMCPTreeFrom]; every pass
    reads the observation child through [rootState]. *)
Fixpoint pruneChildren (recurse : Vertex -> PM unit) (rootVertex : Vertex)
    (childQnodes : list Vertex) : PM unit :=
  match childQnodes with
  | [] => ret tt
  | childQnode :: rest =>
      rn <- getNode rootVertex ;;
      (match getChildQVnode rn childQnode with
       | Some childQVnode => recurse childQVnode
       | None => ret tt
       end) ;;;
      pruneChildren recurse rootVertex rest
  end.

(** [prunePOMCPTreeFrom(rootVertex)] *)
Fixpoint prunePOMCPTreeFrom (fuel : nat) (rootVertex : Vertex) : PM unit :=
  match fuel with
  | O => outOfFuel
  | S fuel' =>
      rn <- getNode rootVertex ;;
      (if childQexpanded rn
       then pruneChildren (prunePOMCPTreeFrom fuel') rootVertex (childQnodes rn)
       else ret tt) ;;;
      prunePOMCPNode rootVertex
  end.

End Operations.

(** ** Notions the properties are stated with *)

(** The children whose score no child undercuts, in list order: the
    candidates of an argmin with ties. *)
Definition argminNodes (score : Vertex -> Q) (childQnodes : list Vertex) : list Vertex :=
  List.filter
    (fun c => forallb (fun c' => Qle_bool (score c) (score c')) childQnodes)
    childQnodes.

(** What holds of the running minimum [m] and the collected list [acc]
    once [collectMinQcosttogoNodes], started at [inf], has visited the
    children [pre]. *)
Definition collected (score : Vertex -> Q) (inf : Q)
    (pre : list Vertex) (m : Q) (acc : list Vertex) : Prop :=
  acc = List.filter (fun c => Qle_bool (score c) m) pre /\
  (forall c, In c pre -> (score c <= inf)%Q -> (m <= score c)%Q) /\
  (m <= inf)%Q /\
  ((exists c, In c pre /\ (score c == m)%Q) \/
   (m = inf /\ forall c, In c pre -> ~ (score c <= inf)%Q)).

Section Notions.
Context {E : Env}.

(** How [pickMinQcosttogoNode] breaks ties: a single candidate is taken
    without a draw; otherwise the candidate at index [rand() % size]. *)
Definition tieBroken (mins : list Vertex) (p : Planner) (q : Vertex) (p1 : Planner) : Prop :=
  (mins = [q] /\ p1 = p) \/
  (length mins <> 1%nat /\
   q = nth (fst (rand (hidden p)) mod length mins) mins 0%nat /\
   p1 = withHidden (snd (rand (hidden p))) p).

(** What a pruning call may do to the planner: the state object of the
    start vertex and the controllers of its outgoing edges stay; live
    state objects are only freed, controllers only erased, edges only
    removed, and a removed edge has an end whose state object was freed;
    a vertex whose state object was freed has no edge left, and the
    controller of each of its outgoing edges is erased unless the edge went
    with its target before. *)
Definition prunedFrom (start : Vertex) (p p' : Planner) : Prop :=
  stateProperty_ p' !! start = stateProperty_ p !! start /\
  (forall e, source e = start -> edgeControllers_ p' !! e = edgeControllers_ p !! e) /\
  (forall w n, stateProperty_ p' !! w = Some n -> stateProperty_ p !! w = Some n) /\
  (forall e c, edgeControllers_ p' !! e = Some c -> edgeControllers_ p !! e = Some c) /\
  (forall e, In e (edges p') -> In e (edges p)) /\
  (forall e, In e (edges p) ->
     In e (edges p') \/
     exists w, (w = source e \/ w = target e) /\
               stateProperty_ p !! w <> None /\ stateProperty_ p' !! w = None) /\
  (forall w, stateProperty_ p !! w <> None -> stateProperty_ p' !! w = None ->
     (forall e, In e (edges p') -> source e <> w /\ target e <> w) /\
     (forall e, In e (edges p) -> source e = w ->
        edgeControllers_ p' !! e = None \/ stateProperty_ p' !! target e = None)).

(** The observation children of a state object, as [prunePOMCPTreeFrom]
    visits them. *)
Definition qvChildren (n : QVNode) : list Vertex :=
  if childQexpanded n
  then omap (fun q => childQVnodes n !! q) (childQnodes n)
  else [].

(** [treeAt h sp v L]: in the store [sp], the observation children reached
    from [v] form a tree of height below [h] whose vertices, each met once,
    are listed in [L]. *)
Fixpoint treeAt (h : nat) (sp : gmap nat QVNode) (v : Vertex) (L : list Vertex) : Prop :=
  match h with
  | O => False
  | S h' =>
      exists n kidss,
        sp !! v = Some n /\
        Forall2 (treeAt h' sp) (qvChildren n) kidss /\
        L = v :: concat kidss /\
        NoDup L
  end.

(** The planner with the state object of [v] replaced. *)
Definition setNode (v : Vertex) (n : QVNode) (p : Planner) : Planner :=
  withStates (insert v n) p.

(** [j] is the minimum over the child actions of the stored Q(h,q). *)
Definition isMinQ (n : QVNode) (j : Q) : Prop :=
  (exists q, In q (childQnodes n) /\ (getChildQcosttogo n q == j)%Q) /\
  (forall q, In q (childQnodes n) -> (j <= getChildQcosttogo n q)%Q).

(** The sample Q_k(h,q) of a backup and the running mean it yields. *)
Definition sampleQ (cfg : Config) (executionStatus : bool)
    (executionCost selectedChildQVmincosttogo : Q) : Q :=
  if executionStatus
  then (executionCost + selectedChildQVmincosttogo)%Q
  else (executionCost + obstacleCostToGo_ cfg)%Q.

Definition runningMean (q0 qk : Q) (visits : nat) : Q :=
  (q0 + (qk - q0) / Qnat visits)%Q.

(** The same statistics at every vertex. *)
Definition sameStatistics (p p' : Planner) : Prop :=
  stateProperty_ p' = stateProperty_ p.

End Notions.

End FIRMCP.

(* ===================================================================== *)
(** * Controller.h: stabilization and accounting *)
(* ===================================================================== *)

Module ControllerExt.
Import Controller.

Section Definitions.
Context {SP : Space}.
Variable th : Thresholds.

Definition isEvSleep (e : Event) : bool :=
  match e with EvSleep => true | _ => false end.

(** Number of 20 ms sleeps recorded in a log. *)
Definition countSleep (l : list Event) : nat := length (List.filter isEvSleep l).


(** [goal_->as<StateType>()->isReached(state)], a member of the state type. *)
Variable isReached : State -> State -> bool.

(** What [Stabilize] leaves in its reference parameters, and in [tries_]. *)
Record StabilizeOut : Type := {
  sb_endState : State;
  sb_stabilizationFilteringCost : Q;
  sb_stepsToStabilize : Z;
  sb_tries : Z
}.

(** The [while] loop of [Stabilize]; [k], [stepsTaken] and [tries] are
    [int]s, and an increment beyond [INT_MAX] is undefined. *)
Fixpoint Stabilize_loop (fuel : nat) (c : ControllerT) (constructionMode : bool)
    (k : Z) (tempState1 tempState2 : State) (stepsTaken : Z) (cost : Q) (tries : Z)
    (s : Sim) : Res (State * Q * Z) * Sim :=
  if negb (isReached (goal_ c) tempState1) && Qltb (inject_Z tries) (maxTries_ th) then
    match fuel with
    | O => (OutOfFuel, s)
    | S fuel' =>
        let '(tempState2, s1) := Evolve c tempState1 (to_size_t k) s in
        if (stepsTaken =? INT_MAX) || (tries =? INT_MAX) then (Undefined, s1)
        else
          let stepsTaken := stepsTaken + 1 in
          let cost := (cost + traceCovariance tempState2)%Q in
          let tempState1 := tempState2 in
          let tries := tries + 1 in
          let s2 := if constructionMode then s1 else emit EvSleep s1 in
          Stabilize_loop fuel' c constructionMode k tempState1 tempState2
            stepsTaken cost tries s2
    end
  else (Ret (tempState2, cost, stepsTaken), s).

(** [Stabilize(startState, endState, stabilizationFilteringCost,
    stepsToStabilize, constructionMode)] *)
Definition Stabilize (fuel : nat) (c : ControllerT) (startState : State)
    (constructionMode : bool) (s : Sim) : Res StabilizeOut * Sim :=
  let k := to_int (to_size_t (Length c - 1)) in
  match Stabilize_loop fuel c constructionMode k startState startState 0 0 (tries_ c) s with
  | (Ret (tempState2, cost, stepsTaken), s') =>
      (Ret {| sb_endState := tempState2;
              sb_stabilizationFilteringCost := cost;
              sb_stepsToStabilize := stepsTaken;
              sb_tries := 0 |}, s')
  | (Undefined, s') => (Undefined, s')
  | (Exited, s') => (Exited, s')
  | (OutOfFuel, s') => (OutOfFuel, s')
  end.

End Definitions.
End ControllerExt.

(* ===================================================================== *)
(** * FIRMCP.cpp: invariants of the search and the replanning step *)
(* ===================================================================== *)

Module FIRMCPExt.
Import FIRMCP.

Section MoreNotions.
Context {E : Env}.

(** [R] relates the planner before a call to the planner after it,
    whenever the call returns. *)
Definition respects {A : Type} (R : Planner -> Planner -> Prop) (m : PM A) : Prop :=
  forall p a p', m p = Ret (a, p') -> R p p'.

(** A call that does not need more fuel than it was given. *)
Definition withinFuel {A : Type} (m : PM A) : Prop :=
  forall p, m p <> OutOfFuel.

(** The ids in use lie below the counters [num_vertices(g_)] and
    [maxEdgeID_], and no two edges share an id. *)
Definition wellFormed (p : Planner) : Prop :=
  (forall v, is_Some (stateProperty_ p !! v) -> (v < numVertices p)%nat) /\
  (forall e, In e (edges p) -> (snd e < maxEdgeID_ p)%nat) /\
  (forall e, is_Some (edgeControllers_ p !! e) -> (snd e < maxEdgeID_ p)%nat) /\
  List.NoDup (List.map snd (edges p)).

(** What a call that only grows the tree does: no state object is freed,
    none comes back at a vertex whose object was freed before, the
    counters do not decrease, the edge list is extended at its end, and
    the controllers stored under the edge ids in use stay in place. *)
Definition grows (p p' : Planner) : Prop :=
  (forall v, is_Some (stateProperty_ p !! v) -> is_Some (stateProperty_ p' !! v)) /\
  (forall v, (v < numVertices p)%nat -> stateProperty_ p !! v = None ->
             stateProperty_ p' !! v = None) /\
  (numVertices p <= numVertices p')%nat /\
  (maxEdgeID_ p <= maxEdgeID_ p')%nat /\
  (exists more, edges p' = edges p ++ more /\
                forall e, In e more -> (maxEdgeID_ p <= snd e)%nat) /\
  (forall e, (snd e < maxEdgeID_ p)%nat ->
             edgeControllers_ p' !! e = edgeControllers_ p !! e).

(** The counters of a state object are consistent: for every action the
    misses do not exceed the visits, and these do not exceed the visits of
    the node. *)
Definition statsOK (n : QVNode) : Prop :=
  forall q, (getChildQmiss n q <= getChildQvisit n q <= thisQVvisit n)%nat.

Definition allStatsOK (p : Planner) : Prop :=
  forall v n, stateProperty_ p !! v = Some n -> statsOK n.





Definition weightSum (ws : list Q) : Q := fold_right Qplus 0%Q ws.

(** What the pruning of the vertices [L] leaves: their state objects are
    freed, the others stay, and the controllers of the edges that start
    elsewhere stay. *)
Definition freed (L : list Vertex) (p p' : Planner) : Prop :=
  (forall w, w ∈ L -> stateProperty_ p' !! w = None) /\
  (forall w, w ∉ L -> stateProperty_ p' !! w = stateProperty_ p !! w) /\
  (forall e, source e ∉ L -> edgeControllers_ p' !! e = edgeControllers_ p !! e).

(** The depth at which every descent has stopped. *)
Definition searchDepth (cfg : Config) : Z :=
  Z.max (maxPOMCPDepth_ cfg) (maxFIRMReachDepth_ cfg).

(** What the search keeps from call to call: the tree only grows, and a
    well-formed planner stays well formed. *)
Definition growsWell (p p' : Planner) : Prop :=
  grows p p' /\ (wellFormed p -> wellFormed p').

(** Consistent counters stay consistent. *)
Definition keepsStats (p p' : Planner) : Prop := allStatsOK p -> allStatsOK p'.

(** The vertex counter, the edge counter and the hidden state are as
    before. *)
Definition keepsCounters (p p' : Planner) : Prop :=
  numVertices p' = numVertices p /\ hidden p' = hidden p /\ maxEdgeID_ p' = maxEdgeID_ p.


End MoreNotions.

Section Execution.
Context {E : Env}.
Variable cfg : Config.
Local Open Scope pm_scope.

(** The loop of [executeFeedbackWithPOMCP] that "prunes the old tree to
    free the memory": below every child action of the old root
    [tempVertex], the observation child is pruned with its subtree unless
    it is [nextVertex]. *)
Fixpoint pruneSiblings (fuel : nat) (tempVertex nextVertex : Vertex)
    (childQnodes : list Vertex) : PM unit :=
  match childQnodes with
  | [] => ret tt
  | childQnode :: rest =>
      currentBelief <- getNode tempVertex ;;
      (match getChildQVnode currentBelief childQnode with
       | Some childQVnode =>
           if negb (Nat.eqb childQVnode nextVertex)
           then prunePOMCPTreeFrom cfg fuel childQVnode
           else ret tt
       | None => ret tt
       end) ;;;
      pruneSiblings fuel tempVertex nextVertex rest
  end.

(** The replanning part of one pass through the loop of
    [executeFeedbackWithPOMCP], from "ADD A QVNODE TO THE POMCP TREE" to
    the update of [kStepOfEdgeController]: the belief [cstartState] reached
    by the last execution towards [targetNode] becomes the observation
    child of the old root, the other observation children are pruned, the
    next edge is searched from the new root with the true state saved and
    restored around the search, and the counter of consecutive executions
    of the same edge controller is updated.  Returns [tempVertex], [e] and
    the counter. *)
Definition replanStep (fuel : nat) (tempVertex targetNode : Vertex) (cstartState : Belief)
    (goal : Vertex) (e_prev : Edge) (kStepOfEdgeController : Z)
  : PM (Vertex * Edge * Z) :=
  nextVertex <- resolveChildQVnode tempVertex targetNode cstartState ;;
  currentBelief <- getNode tempVertex ;;
  pruneSiblings fuel tempVertex nextVertex (childQnodes currentBelief) ;;;
  tempTrueStateCopy <- onHidden (fun h => (getTrueState h, h)) ;;
  let tempVertex := nextVertex in
  e <- generatePOMCPPolicy cfg fuel tempVertex goal ;;
  onHidden (fun h => (tt, setTrueState tempTrueStateCopy h)) ;;;
  if bool_decide (e = e_prev) then
    if kStepOfEdgeController =? INT_MAX then undefined
    else ret (tempVertex, e, kStepOfEdgeController + 1)
  else ret (tempVertex, e, 0).

End Execution.
End FIRMCPExt.

(* ===================================================================== *)
(** * FIRMCP.cpp: the cost-to-go with approximate stabilization cost *)
(* ===================================================================== *)

Module CostToGo.
Import FIRMCP.

(** A call of the cost-to-go functions returns, or ends in the
    [std::out_of_range] that [map::at] throws (nothing in FIRMCP.cpp
    catches it), or is undefined ([goalM_[0]] of an empty vector), or
    recurses deeper than the fuel. *)
Inductive Outcome (A : Type) : Type :=
| Returns (a : A)
| Throws
| NoGoal
| TooDeep.
Arguments Returns {A} a.
Arguments Throws {A}.
Arguments NoGoal {A}.
Arguments TooDeep {A}.

(** The two tables the functions write: the baseline [costToGo_] of the
    roadmap, where [operator[]] adds an entry 0.0 for a missing key, and
    the memo [costToGoWithApproxStabCost_]. *)
Record CostTables : Type := {
  costToGo_ : gmap nat Q;
  costToGoWithApproxStabCost_ : gmap nat Q
}.

(** [costToGo_[v]] *)
Definition touchCostToGo (v : Vertex) (t : CostTables) : CostTables :=
  match costToGo_ t !! v with
  | Some _ => t
  | None => {| costToGo_ := <[v := 0%Q]> (costToGo_ t);
               costToGoWithApproxStabCost_ := costToGoWithApproxStabCost_ t |}
  end.

(** [costToGoWithApproxStabCost_[v]], the left side of an assignment
    before the value is stored *)
Definition touchApprox (v : Vertex) (t : CostTables) : CostTables :=
  match costToGoWithApproxStabCost_ t !! v with
  | Some _ => t
  | None => {| costToGo_ := costToGo_ t;
               costToGoWithApproxStabCost_ := <[v := 0%Q]> (costToGoWithApproxStabCost_ t) |}
  end.

(** [costToGoWithApproxStabCost_[v] = c] *)
Definition storeApprox (v : Vertex) (c : Q) (t : CostTables) : CostTables :=
  {| costToGo_ := costToGo_ t;
     costToGoWithApproxStabCost_ := <[v := c]> (costToGoWithApproxStabCost_ t) |}.

(** What C++ leaves open in the assignment of the recursive case,
    [costToGoWithApproxStabCost_[current] = costToGo_.at(current)
     + (getCostToGoWithApproxStabCost(next) - costToGo_.at(next)) + ...]:
    whether the slot on the left is created before the right side is
    computed, and whether [costToGo_.at(next)] is read before the
    recursive call.  [costToGo_.at(current)] and
    [computeApproxStabilizationCost] do not depend on their place: the
    entry of [current] exists since the test [costToGo_[current] >= ...],
    and no entry of [costToGo_] is ever changed. *)
Record EvalOrder : Type := {
  slotFirst : bool;
  nextBaselineFirst : bool
}.

Section Memo.
Variable cfg : Config.
Variable inflationForApproxStabCost_ : Q.
Variable goalM_ : list Vertex.
Variable feedback_ : gmap nat Edge.
(** FIRM::isFeedbackPolicyValid, outside the two files; it reads the
    roadmap and the feedback, which these functions do not change. *)
Variable isFeedbackPolicyValid : Vertex -> Vertex -> bool.
(** [computeApproxStabilizationCost(a, b)], a function of the beliefs of
    the two FIRM nodes; it writes nothing. *)
Variable computeApproxStabilizationCost : Vertex -> Vertex -> Q.
Variable order : EvalOrder.

Definition CM (A : Type) : Type := CostTables -> Outcome (A * CostTables).

(** [getCostToGoWithApproxStabCost], over the update it calls. *)
Definition getCostToGoWith (update : Vertex -> CM bool) (vertex : Vertex) : CM Q :=
  fun t =>
    match costToGoWithApproxStabCost_ t !! vertex with
    | Some c => Returns (c, t)
    | None =>
        match update vertex t with
        | Returns (false, t') => Returns (infiniteCostToGo_ cfg, t')
        | Returns (true, t') =>
            match costToGoWithApproxStabCost_ t' !! vertex with
            | Some c => Returns (c, t')
            | None => Throws
            end
        | Throws => Throws
        | NoGoal => NoGoal
        | TooDeep => TooDeep
        end
    end.

Fixpoint updateCostToGoWithApproxStabCost (fuel : nat) (current : Vertex) : CM bool :=
  fun t =>
    match fuel with
    | O => TooDeep
    | S fuel' =>
        match goalM_ with
        | [] => NoGoal
        | goal :: _ =>
            if Nat.eqb current goal then
              match costToGo_ t !! current with
              | Some c => Returns (true, storeApprox current c t)
              | None => Throws
              end
            else if negb (isFeedbackPolicyValid current goal) then
              Returns (false, storeApprox current (infiniteCostToGo_ cfg) t)
            else
              match feedback_ !! current with
              | None => Returns (false, storeApprox current (infiniteCostToGo_ cfg) t)
              | Some edge =>
                  let t := touchCostToGo current t in
                  if Qgeb (default 0%Q (costToGo_ t !! current)) (infiniteCostToGo_ cfg) then
                    Returns (false, storeApprox current (infiniteCostToGo_ cfg) t)
                  else
                    let next := target edge in
                    if Nat.eqb next goal then
                      match costToGo_ t !! current with
                      | Some c => Returns (true, storeApprox current c t)
                      | None => Throws
                      end
                    else
                      let t := if slotFirst order then touchApprox current t else t in
                      let assign (nextBaseline nextCostToGo : Q) (t : CostTables) :=
                        match costToGo_ t !! current with
                        | Some c =>
                            Returns (true,
                                     storeApprox current
                                       (c + (nextCostToGo - nextBaseline)
                                        + inflationForApproxStabCost_
                                          * computeApproxStabilizationCost current next)%Q t)
                        | None => Throws
                        end in
                      if nextBaselineFirst order then
                        match costToGo_ t !! next with
                        | None => Throws
                        | Some nextBaseline =>
                            match getCostToGoWith (updateCostToGoWithApproxStabCost fuel') next t with
                            | Returns (nextCostToGo, t) => assign nextBaseline nextCostToGo t
                            | Throws => Throws
                            | NoGoal => NoGoal
                            | TooDeep => TooDeep
                            end
                        end
                      else
                        match getCostToGoWith (updateCostToGoWithApproxStabCost fuel') next t with
                        | Returns (nextCostToGo, t) =>
                            match costToGo_ t !! next with
                            | None => Throws
                            | Some nextBaseline => assign nextBaseline nextCostToGo t
                            end
                        | Throws => Throws
                        | NoGoal => NoGoal
                        | TooDeep => TooDeep
                        end
              end
        end
    end.

Definition getCostToGoWithApproxStabCost (fuel : nat) (vertex : Vertex) : CM Q :=
  getCostToGoWith (updateCostToGoWithApproxStabCost fuel) vertex.

(** *** Notions for the statements *)

(** The feedback leads from [v] to the goal in [n] edges, over vertices
    with a valid policy and a finite baseline cost in [J]. *)
Inductive reachesGoal (J : gmap nat Q) (goal : Vertex) : nat -> Vertex -> Prop :=
| reaches_last (v : Vertex) (e : Edge) (c : Q) :
    v <> goal -> isFeedbackPolicyValid v goal = true ->
    feedback_ !! v = Some e -> J !! v = Some c ->
    Qgeb c (infiniteCostToGo_ cfg) = false ->
    target e = goal ->
    reachesGoal J goal 1 v
| reaches_step (n : nat) (v : Vertex) (e : Edge) (c : Q) :
    v <> goal -> isFeedbackPolicyValid v goal = true ->
    feedback_ !! v = Some e -> J !! v = Some c ->
    Qgeb c (infiniteCostToGo_ cfg) = false ->
    target e <> goal ->
    reachesGoal J goal n (target e) ->
    reachesGoal J goal (S n) v.

(** The first [n] vertices of the feedback path from [v]. *)
Fixpoint pathFrom (n : nat) (v : Vertex) : list Vertex :=
  match n with
  | O => []
  | S n' =>
      v :: match feedback_ !! v with
           | Some e => pathFrom n' (target e)
           | None => []
           end
  end.

(** The inflated stabilization costs of the edges of the path, the last
    edge, which enters the goal, left out. *)
Fixpoint stabilizationAlong (goal : Vertex) (n : nat) (v : Vertex) : Q :=
  match n with
  | O => 0
  | S n' =>
      match feedback_ !! v with
      | Some e =>
          if Nat.eqb (target e) goal then 0
          else (inflationForApproxStabCost_ * computeApproxStabilizationCost v (target e)
                + stabilizationAlong goal n' (target e))%Q
      | None => 0
      end
  end.

(** The baseline table keeps its entries, and gains only entries 0. *)
Definition baselineKept (t t' : CostTables) : Prop :=
  (forall w c, costToGo_ t !! w = Some c -> costToGo_ t' !! w = Some c) /\
  (forall w c, costToGo_ t' !! w = Some c -> costToGo_ t !! w = Some c \/ c = 0%Q).

(** What a returning update leaves: a value for its vertex, the infinite
    one if it reports failure, and every other entry as it was. *)
Definition updateOK (v : Vertex) (t : CostTables) (b : bool) (t' : CostTables) : Prop :=
  (exists x, costToGoWithApproxStabCost_ t' !! v = Some x /\
             (b = false -> x = infiniteCostToGo_ cfg)) /\
  (forall w c, w <> v -> costToGoWithApproxStabCost_ t !! w = Some c ->
               costToGoWithApproxStabCost_ t' !! w = Some c) /\
  baselineKept t t'.

(** What a returning read leaves: its value stored for the vertex, and
    every entry as it was. *)
Definition getOK (v : Vertex) (t : CostTables) (c : Q) (t' : CostTables) : Prop :=
  costToGoWithApproxStabCost_ t' !! v = Some c /\
  (forall w x, costToGoWithApproxStabCost_ t !! w = Some x ->
               costToGoWithApproxStabCost_ t' !! w = Some x) /\
  baselineKept t t'.

End Memo.
End CostToGo.

(* ===================================================================== *)
(** * Example environments *)
(* ===================================================================== *)

(** A robot on the x axis.  A belief is its mean position and the trace of
    its covariance; the true state is the position; observations are
    exact; the filter halves the trace.  A linear system keeps the nominal
    state it was built at and, when built from an observation, that
    observation.  States at or beyond [obstacle] are in collision. *)
Module LineWorld.
Import Controller.

Definition lineSpace (law : Q -> Q -> Q) (obstacle : Q) : Space :=
  {| State := Q * Q;
     Control := Q;
     Observation := Q;
     LinearSystem := (Q * Q) * option Q;
     World := Q;
     applyControl := fun u w => (w + u)%Q;
     getObservation := fun w => (w, w);
     checkTrueStateValidity := fun w => Qltb w obstacle;
     setBelief := fun _ w => w;
     getZeroControl := 0%Q;
     LinearSystemAt := fun x _ => (x, None);
     LinearSystemObs := fun x _ z => (x, Some z);
     getX := fst;
     planarNorm := fun a b => Qabs (fst a - fst b);
     traceCovariance := snd;
     generateFeedbackControl := fun goal _ st _ => law (fst goal) (fst st);
     filterEvolve := fun st _ z _ _ => (z, (snd st / 2)%Q) |}.

Definition lineThresholds : Thresholds :=
  {| nodeReachedAngle_ := 1; nodeReachedDistance_ := 1 # 10;
     maxTries_ := 10; nominalTrajDeviationThreshold_ := 10 |}.

(** A regulator that commands no motion. *)
Definition stuckSpace : Space := lineSpace (fun _ _ => 0%Q) 100.

(** A regulator that advances one unit per step. *)
Definition unitSpace (obstacle : Q) : Space := lineSpace (fun _ _ => 1%Q) obstacle.

(** The controller of the edge from x = 0 to the goal at x = 2 along the
    nominal positions 0, 1, 2, as the constructor builds it (three linear
    systems, [maxExecTime_ = 9]). *)
Definition lineController (SP : Space) (mk : Q -> @LinearSystem SP) (goalSt : @State SP)
    (nominal : list Q) : @ControllerT SP :=
  {| lss_ := List.map mk nominal; goal_ := goalSt; tries_ := 0;
     maxExecTime_ := inject_Z (Z.of_nat (length nominal) * 3); debug_ := false |}.

Definition stuckController : @ControllerT stuckSpace :=
  lineController stuckSpace (fun x => ((x, 0%Q), None)) (2%Q, 0%Q) [0%Q; 1%Q; 2%Q].

Definition unitController (obstacle : Q) : @ControllerT (unitSpace obstacle) :=
  lineController (unitSpace obstacle) (fun x => ((x, 0%Q), None)) (2%Q, 0%Q)
    [0%Q; 1%Q; 2%Q].

Definition simAt (SP : Space) (w : @World SP) (ev : list (@Event SP)) : @Sim SP :=
  {| world := w; events := ev |}.

Definition startSim (SP : Space) (w : @World SP) : @Sim SP := simAt SP w [].

(** The per-step costs of a list of posterior beliefs, summed. *)
Definition accumulatedCost (SP : Space) (post : list (@State SP)) : Q :=
  fold_right Qplus 0%Q (List.map stepCost post).

End LineWorld.

(** FIRM nodes on a line: vertex 0 at x = 0 (the start), vertex 1 at
    x = 1, vertex 2 at x = 2.  A belief is its mean position and the trace
    of its covariance; reaching is within a tenth (times n for the n-eps
    variant).  A simulated execution drives the belief to the target of
    the controller at cost 1 plus the new trace.  [log] and [sqrt] are
    stand-ins that agree with the real functions at log 1 = 0 and
    sqrt 0 = 0, [pow] is exact for the exponent 1. *)
Module Corridor.
Import FIRMCP.

Definition corridorEnv : Env :=
  {| Belief := Q * Q;
     EdgeControllerType := Q;
     TrueState := Q;
     Hidden := Q * nat;
     isReached := fun tgt cur => Qle_bool (Qabs (fst tgt - fst cur)) (1 # 10);
     isReachedWithinNEps :=
       fun tgt cur n => Qle_bool (Qabs (fst tgt - fst cur)) (n * (1 # 10));
     sqrt := fun x => x;
     log := fun x => (x - 1)%Q;
     pow := fun x _ => x;
     rand := fun h => (snd h, (fst h, S (snd h)));
     randu := fun h => ((1 # 2)%Q, h);
     getTrueState := fst;
     setTrueState := fun t h => (t, snd h);
     sampleTrueStateFromBelief := fun b _ h => (Some (fst b), h);
     executeSimulationFromUpto :=
       fun _ _ b _ ec h => ((true, (ec, (snd b / 2)%Q), (1 + snd b / 2)%Q), (ec, snd h));
     computeApproxEdgeCost := fun a b => Qabs (fst a - fst b);
     getCostToGoWithApproxStabCost := fun _ => 0%Q;
     connectionStrategy_ := fun _ _ _ => [1; 2]%nat;
     checkMotion := fun _ _ => true;
     generateEdgeController := fun _ b => fst b |}.

Definition corridorCfg : Config :=
  {| numPOMCPParticles_ := 0;
     maxPOMCPDepth_ := 2;
     maxFIRMReachDepth_ := 4;
     cExplorationForSimulate_ := 1 # 2;
     cExploitationForRolloutOutOfReach_ := 1;
     cExploitationForRolloutWithinReach_ := 1;
     costToGoRegulatorOutOfReach_ := 1;
     costToGoRegulatorWithinReach_ := 10;
     nEpsForIsReached_ := 3;
     rolloutSteps_ := 1;
     obstacleCostToGo_ := 1000;
     infiniteCostToGo_ := 1000000;
     NNRadius_ := 2;
     startM_0 := 0%nat |}.

Definition bel (x tr : Q) : @Belief corridorEnv := (x, tr).
Definition hid (x : Q) (seed : nat) : @Hidden corridorEnv := (x, seed).
Definition ctl (x : Q) : @EdgeControllerType corridorEnv := x.

Definition firmNode (x : Q) : @QVNode corridorEnv := freshNode (bel x (1 # 100)).

(** The root of the tree, at position [x]: expanded, visited twice, with
    the actions 1 and 2 of stored cost-to-go 5 and 7, J = 5, and the
    observation child 4 under action 1. *)
Definition rootNode (x : Q) : @QVNode corridorEnv :=
  {| belief := bel x 1;
     thisQVvisit := 2; thisQVmincosttogo := 5;
     childQexpanded := true; childQnodes := [1; 2]%nat;
     childQvisits := <[1%nat := 1%nat]> (<[2%nat := 1%nat]> ∅);
     childQmisses := ∅;
     childQcosttogoes := <[1%nat := 5%Q]> (<[2%nat := 7%Q]> ∅);
     childQVnodes := <[1%nat := 4%nat]> ∅ |}.

(** The observation child: expanded, with the actions 1 and 0. *)
Definition leafNode : @QVNode corridorEnv :=
  {| belief := bel 1 (1 # 2);
     thisQVvisit := 1; thisQVmincosttogo := 3;
     childQexpanded := true; childQnodes := [1; 0]%nat;
     childQvisits := <[1%nat := 1%nat]> ∅;
     childQmisses := ∅;
     childQcosttogoes := <[1%nat := 3%Q]> (<[0%nat := 4%Q]> ∅);
     childQVnodes := ∅ |}.

(** Three FIRM vertices, the root 3 at position [x] and its child 4. *)
Definition treePlanner (x : Q) : @Planner corridorEnv :=
  {| stateProperty_ :=
       <[0%nat := firmNode 0]> (<[1%nat := firmNode 1]> (<[2%nat := firmNode 2]>
       (<[3%nat := rootNode x]> (<[4%nat := leafNode]> ∅))));
     numVertices := 5;
     edges := [(3, 1, 0); (3, 2, 1); (4, 1, 2); (4, 0, 3)]%nat;
     edgeControllers_ :=
       <[(3, 1, 0)%nat := ctl 1]> (<[(3, 2, 1)%nat := ctl 2]>
       (<[(4, 1, 2)%nat := ctl 1]> (<[(4, 0, 3)%nat := ctl 0]> ∅)));
     maxEdgeID_ := 4;
     hidden := hid (1 # 2) 7 |}.

(** The weights of the children of a node under one of the two formulas. *)
Definition weightsOf (within : bool) (cn : @QVNode corridorEnv) : list Q :=
  List.map (fun q => @rolloutWeight corridorEnv corridorCfg within (getChildQcosttogo cn q))
           (childQnodes cn).

End Corridor.

Module LineGoal.
Import Controller LineWorld.

(** The goal counts a belief as reached within a tenth of its position. *)
Definition lineIsReached (SP : Space) (pos : @State SP -> Q) (goal st : @State SP) : bool :=
  Qle_bool (Qabs (pos goal - pos st)) (1 # 10).

End LineGoal.

(** The corridor with two particles per search, and a planner whose root 3
    has two observation children: 4 under the action 1 and the unexpanded
    vertex 5 under the action 2. *)
Module CorridorSearch.
Import FIRMCP Corridor.

Definition searchCfg : Config :=
  {| numPOMCPParticles_ := 2;
     maxPOMCPDepth_ := 2;
     maxFIRMReachDepth_ := 4;
     cExplorationForSimulate_ := 1 # 2;
     cExploitationForRolloutOutOfReach_ := 1;
     cExploitationForRolloutWithinReach_ := 1;
     costToGoRegulatorOutOfReach_ := 1;
     costToGoRegulatorWithinReach_ := 10;
     nEpsForIsReached_ := 3;
     rolloutSteps_ := 1;
     obstacleCostToGo_ := 1000;
     infiniteCostToGo_ := 1000000;
     NNRadius_ := 2;
     startM_0 := 0%nat |}.

Definition forkPlanner (x : Q) : @Planner corridorEnv :=
  {| stateProperty_ :=
       <[0%nat := firmNode 0]> (<[1%nat := firmNode 1]> (<[2%nat := firmNode 2]>
       (<[3%nat := addChildQVnode 2 5 (rootNode x)]> (<[4%nat := leafNode]>
       (<[5%nat := freshNode (bel 2 (1 # 2))]> ∅)))));
     numVertices := 6;
     edges := [(3, 1, 0); (3, 2, 1); (4, 1, 2); (4, 0, 3)]%nat;
     edgeControllers_ :=
       <[(3, 1, 0)%nat := ctl 1]> (<[(3, 2, 1)%nat := ctl 2]>
       (<[(4, 1, 2)%nat := ctl 1]> (<[(4, 0, 3)%nat := ctl 0]> ∅)));
     maxEdgeID_ := 4;
     hidden := hid (1 # 2) 7 |}.

End CorridorSearch.

(** A roadmap of four nodes whose feedback is the chain 3 -> 2 -> 1 -> 0
    to the goal 0, with baseline costs 15, 9, 4 and 0, nothing memoized
    yet, an inflation of 2, and the approximate stabilization cost of an
    edge equal to the number of its start node. *)
Module FeedbackChain.
Import FIRMCP CostToGo.

Definition chainFeedback : gmap nat Edge :=
  {[ 3%nat := (3, 2, 30)%nat; 2%nat := (2, 1, 20)%nat; 1%nat := (1, 0, 10)%nat ]}.

Definition chainTables : CostTables :=
  {| costToGo_ := {[ 0%nat := 0%Q; 1%nat := 4%Q; 2%nat := 9%Q; 3%nat := 15%Q ]};
     costToGoWithApproxStabCost_ := ∅ |}.

Definition chainStab (a b : Vertex) : Q := inject_Z (Z.of_nat a).

Definition chainValid (v goal : Vertex) : bool := true.

Definition slotThenCall : EvalOrder := {| slotFirst := true; nextBaselineFirst := true |}.
Definition callThenSlot : EvalOrder := {| slotFirst := false; nextBaselineFirst := false |}.

Definition chainGet (order : EvalOrder) : nat -> Vertex -> CM Q :=
  getCostToGoWithApproxStabCost Corridor.corridorCfg 2 [0%nat] chainFeedback chainValid
    chainStab order.

End FeedbackChain.

(* ===================================================================== *)
(** * Properties of the controller step *)
(* ===================================================================== *)

Module ControllerProps.
Import Controller.

Section General.
Context {SP : Space}.
Variable th : Thresholds.

Lemma lssAt_nth (c : ControllerT) (i : Z) (d : LinearSystem) :
  0 <= i < Length c -> lssAt c i = Some (nth (Z.to_nat i) (lss_ c) d).
Proof.
  intros [H0 H1]. unfold lssAt, Length in *.
  apply nth_error_nth'. lia.
Qed.

Lemma selectLinearSystems_beyond (c : ControllerT) (t : Z) (g : LinearSystem) :
  Length c <= t \/ Length c = 0 -> selectLinearSystems c t g = (g, g).
Proof.
  intros H. unfold selectLinearSystems.
  destruct (0 <? Length c) eqn:HL; [| reflexivity].
  apply Z.ltb_lt in HL.
  destruct (t <=? Length c - 1) eqn:Ht; [| reflexivity].
  apply Z.leb_le in Ht. lia.
Qed.

Lemma selectLinearSystems_last (c : ControllerT) (t : Z) (g : LinearSystem) :
  0 <= t -> t = Length c - 1 ->
  selectLinearSystems c t g = (nth (Z.to_nat t) (lss_ c) g, g).
Proof.
  intros H0 Ht. unfold selectLinearSystems.
  replace (0 <? Length c) with true by (symmetry; apply Z.ltb_lt; lia).
  replace (t <=? Length c - 1) with true by (symmetry; apply Z.leb_le; lia).
  replace (t =? Length c - 1) with true by (symmetry; apply Z.eqb_eq; lia).
  reflexivity.
Qed.

Lemma selectLinearSystems_inside (c : ControllerT) (t : Z) (g : LinearSystem) :
  0 <= t -> t < Length c - 1 ->
  selectLinearSystems c t g
  = (nth (Z.to_nat t) (lss_ c) g, nth (Z.to_nat (t + 1)) (lss_ c) g).
Proof.
  intros H0 Ht. unfold selectLinearSystems.
  replace (0 <? Length c) with true by (symmetry; apply Z.ltb_lt; lia).
  replace (t <=? Length c - 1) with true by (symmetry; apply Z.leb_le; lia).
  replace (t =? Length c - 1) with false by (symmetry; apply Z.eqb_neq; lia).
  reflexivity.
Qed.

(** [Evolve] logs exactly one filter call, with the selected pair. *)
Lemma Evolve_unfold (c : ControllerT) (state : State) (t : Z) (s : Sim) :
  let control := generateFeedbackControl (goal_ c) (lss_ c) state t in
  let zw := getObservation (applyControl control (world s)) in
  let goalLS := LinearSystemObs (goal_ c) getZeroControl (fst zw) in
  let pair := selectLinearSystems c t goalLS in
  let nextBelief := filterEvolve state control (fst zw) (fst pair) (snd pair) in
  Evolve c state t s
  = (nextBelief,
     {| world := setBelief nextBelief (snd zw);
        events := events s ++ [EvFilter t (fst pair) (snd pair)] |}).
Proof.
  cbv zeta. unfold Evolve, onWorld, emit. cbn [world events].
  destruct (getObservation _) as [z w2]. cbn [fst snd].
  destruct (selectLinearSystems _ _ _) as [cur nxt]. reflexivity.
Qed.

(** C10. Boundary behaviour of [Evolve(state, t)], for a [size_t] index
    [t] and L stored linear systems: the filter is called once; for
    [t >= L] or [L = 0] both linearizations are the system freshly built at
    the goal with zero control and the current observation; for [t = L-1]
    the current one is the stored [lss_[L-1]] and the next one is still the
    goal-based system; for [t < L-1] they are [lss_[t]] and [lss_[t+1]]. *)
Theorem Evolve_linearization_boundaries
    (c : ControllerT) (state : State) (t : Z) (s : Sim) :
  0 <= t ->
  let control := generateFeedbackControl (goal_ c) (lss_ c) state t in
  let z := fst (getObservation (applyControl control (world s))) in
  let goalLS := LinearSystemObs (goal_ c) getZeroControl z in
  exists current next,
    events (snd (Evolve c state t s)) = events s ++ [EvFilter t current next] /\
    fst (Evolve c state t s) = filterEvolve state control z current next /\
    (Length c <= t \/ Length c = 0 -> current = goalLS /\ next = goalLS) /\
    (t = Length c - 1 -> lssAt c (Length c - 1) = Some current /\ next = goalLS) /\
    (t < Length c - 1 -> lssAt c t = Some current /\ lssAt c (t + 1) = Some next).
Proof.
  intros H0 control z goalLS.
  exists (fst (selectLinearSystems c t goalLS)), (snd (selectLinearSystems c t goalLS)).
  rewrite Evolve_unfold. cbn [fst snd events].
  split; [reflexivity |]. split; [reflexivity |].
  split; [| split].
  - intros H. fold control z goalLS. rewrite selectLinearSystems_beyond by exact H. auto.
  - intros H. fold control z goalLS. rewrite selectLinearSystems_last by assumption.
    cbn [fst snd]. split; [| reflexivity].
    rewrite <- H. apply lssAt_nth. lia.
  - intros H. fold control z goalLS. rewrite selectLinearSystems_inside by assumption.
    cbn [fst snd]. split; apply lssAt_nth; lia.
Qed.

(** The deviation test reads the true-state validity exactly when the
    deviation is within the threshold. *)
Lemma deviatedOrInvalid_unfold (nominal current : State) (s : Sim) :
  deviatedOrInvalid th nominal current s
  = if Qgtb (Qabs (planarNorm nominal current)) (nominalTrajDeviationThreshold_ th)
    then (true, s)
    else (negb (checkTrueStateValidity (world s)), emit EvValidity s).
Proof. reflexivity. Qed.

Lemma world_emit (e : Event) (s : Sim) : world (emit e s) = world s.
Proof. reflexivity. Qed.

(** C5, as amended.  With [constructionMode = false] the check that
    follows [Evolve] is skipped, but the deviation test still reads the
    true-state validity whenever the deviation is within the threshold: a
    step of [executeOneStep], and a pass through the loop body of
    [Execute], then fails exactly when the deviation exceeds
    [nominalTrajDeviationThreshold_] or the true state is invalid, and it
    performs one validity check unless the deviation test already failed on
    the deviation.  With [constructionMode = true] the additional check
    after [Evolve] is performed first. *)
Theorem validity_checks_by_mode
    (c : ControllerT) (k : Z) (start : State) (filteringCost cost : Q)
    (s : Sim) (nominalX_K : State) :
  nominalX c (to_size_t k) = Some nominalX_K ->
  let endState := fst (Evolve c start (to_size_t k) s) in
  let s1 := snd (Evolve c start (to_size_t k) s) in
  let deviated :=
    Qgtb (Qabs (planarNorm nominalX_K endState)) (nominalTrajDeviationThreshold_ th) in
  let valid := checkTrueStateValidity (world s1) in
  executeOneStep th c k start filteringCost false s
  = (if deviated then (Ret (false, endState, filteringCost), s1)
     else if valid
          then (Ret (true, endState, stepCost endState), emit EvSleep (emit EvValidity s1))
          else (Ret (false, endState, filteringCost), emit EvValidity s1))
  /\
  Execute_body th c false start (to_size_t k) cost s
  = (if deviated then (Ret (BodyFalse endState), s1)
     else if valid
          then (Ret (BodyNext endState (to_uint (to_size_t k + 1))
                              (cost + traceCovariance endState)%Q),
                emit EvSleep (emit EvValidity s1))
          else (Ret (BodyFalse endState), emit EvValidity s1))
  /\
  executeOneStep th c k start filteringCost true s
  = (if valid
     then if deviated then (Ret (false, endState, filteringCost), emit EvValidity s1)
          else (Ret (true, endState, stepCost endState),
                emit EvValidity (emit EvValidity s1))
     else (Ret (false, endState, filteringCost), emit EvValidity s1)).
Proof.
  intros Hnom endState s1 deviated valid.
  unfold executeOneStep, Execute_body.
  destruct (Evolve c start (to_size_t k) s) as [e s'] eqn:HE.
  cbn [fst snd] in endState, s1. subst endState s1.
  unfold doCheckTrueStateValidity.
  rewrite Hnom. rewrite !deviatedOrInvalid_unfold.
  fold deviated. rewrite !world_emit. fold valid.
  unfold stepCost.
  repeat split; destruct deviated, valid; reflexivity.
Qed.

(** A successful run of [executeUpto] over at least one step leaves in
    [filteringCost] the cost of the last step alone. *)
Lemma executeUpto_loop_last_cost (n : nat) :
  forall (c : ControllerT) (mode : bool) (k : Z) (tempState endState : State)
         (fc : Q) (st : Z) (s s' : Sim) (out : UptoOut),
    executeUpto_loop th (S n) c mode k tempState endState fc st s = (Ret out, s') ->
    up_ok out = true ->
    up_filteringCost out = stepCost (up_endState out).
Proof.
  induction n as [| n IH]; intros c mode k tempState endState fc st s s' out Hrun Hok.
  - cbn [executeUpto_loop] in Hrun.
    destruct (executeOneStep th c k tempState fc mode s) as [[ [[e te] fc'] | | | ] s1] eqn:H1;
      try discriminate.
    destruct e.
    + injection Hrun as <- <-. cbn.
      unfold executeOneStep in H1.
      destruct (Evolve c tempState (to_size_t k) s) as [es s2].
      destruct (if mode then _ else _) as [collided s3].
      destruct collided; [discriminate |].
      destruct (nominalX c (to_size_t k)); [| discriminate].
      destruct (deviatedOrInvalid th s0 es s3) as [bad s4].
      destruct bad; [discriminate |].
      injection H1 as <- <- <-. reflexivity.
    + injection Hrun as <- <-. discriminate.
  - remember (S n) as m. cbn [executeUpto_loop] in Hrun.
    destruct (executeOneStep th c k tempState fc mode s) as [[ [[e te] fc'] | | | ] s1] eqn:H1;
      try discriminate.
    destruct e.
    + subst m. eapply IH; eassumption.
    + injection Hrun as <- <-. discriminate.
Qed.

Lemma executeUpto_last_cost (c : ControllerT) (numSteps : Z) (start endState : State)
    (fc : Q) (st : Z) (mode : bool) (s s' : Sim) (out : UptoOut) :
  1 <= numSteps ->
  executeUpto th c numSteps start endState fc st mode s = (Ret out, s') ->
  up_ok out = true ->
  up_filteringCost out = stepCost (up_endState out).
Proof.
  intros Hn Hrun Hok. unfold executeUpto in Hrun.
  destruct (Z.to_nat numSteps) as [| n] eqn:Hz; [lia |].
  eapply executeUpto_loop_last_cost; eassumption.
Qed.

End General.

Section LineWorldRuns.
Import LineWorld.

Example stuckController_built :
  mkController (SP := stuckSpace) (2%Q, 0%Q)
    [(0%Q, 0%Q); (1%Q, 0%Q); (2%Q, 0%Q)] [0%Q; 0%Q; 0%Q]
  = Ret stuckController.
Proof. reflexivity. Qed.

Example unitController_built (obstacle : Q) :
  mkController (SP := unitSpace obstacle) (2%Q, 0%Q)
    [(0%Q, 0%Q); (1%Q, 0%Q); (2%Q, 0%Q)] [1%Q; 1%Q; 1%Q]
  = Ret (unitController obstacle).
Proof. reflexivity. Qed.

(** The nominal state compared with is one of the three stored ones. *)
Lemma stuck_nominalX (k : Z) :
  0 <= k ->
  nominalX stuckController k = Some (0%Q, 0%Q) \/
  nominalX stuckController k = Some (1%Q, 0%Q) \/
  nominalX stuckController k = Some (2%Q, 0%Q).
Proof.
  intros Hk. unfold nominalX.
  destruct (k <? Length stuckController) eqn:Hlt.
  - apply Z.ltb_lt in Hlt. change (Length stuckController) with 3 in Hlt.
    assert (Hcases : k = 0 \/ k = 1 \/ k = 2) by lia.
    destruct Hcases as [-> | [-> | ->]]; [left | right; left | right; right]; reflexivity.
  - right. right. reflexivity.
Qed.

(** One pass of the loop body leaves the stuck robot where it was. *)
Lemma stuck_body (mode : bool) (k : Z) (cost tr : Q) (ev : list (@Event stuckSpace)) :
  0 <= k ->
  exists ev' : list (@Event stuckSpace),
    Execute_body lineThresholds stuckController mode (0%Q, tr) k cost
      (simAt stuckSpace 0%Q ev)
    = (Ret (@BodyNext stuckSpace (0%Q, (tr / 2)%Q) (to_uint (k + 1)) (cost + tr / 2)%Q),
       simAt stuckSpace 0%Q ev')
    /\ countEvolve ev' = S (countEvolve ev).
Proof.
  intros Hk. unfold Execute_body.
  rewrite Evolve_unfold. cbv zeta.
  destruct (selectLinearSystems stuckController k _) as [cur nxt]. cbn [fst snd].
  destruct mode.
  - exists (((ev ++ [EvFilter k cur nxt]) ++ [EvValidity]) ++ [EvValidity]).
    split.
    + destruct (stuck_nominalX k Hk) as [H | [H | H]]; rewrite H; reflexivity.
    + unfold countEvolve. rewrite !List.filter_app, !length_app. cbn. lia.
  - exists (((ev ++ [EvFilter k cur nxt]) ++ [EvValidity]) ++ [EvSleep]).
    split.
    + destruct (stuck_nominalX k Hk) as [H | [H | H]]; rewrite H; reflexivity.
    + unfold countEvolve. rewrite !List.filter_app, !length_app. cbn. lia.
Qed.

Lemma stuck_loop (fuel : nat) :
  forall (mode : bool) (k : Z) (cost tr fc : Q) (st tts : Z)
         (ev : list (@Event stuckSpace)),
    0 <= k ->
    exists ev' : list (@Event stuckSpace),
      Execute_loop lineThresholds fuel stuckController mode (0%Q, tr) (0%Q, tr)
        k cost fc st tts (simAt stuckSpace 0%Q ev)
      = (OutOfFuel, simAt stuckSpace 0%Q ev')
      /\ countEvolve ev' = (countEvolve ev + fuel)%nat.
Proof.
  induction fuel as [| fuel IH]; intros mode k cost tr fc st tts ev Hk.
  - exists ev. split; [reflexivity | lia].
  - destruct (stuck_body mode k cost tr ev Hk) as (ev1 & Hb & Hc).
    destruct (IH mode (to_uint (k + 1)) (cost + tr / 2)%Q (tr / 2)%Q fc st tts ev1)
      as (ev2 & Hl & Hc2).
    { unfold to_uint. apply Z.mod_pos_bound. reflexivity. }
    exists ev2. split; [| lia].
    cbn [Execute_loop].
    change (isTerminated lineThresholds stuckController (0%Q, tr) k) with false.
    cbv iota. rewrite Hb. exact Hl.
Qed.

(** C4.  The code at the failing input: the controller of the edge along
    the nominal positions 0, 1, 2 has [maxExecTime_ = 9]; for a robot that
    does not move (belief at x = 0, out of reach of the goal at x = 2,
    within the deviation threshold 10 of every nominal state, true state
    valid) [Execute] goes through as many [Evolve] iterations as it is
    given fuel for, in particular through more than 9, and has not
    returned after any of them. *)
Theorem Execute_ignores_maxExecTime :
  (maxExecTime_ stuckController == 9)%Q /\
  forall (fuel : nat) (mode : bool),
  exists s' : @Sim stuckSpace,
    Execute lineThresholds fuel stuckController (0%Q, 4%Q) 0 0 0 mode
      (startSim stuckSpace 0%Q) = (OutOfFuel, s')
    /\ countEvolve (events s') = fuel.
Proof.
  split; [reflexivity |].
  intros fuel mode. unfold Execute, startSim.
  destruct (stuck_loop fuel mode 0 (1 # 1000)%Q 4%Q 0%Q 0 0 [] ltac:(lia))
    as (ev' & Hrun & Hcount).
  exists (simAt stuckSpace 0%Q ev'). split; [exact Hrun | exact Hcount].
Qed.

(** C5, counterexample.  In execution mode, with the obstacle at x = 1, the
    first step ends at x = 1: the deviation from the nominal state is
    within the threshold, a true-state validity check is made, and the step
    fails on it, in [executeOneStep] and in [Execute] alike. *)
Lemma execution_mode_checks_validity :
  let c := unitController 1 in
  let s0 := startSim (unitSpace 1) 0%Q in
  let r1 := executeOneStep lineThresholds c 0 (0%Q, 4%Q) 0%Q false s0 in
  let r2 := Execute lineThresholds 5 c (0%Q, 4%Q) 0%Q 0 0 false s0 in
  (exists e, fst r1 = Ret (false, e, 0%Q) /\
             Qgtb (Qabs (@planarNorm (unitSpace 1) (0%Q, 0%Q) e))
                  (nominalTrajDeviationThreshold_ lineThresholds) = false) /\
  countValidity (events (snd r1)) = 1%nat /\
  (exists out, fst r2 = Ret out /\ ex_ok out = false) /\
  countEvolve (events (snd r2)) = 1%nat /\
  countValidity (events (snd r2)) = 1%nat.
Proof.
  cbv zeta. split; [| split; [| split; [| split]]].
  - eexists. split; vm_compute; reflexivity.
  - vm_compute. reflexivity.
  - eexists. split; vm_compute; reflexivity.
  - vm_compute. reflexivity.
  - vm_compute. reflexivity.
Qed.

(** C7.  The code at the failing input: two successful steps with
    posterior traces 2 and 1.  [executeUpto] reports 1.001, the cost of the
    second step, where the accumulation over both steps is 3.002. *)
Theorem executeUpto_reports_last_step_cost :
  let c := unitController 100 in
  let s0 := startSim (unitSpace 100) 0%Q in
  let post := posteriors 2 c 0 (0%Q, 4%Q) s0 in
  exists out s',
    executeUpto lineThresholds c 2 (0%Q, 4%Q) (0%Q, 4%Q) 0%Q 0 true s0 = (Ret out, s') /\
    up_ok out = true /\
    up_stepsTaken out = 2 /\
    countEvolve (events s') = 2%nat /\
    (up_filteringCost out == 1001 # 1000)%Q /\
    (accumulatedCost (unitSpace 100) post == 3002 # 1000)%Q /\
    ~ (up_filteringCost out == accumulatedCost (unitSpace 100) post)%Q.
Proof.
  cbv zeta. eexists. eexists.
  split; [vm_compute; reflexivity |].
  repeat split; try (vm_compute; reflexivity).
  vm_compute. discriminate.
Qed.

Lemma Evolve_linearization_boundaries_witness :
  let c := unitController 100 in
  let s0 := startSim (unitSpace 100) 0%Q in
  exists next : @LinearSystem (unitSpace 100),
    events (snd (Evolve c (2%Q, 1%Q) 2 s0))
    = [@EvFilter (unitSpace 100) 2 ((2%Q, 0%Q), None) next] /\
    next = ((2%Q, 0%Q), Some (0 + 1)%Q).
Proof.
  cbv zeta.
  destruct (Evolve_linearization_boundaries (unitController 100) (2%Q, 1%Q) 2
              (startSim (unitSpace 100) 0%Q) ltac:(lia))
    as (cur & nxt & Hev & _ & _ & Hlast & _).
  destruct (Hlast eq_refl) as [Hcur Hnxt].
  exists nxt. split.
  - rewrite Hev. injection Hcur as <-. reflexivity.
  - exact Hnxt.
Defined.

Lemma validity_checks_by_mode_witness :
  let c := unitController 1 in
  let s0 := startSim (unitSpace 1) 0%Q in
  exists s1,
    executeOneStep lineThresholds c 0 (0%Q, 4%Q) 0%Q false s0
    = (Ret (false, ((0 + 1)%Q, (4 / 2)%Q), 0%Q), s1)
    /\ countValidity (events s1) = 1%nat.
Proof.
  cbv zeta.
  destruct (validity_checks_by_mode lineThresholds (unitController 1) 0 (0%Q, 4%Q)
              0%Q 0%Q (startSim (unitSpace 1) 0%Q) (0%Q, 0%Q) eq_refl)
    as (H1 & _ & _).
  eexists. split.
  - rewrite H1. vm_compute. reflexivity.
  - vm_compute. reflexivity.
Defined.

End LineWorldRuns.

End ControllerProps.

(* ===================================================================== *)
(** * Properties of the belief-tree search *)
(* ===================================================================== *)

Module FIRMCPProps.
Import FIRMCP.

(** ** Comparisons on [Q] *)

Lemma Qgeb_true (a b : Q) : Qgeb a b = true <-> (b <= a)%Q.
Proof. unfold Qgeb. apply Qle_bool_iff. Qed.

Lemma Qgeb_false (a b : Q) : Qgeb a b = false <-> (a < b)%Q.
Proof.
  unfold Qgeb. split; intros H.
  - apply Qnot_le_lt. intros Hle. apply Qle_bool_iff in Hle. congruence.
  - destruct (Qle_bool b a) eqn:Hb; [| reflexivity].
    apply Qle_bool_iff in Hb. exfalso. eapply Qlt_not_le; eassumption.
Qed.

Lemma Qgtb_true (a b : Q) : Qgtb a b = true <-> (b < a)%Q.
Proof.
  unfold Qgtb. rewrite negb_true_iff. apply (Qgeb_false b a).
Qed.

Lemma Qgtb_false (a b : Q) : Qgtb a b = false <-> (a <= b)%Q.
Proof.
  unfold Qgtb. rewrite negb_false_iff. apply Qle_bool_iff.
Qed.

Lemma Qltb_true (a b : Q) : Qltb a b = true <-> (a < b)%Q.
Proof. unfold Qltb. rewrite negb_true_iff. apply (Qgeb_false a b). Qed.

(** ** The collection of the minimal children *)

Lemma filter_none {A : Type} (f : A -> bool) (l : list A) :
  (forall x, In x l -> f x = false) -> List.filter f l = [].
Proof.
  induction l as [| a l IH]; intros H; [reflexivity |].
  cbn [List.filter]. rewrite (H a (or_introl eq_refl)).
  apply IH. intros x Hx. apply H. right. exact Hx.
Qed.

Section Collect.
Variable score : Vertex -> Q.
Variable inf : Q.

Lemma collected_start : collected score inf [] inf [].
Proof.
  repeat split; try reflexivity.
  - intros c [].
  - apply Qle_refl.
  - right. split; [reflexivity | intros c []].
Qed.

Lemma collected_step (pre : list Vertex) (m : Q) (acc : list Vertex) (c : Vertex) :
  collected score inf pre m acc ->
  if Qgeb m (score c)
  then collected score inf (pre ++ [c]) (score c)
         ((if Qgtb m (score c) then [] else acc) ++ [c])
  else collected score inf (pre ++ [c]) m acc.
Proof.
  intros (Hacc & Hlow & Hinf & Hatt).
  destruct (Qgeb m (score c)) eqn:Hge.
  - apply Qgeb_true in Hge.
    repeat split.
    + rewrite List.filter_app. cbn [List.filter].
      replace (Qle_bool (score c) (score c)) with true
        by (symmetry; apply Qle_bool_iff, Qle_refl).
      f_equal.
      destruct (Qgtb m (score c)) eqn:Hgt.
      * apply Qgtb_true in Hgt.
        symmetry. apply filter_none. intros x Hx.
        destruct (Qle_bool (score x) (score c)) eqn:Hxc; [| reflexivity].
        apply Qle_bool_iff in Hxc. exfalso.
        assert (Hxi : (score x <= inf)%Q)
          by (eapply Qle_trans; [exact Hxc | eapply Qle_trans; [exact Hge | exact Hinf]]).
        specialize (Hlow x Hx Hxi).
        eapply Qlt_not_le; [exact Hgt |].
        apply (Qle_trans _ (score x)); assumption.
      * apply Qgtb_false in Hgt. rewrite Hacc.
        apply List.filter_ext. intros x.
        assert (Heq : (score c == m)%Q) by (apply Qle_antisym; assumption).
        destruct (Qle_bool (score x) m) eqn:H1, (Qle_bool (score x) (score c)) eqn:H2;
          try reflexivity; exfalso.
        -- apply Qle_bool_iff in H1. rewrite <- Heq in H1.
           apply Qle_bool_iff in H1. congruence.
        -- apply Qle_bool_iff in H2. rewrite Heq in H2.
           apply Qle_bool_iff in H2. congruence.
    + intros x Hx Hxi. apply in_app_or in Hx. destruct Hx as [Hx | [<- | []]].
      * eapply Qle_trans; [exact Hge | apply Hlow; assumption].
      * apply Qle_refl.
    + eapply Qle_trans; eassumption.
    + left. exists c. split; [apply in_or_app; right; left; reflexivity | reflexivity].
  - apply Qgeb_false in Hge.
    repeat split.
    + rewrite List.filter_app. cbn [List.filter].
      replace (Qle_bool (score c) m) with false.
      * rewrite app_nil_r. exact Hacc.
      * symmetry. destruct (Qle_bool (score c) m) eqn:Hb; [| reflexivity].
        apply Qle_bool_iff in Hb. exfalso. eapply Qlt_not_le; eassumption.
    + intros x Hx Hxi. apply in_app_or in Hx. destruct Hx as [Hx | [<- | []]].
      * apply Hlow; assumption.
      * apply Qlt_le_weak. exact Hge.
    + exact Hinf.
    + destruct Hatt as [(x & Hx & Hxm) | [Hm Hnone]].
      * left. exists x. split; [apply in_or_app; left; exact Hx | exact Hxm].
      * right. split; [exact Hm |].
        intros x Hx. apply in_app_or in Hx. destruct Hx as [Hx | [<- | []]].
        -- apply Hnone. exact Hx.
        -- intros Hle. subst m. eapply Qlt_not_le; eassumption.
Qed.

Lemma collected_loop (rest : list Vertex) :
  forall (pre : list Vertex) (m : Q) (acc : list Vertex),
    collected score inf pre m acc ->
    collected score inf (pre ++ rest)
      (fst (collectMinQcosttogoNodes score rest m acc))
      (snd (collectMinQcosttogoNodes score rest m acc)).
Proof.
  induction rest as [| c rest IH]; intros pre m acc H.
  - rewrite app_nil_r. exact H.
  - cbn [collectMinQcosttogoNodes].
    pose proof (collected_step pre m acc c H) as Hs.
    replace (pre ++ c :: rest) with ((pre ++ [c]) ++ rest)
      by (rewrite <- app_assoc; reflexivity).
    destruct (Qgeb m (score c)); apply IH; exact Hs.
Qed.

(** With a child whose score does not exceed the initial bound, the loop
    collects exactly the children of minimal score. *)
Lemma collect_is_argmin (l : list Vertex) :
  (exists c, In c l /\ (score c <= inf)%Q) ->
  snd (collectMinQcosttogoNodes score l inf []) = argminNodes score l.
Proof.
  intros (c0 & Hc0 & Hc0i).
  destruct (collected_loop l [] inf [] collected_start) as (Hacc & Hlow & Hinf & Hatt).
  cbn [app] in *.
  set (m := fst (collectMinQcosttogoNodes score l inf [])) in *.
  rewrite Hacc. unfold argminNodes.
  assert (Hall : forall c, In c l -> (m <= score c)%Q).
  { intros c Hc. destruct (Qlt_le_dec inf (score c)) as [Hgt | Hle].
    - eapply Qle_trans; [exact Hinf | apply Qlt_le_weak; exact Hgt].
    - apply Hlow; assumption. }
  assert (Hex : exists c1, In c1 l /\ (score c1 == m)%Q).
  { destruct Hatt as [Hex | [_ Hnone]]; [exact Hex |].
    exfalso. exact (Hnone c0 Hc0 Hc0i). }
  destruct Hex as (c1 & Hc1 & Hc1m).
  apply List.filter_ext_in. intros c Hc.
  destruct (Qle_bool (score c) m) eqn:Hb.
  - apply Qle_bool_iff in Hb. symmetry. apply forallb_forall.
    intros x Hx. apply Qle_bool_iff.
    eapply Qle_trans; [exact Hb | apply Hall; exact Hx].
  - symmetry. destruct (forallb _ l) eqn:Hf; [| reflexivity].
    rewrite forallb_forall in Hf. specialize (Hf c1 Hc1).
    apply Qle_bool_iff in Hf. rewrite Hc1m in Hf.
    apply Qle_bool_iff in Hf. congruence.
Qed.

(** With no such child the loop collects nothing. *)
Lemma collect_is_empty (l : list Vertex) :
  (forall c, In c l -> ~ (score c <= inf)%Q) ->
  snd (collectMinQcosttogoNodes score l inf []) = [].
Proof.
  intros Hnone.
  destruct (collected_loop l [] inf [] collected_start) as (Hacc & _ & Hinf & Hatt).
  cbn [app] in *. rewrite Hacc. apply filter_none. intros x Hx.
  destruct (Qle_bool (score x) _) eqn:Hb; [| reflexivity].
  apply Qle_bool_iff in Hb. exfalso.
  destruct Hatt as [(c & Hc & Hcm) | [Hm _]].
  - apply (Hnone c Hc). rewrite Hcm. exact Hinf.
  - apply (Hnone x Hx). rewrite <- Hm. exact Hb.
Qed.

Lemma In_argminNodes (l : list Vertex) (q : Vertex) :
  In q (argminNodes score l) <->
  In q l /\ forall c, In c l -> (score q <= score c)%Q.
Proof.
  unfold argminNodes. rewrite List.filter_In, forallb_forall.
  split; intros [Hq H]; (split; [exact Hq |]); intros c Hc.
  - apply Qle_bool_iff. apply H. exact Hc.
  - apply Qle_bool_iff. apply H. exact Hc.
Qed.

Lemma argminNodes_nonempty (l : list Vertex) :
  l <> [] -> argminNodes score l <> [].
Proof.
  intros Hl.
  assert (Hex : exists q, In q l /\ forall c, In c l -> (score q <= score c)%Q).
  { induction l as [| a l IH]; [congruence |].
    destruct l as [| b l].
    - exists a. split; [left; reflexivity |].
      intros c [<- | []]. apply Qle_refl.
    - destruct IH as (q & Hq & Hmin); [discriminate |].
      destruct (Qlt_le_dec (score a) (score q)) as [Hlt | Hle].
      + exists a. split; [left; reflexivity |].
        intros c [<- | Hc]; [apply Qle_refl |].
        eapply Qle_trans; [apply Qlt_le_weak; exact Hlt | apply Hmin; exact Hc].
      + exists q. split; [right; exact Hq |].
        intros c [<- | Hc]; [exact Hle | apply Hmin; exact Hc]. }
  destruct Hex as (q & Hq). apply In_argminNodes in Hq.
  intros Hnil. rewrite Hnil in Hq. destruct Hq.
Qed.

End Collect.

(** ** Action selection *)

Section Selection.
Context {E : Env}.
Variable cfg : Config.

Lemma pickMinQcosttogoNode_spec (mins : list Vertex) (p : Planner) :
  mins <> [] ->
  exists q p1,
    pickMinQcosttogoNode mins p = Ret (q, p1) /\
    In q mins /\ tieBroken mins p q p1.
Proof.
  intros Hne. destruct mins as [| a [| b rest]]; [congruence | |].
  - exists a, p. split; [reflexivity |]. split; [left; reflexivity |].
    left. split; reflexivity.
  - set (mins := a :: b :: rest).
    exists (nth (fst (rand (hidden p)) mod length mins) mins 0%nat),
           (withHidden (snd (rand (hidden p))) p).
    split; [| split].
    + subst mins. unfold pickMinQcosttogoNode, bind, onHidden, ret.
      destruct (rand (hidden p)) as [r h]. reflexivity.
    + apply nth_In. apply Nat.mod_upper_bound. discriminate.
    + right. split; [discriminate |]. split; reflexivity.
Qed.

Lemma tieBroken_sameStatistics (mins : list Vertex) (p : Planner) (q : Vertex) (p1 : Planner) :
  tieBroken mins p q p1 ->
  stateProperty_ p1 = stateProperty_ p /\ edges p1 = edges p.
Proof.
  intros [[_ ->] | (_ & _ & ->)]; split; reflexivity.
Qed.

(** C3.  In [pomcpSimulate], at an expanded vertex and a depth below
    [maxPOMCPDepth_], with some child whose score does not exceed
    [infiniteCostToGo_]: the selected action [q] is a child that minimises
    Q(v,q) - cExplorationForSimulate * sqrt(log(N(h)+1) / (N(h,q)+1e-10))
    over the child actions; among several minimisers the one at index
    [rand() % (number of minimisers)] is taken; and the function continues
    with the edge to [q]. *)
Theorem simulate_selects_ucb_argmin
    (fuel : nat) (currentVertex : Vertex) (currentDepth : Z) (selectedEdgePrev : Edge)
    (p : Planner) (cn : QVNode) :
  stateProperty_ p !! currentVertex = Some cn ->
  childQexpanded cn = true ->
  currentDepth < maxPOMCPDepth_ cfg ->
  (exists c, In c (childQnodes cn) /\ (ucbScore cfg cn c <= infiniteCostToGo_ cfg)%Q) ->
  let score := fun q =>
    (getChildQcosttogo cn q
     - cExplorationForSimulate_ cfg
       * sqrt (log (Qnat (thisQVvisit cn) + 1)
               / (Qnat (getChildQvisit cn q) + (1 # 10000000000))))%Q in
  let mins := argminNodes score (childQnodes cn) in
  exists q p1,
    In q (childQnodes cn) /\
    (forall c, In c (childQnodes cn) -> (score q <= score c)%Q) /\
    In q mins /\
    tieBroken mins p q p1 /\
    pomcpSimulate cfg (S fuel) currentVertex currentDepth selectedEdgePrev p
    = bind (boostEdge currentVertex q)
        (fun selectedEdge =>
           descend cfg (pomcpSimulate cfg fuel) (simulateBackup cfg false)
             currentVertex currentDepth q selectedEdge) p1.
Proof.
  intros Hnode Hexp Hdepth Hex score mins.
  assert (Hmins : snd (collectMinQcosttogoNodes (ucbScore cfg cn) (childQnodes cn)
                         (infiniteCostToGo_ cfg) []) = mins)
    by (apply collect_is_argmin; exact Hex).
  assert (Hne : mins <> []).
  { destruct Hex as (c & Hc & _). apply argminNodes_nonempty.
    intros Hnil. rewrite Hnil in Hc. destruct Hc. }
  destruct (pickMinQcosttogoNode_spec mins p Hne) as (q & p1 & Hpick & Hin & Htie).
  exists q, p1.
  pose proof (proj1 (In_argminNodes score (childQnodes cn) q) Hin) as [Hq Hmin].
  split; [exact Hq |]. split; [exact Hmin |]. split; [exact Hin |]. split; [exact Htie |].
  cbn [pomcpSimulate]. unfold bind at 1. unfold getNode at 1. rewrite Hnode, Hexp.
  cbn [negb]. unfold simulateSelection.
  replace (currentDepth >=? maxPOMCPDepth_ cfg) with false
    by (symmetry; rewrite Z.geb_leb; apply Z.leb_gt; lia).
  unfold selectGreedyUCB.
  unfold bind at 1 2 3. unfold getNode at 1. rewrite Hnode.
  destruct (collectMinQcosttogoNodes (ucbScore cfg cn) (childQnodes cn)
              (infiniteCostToGo_ cfg) []) as [m acc].
  cbn [snd] in Hmins. subst acc.
  unfold bind at 1. rewrite Hpick.
  unfold bind. destruct (boostEdge currentVertex q p1) as [[e p2] | | |]; reflexivity.
Qed.

(** C8.  With [numPOMCPParticles_ = 0] and some child of the root whose
    stored Q does not exceed [infiniteCostToGo_], [generatePOMCPPolicy]
    runs no simulation (the result does not depend on the fuel): it selects
    a child [q] of minimal stored Q(root,q), among several minimisers the
    one at index [rand() % (number of minimisers)], returns the edge from
    the root to [q], and leaves the state object of every vertex as it
    was. *)
Theorem generatePOMCPPolicy_without_particles
    (fuel : nat) (currentVertex goal : Vertex) (p : Planner) (cn : QVNode) :
  numPOMCPParticles_ cfg = 0 ->
  stateProperty_ p !! currentVertex = Some cn ->
  (exists c, In c (childQnodes cn) /\ (getChildQcosttogo cn c <= infiniteCostToGo_ cfg)%Q) ->
  let mins := argminNodes (getChildQcosttogo cn) (childQnodes cn) in
  exists q p1,
    In q (childQnodes cn) /\
    (forall c, In c (childQnodes cn) ->
               (getChildQcosttogo cn q <= getChildQcosttogo cn c)%Q) /\
    tieBroken mins p q p1 /\
    generatePOMCPPolicy cfg fuel currentVertex goal p
    = match List.find (fun e => Nat.eqb (source e) currentVertex && Nat.eqb (target e) q)
                      (edges p) with
      | Some e =>
          Ret (e, withHidden (setTrueState (getTrueState (hidden p)) (hidden p1)) p1)
      | None => Undefined
      end /\
    (forall e p', generatePOMCPPolicy cfg fuel currentVertex goal p = Ret (e, p') ->
                  sameStatistics p p' /\
                  In e (edges p) /\ source e = currentVertex /\ target e = q).
Proof.
  intros Hzero Hnode Hex mins.
  assert (Hmins : snd (collectMinQcosttogoNodes (getChildQcosttogo cn) (childQnodes cn)
                         (infiniteCostToGo_ cfg) []) = mins)
    by (apply collect_is_argmin; exact Hex).
  assert (Hne : mins <> []).
  { destruct Hex as (c & Hc & _). apply argminNodes_nonempty.
    intros Hnil. rewrite Hnil in Hc. destruct Hc. }
  destruct (pickMinQcosttogoNode_spec mins p Hne) as (q & p1 & Hpick & Hin & Htie).
  exists q, p1.
  pose proof (proj1 (In_argminNodes (getChildQcosttogo cn) (childQnodes cn) q) Hin)
    as [Hq Hmin].
  destruct (tieBroken_sameStatistics mins p q p1 Htie) as [Hst Hed].
  assert (Hrun :
    generatePOMCPPolicy cfg fuel currentVertex goal p
    = match List.find (fun e => Nat.eqb (source e) currentVertex && Nat.eqb (target e) q)
                      (edges p) with
      | Some e =>
          Ret (e, withHidden (setTrueState (getTrueState (hidden p)) (hidden p1)) p1)
      | None => Undefined
      end).
  { unfold generatePOMCPPolicy. rewrite Hzero.
    change (Z.to_nat (to_uint 0)) with 0%nat. cbn [particleLoop].
    unfold bind at 1. unfold onHidden at 1. cbn [fst snd].
    assert (Hwh : withHidden (hidden p) p = p) by (destruct p; reflexivity).
    rewrite Hwh.
    unfold bind at 1. unfold ret at 1.
    unfold bind at 1. unfold getNode at 1. rewrite Hnode.
    destruct (collectMinQcosttogoNodes (getChildQcosttogo cn) (childQnodes cn)
                (infiniteCostToGo_ cfg) []) as [m acc].
    cbn [snd] in Hmins. subst acc.
    unfold bind at 1. rewrite Hpick.
    unfold bind at 1. unfold boostEdge. rewrite Hed.
    destruct (List.find _ (edges p)) as [e |]; [| reflexivity].
    unfold bind, onHidden, ret. reflexivity. }
  split; [exact Hq |]. split; [exact Hmin |]. split; [exact Htie |].
  split; [exact Hrun |].
  intros e p' Hret. rewrite Hrun in Hret.
  destruct (List.find _ (edges p)) as [e0 |] eqn:Hfind; [| discriminate].
  injection Hret as <- <-.
  apply List.find_some in Hfind. destruct Hfind as [Hine Hst'].
  apply andb_true_iff in Hst'. destruct Hst' as [Hs Ht].
  apply Nat.eqb_eq in Hs, Ht.
  repeat split; try assumption.
Qed.

(** Without a child whose score stays within [infiniteCostToGo_] the
    candidate list is empty and the selection stops at its [assert]. *)
Lemma selectGreedyUCB_needs_candidate (currentVertex : Vertex) (p : Planner) (cn : QVNode) :
  stateProperty_ p !! currentVertex = Some cn ->
  (forall c, In c (childQnodes cn) -> ~ (ucbScore cfg cn c <= infiniteCostToGo_ cfg)%Q) ->
  selectGreedyUCB cfg currentVertex p = Undefined.
Proof.
  intros Hnode Hnone. unfold selectGreedyUCB.
  unfold bind at 1. unfold getNode at 1. rewrite Hnode.
  pose proof (collect_is_empty (ucbScore cfg cn) (infiniteCostToGo_ cfg)
                (childQnodes cn) Hnone) as Hempty.
  destruct (collectMinQcosttogoNodes _ _ _ _) as [m acc].
  cbn [snd] in Hempty. subst acc. reflexivity.
Qed.


End Selection.

(** ** The backup *)

Section Backup.
Context {E : Env}.
Variable cfg : Config.

Lemma modifyNode_live (v : Vertex) (f : QVNode -> QVNode) (p : Planner) (n : QVNode) :
  stateProperty_ p !! v = Some n ->
  modifyNode v f p = Ret (tt, setNode v (f n) p).
Proof. intros H. unfold modifyNode. rewrite H. reflexivity. Qed.

Lemma lookup_setNode (v : Vertex) (n : QVNode) (p : Planner) :
  stateProperty_ (setNode v n p) !! v = Some n.
Proof. unfold setNode, withStates. cbn [stateProperty_]. apply lookup_insert_eq. Qed.

Lemma setNode_setNode (v : Vertex) (n n' : QVNode) (p : Planner) :
  setNode v n' (setNode v n p) = setNode v n' p.
Proof.
  unfold setNode, withStates.
  cbn [stateProperty_ numVertices edges edgeControllers_ maxEdgeID_ hidden].
  rewrite insert_insert_eq. reflexivity.
Qed.

Lemma modifyNode_setNode (v : Vertex) (f : QVNode -> QVNode) (p : Planner) (n : QVNode) :
  modifyNode v f (setNode v n p) = Ret (tt, setNode v (f n) p).
Proof.
  rewrite (modifyNode_live v f _ n) by apply lookup_setNode.
  rewrite setNode_setNode. reflexivity.
Qed.

Lemma getNode_setNode (v : Vertex) (p : Planner) (n : QVNode) :
  getNode v (setNode v n p) = Ret (n, setNode v n p).
Proof. unfold getNode. rewrite lookup_setNode. reflexivity. Qed.

Lemma getChildQvisit_addChildQvisit (q : Vertex) (n : QVNode) :
  getChildQvisit (addChildQvisit q n) q = S (getChildQvisit n q).
Proof.
  unfold getChildQvisit at 1. unfold addChildQvisit. cbn [childQvisits].
  rewrite lookup_insert_eq. reflexivity.
Qed.

Lemma getChildQvisit_addChildQmiss (q q' : Vertex) (n : QVNode) :
  getChildQvisit (addChildQmiss q' n) q = getChildQvisit n q.
Proof. reflexivity. Qed.

(** The mean of a single sample is the sample. *)
Lemma runningMean_first_visit (q0 qk : Q) : (runningMean q0 qk 1 == qk)%Q.
Proof. unfold runningMean, Qnat. cbn. field. Qed.

(** The two backups are the same text, hence the same function. *)
Lemma simulateBackup_is_rolloutBackup : simulateBackup cfg = rolloutBackup cfg.
Proof. reflexivity. Qed.

(** The state object a backup leaves at the current vertex. *)
Lemma rolloutBackup_run (isNew ok : bool) (cost jchild : Q) (v q : Vertex)
    (p : Planner) (cn : QVNode) :
  stateProperty_ p !! v = Some cn ->
  let visits := S (getChildQvisit cn q) in
  let q0 := if isNew then 0%Q else getChildQcosttogo cn q in
  let qnew := runningMean q0 (sampleQ cfg ok cost jchild) visits in
  let J' := if Qltb qnew (thisQVmincosttogo cn) then qnew else minOverStored cn qnew in
  let cn' :=
    {| belief := belief cn; thisQVvisit := S (thisQVvisit cn);
       thisQVmincosttogo := J';
       childQexpanded := childQexpanded cn; childQnodes := childQnodes cn;
       childQvisits := <[q := visits]> (childQvisits cn);
       childQmisses := if ok then childQmisses cn
                       else <[q := S (getChildQmiss cn q)]> (childQmisses cn);
       childQcosttogoes := <[q := qnew]> (childQcosttogoes cn);
       childQVnodes := childQVnodes cn |} in
  rolloutBackup cfg isNew ok cost jchild v q p = Ret (J', setNode v cn' p).
Proof.
  intros Hnode. cbv zeta. unfold rolloutBackup.
  unfold bind at 1. rewrite (modifyNode_live _ _ _ _ Hnode).
  unfold bind at 1. rewrite modifyNode_setNode.
  unfold bind at 1.
  destruct ok; cbn [negb].
  - unfold ret at 1. unfold bind at 1. rewrite getNode_setNode.
    unfold bind at 1. rewrite modifyNode_setNode.
    unfold bind at 1. rewrite modifyNode_setNode.
    unfold ret.
    rewrite getChildQvisit_addChildQvisit. reflexivity.
  - rewrite modifyNode_setNode.
    unfold bind at 1. rewrite getNode_setNode.
    unfold bind at 1. rewrite modifyNode_setNode.
    unfold bind at 1. rewrite modifyNode_setNode.
    unfold ret.
    rewrite getChildQvisit_addChildQmiss, getChildQvisit_addChildQvisit. reflexivity.
Qed.

(** The end of a descent is the backup, applied to the state the recursive
    call left. *)
Lemma descend_ends_with_backup
    (recurse : Vertex -> Z -> Edge -> PM Q)
    (backup : bool -> Q -> Q -> Vertex -> Vertex -> PM Q)
    (v : Vertex) (d : Z) (q : Vertex) (e : Edge) (p p' : Planner) (J : Q) :
  descend cfg recurse backup v d q e p = Ret (J, p') ->
  exists ok cost jchild p2, backup ok cost jchild v q p2 = Ret (J, p').
Proof.
  unfold descend, bind. intros H.
  destruct (simulateActionExecution cfg v d e p) as [[[[ok nb] cost] p1] | | |];
    try discriminate.
  destruct (resolveChildQVnode v q nb p1) as [[nv p2] | | |]; try discriminate.
  destruct ok.
  - destruct (recurse nv (d + 1) e p2) as [[j p3] | | |]; try discriminate.
    exists true, cost, j, p3. exact H.
  - unfold ret in H. exists false, cost, 0%Q, p2. exact H.
Qed.

(** Every return of [pomcpRollout] is a stop of the selection or the
    backup, with the flag the call was given. *)
Lemma pomcpRollout_ends_with_backup (fuel : nat) (v : Vertex) (d : Z) (ePrev : Edge)
    (isNew : bool) (p p' : Planner) (J : Q) :
  pomcpRollout cfg fuel v d ePrev isNew p = Ret (J, p') ->
  rolloutSelection cfg v d ePrev isNew p = Ret (Stop J, p') \/
  exists q ok cost jchild p2,
    rolloutBackup cfg isNew ok cost jchild v q p2 = Ret (J, p').
Proof.
  destruct fuel as [| fuel]; [discriminate |].
  cbn [pomcpRollout]. unfold bind at 1. intros H.
  destruct (rolloutSelection cfg v d ePrev isNew p) as [[[j | q e] p1] | | |];
    try discriminate.
  - left. unfold ret in H. congruence.
  - right. exists q. eapply descend_ends_with_backup. exact H.
Qed.

(** Every return of [pomcpSimulate] is the value of the rollout started at
    an unexpanded vertex, a stop of the selection, or the backup, with the
    flag [false]. *)
Lemma pomcpSimulate_ends_with_backup (fuel : nat) (v : Vertex) (d : Z) (ePrev : Edge)
    (p p' : Planner) (J : Q) :
  pomcpSimulate cfg fuel v d ePrev p = Ret (J, p') ->
  (exists J0, pomcpRollout cfg (pred fuel) v d ePrev true p = Ret (J0, p') /\
              J = (0 + 1 * J0)%Q) \/
  simulateSelection cfg v d ePrev p = Ret (Stop J, p') \/
  exists q ok cost jchild p2,
    simulateBackup cfg false ok cost jchild v q p2 = Ret (J, p').
Proof.
  destruct fuel as [| fuel]; [discriminate |].
  cbn [pomcpSimulate pred]. unfold bind at 1. unfold getNode at 1. intros H.
  destruct (stateProperty_ p !! v) as [cn |]; [| discriminate].
  destruct (childQexpanded cn); cbn [negb] in H.
  - right. unfold bind at 1 in H.
    destruct (simulateSelection cfg v d ePrev p) as [[[j | q e] p1] | | |];
      try discriminate.
    + left. unfold ret in H. congruence.
    + right. exists q. eapply descend_ends_with_backup. exact H.
  - left. unfold bind in H.
    destruct (pomcpRollout cfg fuel v d ePrev true p) as [[J0 p1] | | |];
      try discriminate.
    exists J0. unfold ret in H. injection H as <- <-. auto.
Qed.

(** C2.  The backup of [pomcpSimulate] and the backup of [pomcpRollout]
    are the same function of the state the recursive call left, and at the
    current vertex h, for the selected action q, it does this: N(h) += 1;
    N(h,q) += 1; M(h,q) += 1 when the execution failed;
    Q_k(h,q) = cStep + (J_child if the execution succeeded, else J_obs);
    with the flag [isNewNodeExpanded] set, Q(h,q) is taken as 0 in place of
    the stored value; Q(h,q) <- Q(h,q) + (Q_k(h,q) - Q(h,q)) / N(h,q).
    At the first visit of the action the result is Q_k(h,q) whatever the
    flag.  The entries of the other actions, the belief and the child
    tables stay as they were. *)
Theorem backup_update_rule (isNewNodeExpanded executionStatus : bool)
    (cStep jChild : Q) (h q : Vertex) (p : Planner) (cn : QVNode) :
  stateProperty_ p !! h = Some cn ->
  let Qk := (cStep + (if executionStatus then jChild else obstacleCostToGo_ cfg))%Q in
  let Q0 := if isNewNodeExpanded then 0%Q else getChildQcosttogo cn q in
  simulateBackup cfg isNewNodeExpanded executionStatus cStep jChild h q p
  = rolloutBackup cfg isNewNodeExpanded executionStatus cStep jChild h q p /\
  exists J' cn',
    rolloutBackup cfg isNewNodeExpanded executionStatus cStep jChild h q p
    = Ret (J', setNode h cn' p) /\
    thisQVvisit cn' = S (thisQVvisit cn) /\
    getChildQvisit cn' q = S (getChildQvisit cn q) /\
    getChildQmiss cn' q
    = (if executionStatus then getChildQmiss cn q else S (getChildQmiss cn q)) /\
    getChildQcosttogo cn' q = (Q0 + (Qk - Q0) / Qnat (getChildQvisit cn' q))%Q /\
    (getChildQvisit cn q = 0%nat -> (getChildQcosttogo cn' q == Qk)%Q) /\
    thisQVmincosttogo cn' = J' /\
    (forall c, c <> q ->
       getChildQvisit cn' c = getChildQvisit cn c /\
       getChildQmiss cn' c = getChildQmiss cn c /\
       getChildQcosttogo cn' c = getChildQcosttogo cn c) /\
    belief cn' = belief cn /\ childQnodes cn' = childQnodes cn /\
    childQexpanded cn' = childQexpanded cn /\ childQVnodes cn' = childQVnodes cn.
Proof.
  intros Hnode Qk Q0. split; [reflexivity |].
  pose proof (rolloutBackup_run isNewNodeExpanded executionStatus cStep jChild h q p cn Hnode)
    as Hrun. cbv zeta in Hrun.
  eexists. eexists. split; [exact Hrun |].
  cbn [thisQVvisit thisQVmincosttogo belief childQnodes childQexpanded childQVnodes].
  unfold getChildQvisit, getChildQmiss, getChildQcosttogo.
  cbn [childQvisits childQmisses childQcosttogoes].
  split; [reflexivity |].
  split; [rewrite lookup_insert_eq; reflexivity |].
  split; [destruct executionStatus; [reflexivity | rewrite lookup_insert_eq; reflexivity] |].
  split.
  { rewrite !lookup_insert_eq. cbn [default from_option id].
    unfold runningMean, sampleQ, Qk, Q0, getChildQcosttogo.
    destruct executionStatus; reflexivity. }
  split.
  { intros Hfirst. unfold getChildQvisit in Hfirst.
    rewrite !lookup_insert_eq, Hfirst. cbn [default from_option id].
    rewrite runningMean_first_visit.
    unfold sampleQ, Qk. destruct executionStatus; reflexivity. }
  split; [reflexivity |].
  split.
  { intros c Hc. rewrite !lookup_insert_ne by congruence.
    split; [reflexivity |]. split; [| reflexivity].
    destruct executionStatus; [reflexivity |].
    rewrite lookup_insert_ne by congruence. reflexivity. }
  repeat split.
Qed.

(** The recomputed minimum: below the start value and every stored Q, and
    equal to one of them. *)
Lemma minOverStored_spec (n : QVNode) (x : Q) :
  (minOverStored n x <= x)%Q /\
  (forall c, In c (childQnodes n) -> (minOverStored n x <= getChildQcosttogo n c)%Q) /\
  (minOverStored n x = x \/
   exists c, In c (childQnodes n) /\ minOverStored n x = getChildQcosttogo n c).
Proof.
  unfold minOverStored. generalize (childQnodes n) as l. intros l. revert x.
  induction l as [| a l IH]; intros x.
  - cbn. split; [apply Qle_refl |]. split; [intros c [] | left; reflexivity].
  - cbn [fold_left].
    destruct (Qgtb x (getChildQcosttogo n a)) eqn:Hgt.
    + apply Qgtb_true in Hgt.
      destruct (IH (getChildQcosttogo n a)) as (H1 & H2 & H3).
      split; [eapply Qle_trans; [exact H1 | apply Qlt_le_weak; exact Hgt] |].
      split.
      * intros c [<- | Hc]; [exact H1 | apply H2; exact Hc].
      * right. destruct H3 as [H3 | (c & Hc & H3)].
        -- exists a. split; [left; reflexivity | exact H3].
        -- exists c. split; [right; exact Hc | exact H3].
    + apply Qgtb_false in Hgt.
      destruct (IH x) as (H1 & H2 & H3).
      split; [exact H1 |].
      split.
      * intros c [<- | Hc]; [eapply Qle_trans; eassumption | apply H2; exact Hc].
      * destruct H3 as [H3 | (c & Hc & H3)]; [left; exact H3 |].
        right. exists c. split; [right; exact Hc | exact H3].
Qed.

Lemma terminalBackup_run (v : Vertex) (j : Q) (p : Planner) (cn : QVNode) :
  stateProperty_ p !! v = Some cn ->
  terminalBackup v j p
  = Ret (j, setNode v (setThisQVmincosttogo j (addThisQVvisit cn)) p).
Proof.
  intros Hnode. unfold terminalBackup.
  unfold bind at 1. rewrite (modifyNode_live _ _ _ _ Hnode).
  unfold bind at 1. rewrite modifyNode_setNode. reflexivity.
Qed.

(** C1, as amended.  A backup that follows a recursive call, in
    [pomcpSimulate] or [pomcpRollout], leaves J(h) equal to the minimum
    over the child actions of Q(h,.) whenever J(h) did not exceed the
    stored Q of the other actions before, and the backup does not raise
    Q(h,q) above its stored value or some other action had a stored Q no
    larger than that of q.  The backups at or beyond the depth horizon do
    not look at the table: they add a visit and set J(h) to the cost they
    return. *)
Theorem backup_J_is_min_Q (isNewNodeExpanded executionStatus : bool)
    (cStep jChild : Q) (h q : Vertex) (p : Planner) (cn : QVNode) :
  stateProperty_ p !! h = Some cn ->
  In q (childQnodes cn) ->
  (forall c, In c (childQnodes cn) -> c <> q ->
             (thisQVmincosttogo cn <= getChildQcosttogo cn c)%Q) ->
  let Qnew :=
    runningMean (if isNewNodeExpanded then 0%Q else getChildQcosttogo cn q)
      (sampleQ cfg executionStatus cStep jChild) (S (getChildQvisit cn q)) in
  ((Qnew <= getChildQcosttogo cn q)%Q \/
   exists c, In c (childQnodes cn) /\ c <> q /\
             (getChildQcosttogo cn c <= getChildQcosttogo cn q)%Q) ->
  (exists J' cn',
     simulateBackup cfg isNewNodeExpanded executionStatus cStep jChild h q p
     = Ret (J', setNode h cn' p) /\
     rolloutBackup cfg isNewNodeExpanded executionStatus cStep jChild h q p
     = Ret (J', setNode h cn' p) /\
     getChildQcosttogo cn' q = Qnew /\
     thisQVmincosttogo cn' = J' /\
     isMinQ cn' J') /\
  (forall totalCostToGo, exists cn',
     terminalBackup h totalCostToGo p = Ret (totalCostToGo, setNode h cn' p) /\
     thisQVmincosttogo cn' = totalCostToGo /\
     thisQVvisit cn' = S (thisQVvisit cn) /\
     childQnodes cn' = childQnodes cn /\
     childQcosttogoes cn' = childQcosttogoes cn).
Proof.
  intros Hnode Hq Hlow Qnew Hkeep. split.
  2:{ intros j. eexists. split; [apply terminalBackup_run; exact Hnode |].
      repeat split. }
  pose proof (rolloutBackup_run isNewNodeExpanded executionStatus cStep jChild h q p cn Hnode)
    as Hrun. cbv zeta in Hrun. fold Qnew in Hrun.
  eexists. eexists. split; [exact Hrun |]. split; [exact Hrun |].
  set (J' := if Qltb Qnew (thisQVmincosttogo cn) then Qnew else minOverStored cn Qnew).
  assert (Hget : forall c,
    getChildQcosttogo
      {| belief := belief cn; thisQVvisit := S (thisQVvisit cn);
         thisQVmincosttogo := J';
         childQexpanded := childQexpanded cn; childQnodes := childQnodes cn;
         childQvisits := <[q := S (getChildQvisit cn q)]> (childQvisits cn);
         childQmisses := if executionStatus then childQmisses cn
                         else <[q := S (getChildQmiss cn q)]> (childQmisses cn);
         childQcosttogoes := <[q := Qnew]> (childQcosttogoes cn);
         childQVnodes := childQVnodes cn |} c
    = if Nat.eq_dec c q then Qnew else getChildQcosttogo cn c).
  { intros c. unfold getChildQcosttogo. cbn [childQcosttogoes].
    destruct (Nat.eq_dec c q) as [-> | Hne].
    - rewrite lookup_insert_eq. reflexivity.
    - rewrite lookup_insert_ne by congruence. reflexivity. }
  split.
  { rewrite Hget. destruct (Nat.eq_dec q q); [reflexivity | congruence]. }
  split; [reflexivity |].
  unfold isMinQ. cbn [childQnodes]. 
  subst J'. destruct (Qltb Qnew (thisQVmincosttogo cn)) eqn:Hlt.
  - apply Qltb_true in Hlt. split.
    + exists q. split; [exact Hq |]. rewrite Hget.
      destruct (Nat.eq_dec q q); [reflexivity | congruence].
    + intros c Hc. rewrite Hget. destruct (Nat.eq_dec c q) as [-> | Hne].
      * apply Qle_refl.
      * apply Qlt_le_weak. eapply Qlt_le_trans; [exact Hlt | apply Hlow; assumption].
  - destruct (minOverStored_spec cn Qnew) as (Hr1 & Hr2 & Hr3).
    set (r := minOverStored cn Qnew) in *.
    split.
    + destruct Hr3 as [Hr3 | (c0 & Hc0 & Hr3)].
      * exists q. split; [exact Hq |]. rewrite Hget.
        destruct (Nat.eq_dec q q); [| congruence]. rewrite Hr3. reflexivity.
      * destruct (Nat.eq_dec c0 q) as [-> | Hne].
        -- destruct Hkeep as [Hle | (c1 & Hc1 & Hne1 & Hle1)].
           ++ exists q. split; [exact Hq |]. rewrite Hget.
              destruct (Nat.eq_dec q q); [| congruence].
              apply Qle_antisym; [rewrite Hr3; exact Hle | exact Hr1].
           ++ exists c1. split; [exact Hc1 |]. rewrite Hget.
              destruct (Nat.eq_dec c1 q); [congruence |].
              apply Qle_antisym; [rewrite Hr3; exact Hle1 | apply Hr2; exact Hc1].
        -- exists c0. split; [exact Hc0 |]. rewrite Hget.
           destruct (Nat.eq_dec c0 q); [congruence |]. rewrite Hr3. reflexivity.
    + intros c Hc. rewrite Hget. destruct (Nat.eq_dec c q) as [-> | Hne].
      * exact Hr1.
      * apply Hr2. exact Hc.
Qed.

End Backup.

(** ** Pruning *)

Section Pruning.
Context {E : Env}.
Variable cfg : Config.

Lemma fold_delete_in (l : list Edge) (m : gmap (nat * nat * nat) EdgeControllerType)
    (e : Edge) :
  In e l -> fold_left (fun m edge => delete edge m) l m !! e = None.
Proof.
  revert m. induction l as [| a l IH]; intros m; [intros [] |].
  cbn [fold_left]. intros [-> | Hin].
  - clear IH. assert (H : delete e m !! e = None) by apply lookup_delete_eq.
    revert H. generalize (delete e m) as m'. clear m.
    induction l as [| b l IH]; intros m' H; [exact H |].
    cbn [fold_left]. apply IH.
    destruct (decide (b = e)) as [-> | Hne].
    + apply lookup_delete_eq.
    + rewrite lookup_delete_ne by exact Hne. exact H.
  - apply IH. exact Hin.
Qed.

Lemma fold_delete_notin (l : list Edge) (m : gmap (nat * nat * nat) EdgeControllerType)
    (e : Edge) :
  ~ In e l -> fold_left (fun m edge => delete edge m) l m !! e = m !! e.
Proof.
  revert m. induction l as [| a l IH]; intros m Hnin; [reflexivity |].
  cbn [fold_left]. rewrite IH.
  - apply lookup_delete_ne. intros ->. apply Hnin. left. reflexivity.
  - intros Hin. apply Hnin. right. exact Hin.
Qed.

Lemma In_out_edges (v : Vertex) (p : Planner) (e : Edge) :
  In e (out_edges v p) <-> In e (edges p) /\ source e = v.
Proof.
  unfold out_edges. rewrite List.filter_In, Nat.eqb_eq. reflexivity.
Qed.

Lemma In_clear_vertex (v : Vertex) (l : list Edge) (e : Edge) :
  In e (clear_vertex v l) <-> In e l /\ source e <> v /\ target e <> v.
Proof.
  unfold clear_vertex. rewrite List.filter_In, negb_true_iff, orb_false_iff.
  rewrite !Nat.eqb_neq. reflexivity.
Qed.

Lemma prunedFrom_refl (start : Vertex) (p : Planner) : prunedFrom start p p.
Proof.
  unfold prunedFrom. split; [reflexivity |]. split; [reflexivity |].
  split; [auto |]. split; [auto |]. split; [auto |]. split; [auto |].
  intros w Hl Hf. congruence.
Qed.

Lemma prunedFrom_trans (start : Vertex) (p p1 p2 : Planner) :
  prunedFrom start p p1 -> prunedFrom start p1 p2 -> prunedFrom start p p2.
Proof.
  intros (A1 & A2 & A3 & A4 & A5 & A6 & A7) (B1 & B2 & B3 & B4 & B5 & B6 & B7).
  assert (Hfreed : forall w, stateProperty_ p1 !! w = None -> stateProperty_ p2 !! w = None).
  { intros w Hf. destruct (stateProperty_ p2 !! w) as [n |] eqn:Hn; [| reflexivity].
    rewrite (B3 w n Hn) in Hf. discriminate. }
  assert (Herased : forall e, edgeControllers_ p1 !! e = None ->
                              edgeControllers_ p2 !! e = None).
  { intros e Hf. destruct (edgeControllers_ p2 !! e) as [c |] eqn:Hc; [| reflexivity].
    rewrite (B4 e c Hc) in Hf. discriminate. }
  unfold prunedFrom. split; [| split; [| split; [| split; [| split; [| split]]]]].
  - rewrite B1. exact A1.
  - intros e He. rewrite B2 by exact He. apply A2. exact He.
  - intros w n H. apply A3, B3. exact H.
  - intros e c H. apply A4, B4. exact H.
  - intros e H. apply A5, B5. exact H.
  - intros e He. destruct (A6 e He) as [He1 | (w & Hw & Hl & Hf)].
    + destruct (B6 e He1) as [He2 | (w & Hw & Hl & Hf)]; [left; exact He2 |].
      right. exists w. split; [exact Hw |]. split; [| exact Hf].
      destruct (stateProperty_ p1 !! w) as [n |] eqn:Hn; [| congruence].
      rewrite (A3 w n Hn). discriminate.
    + right. exists w. split; [exact Hw |]. split; [exact Hl |].
      apply Hfreed. exact Hf.
  - intros w Hl Hf.
    destruct (stateProperty_ p1 !! w) as [n |] eqn:Hn.
    + assert (Hl1 : stateProperty_ p1 !! w <> None) by congruence.
      destruct (B7 w Hl1 Hf) as [Hno Hctl]. split; [exact Hno |].
      intros e He Hs. destruct (A6 e He) as [He1 | (x & [-> | ->] & Hxl & Hxf)].
      * apply Hctl; assumption.
      * exfalso. rewrite Hs in Hxf. congruence.
      * right. apply Hfreed. exact Hxf.
    + destruct (A7 w Hl Hn) as [Hno Hctl]. split.
      * intros e He. apply Hno. apply B5. exact He.
      * intros e He Hs. destruct (Hctl e He Hs) as [Hc | Ht].
        -- left. apply Herased. exact Hc.
        -- right. apply Hfreed. exact Ht.
Qed.

(** [prunePOMCPNode] on the start vertex changes nothing. *)
Lemma prunePOMCPNode_start (p : Planner) :
  prunePOMCPNode cfg (startM_0 cfg) p = Ret (tt, p).
Proof.
  unfold prunePOMCPNode. rewrite Nat.eqb_refl. reflexivity.
Qed.

(** [prunePOMCPNode] on another vertex with a live state object. *)
Lemma prunePOMCPNode_other (v : Vertex) (p : Planner) (n : QVNode) :
  v <> startM_0 cfg ->
  stateProperty_ p !! v = Some n ->
  exists p1,
    prunePOMCPNode cfg v p = Ret (tt, p1) /\
    stateProperty_ p1 = delete v (stateProperty_ p) /\
    edges p1 = clear_vertex v (edges p) /\
    (forall e, In e (out_edges v p) -> edgeControllers_ p1 !! e = None) /\
    (forall e, ~ In e (out_edges v p) -> edgeControllers_ p1 !! e = edgeControllers_ p !! e).
Proof.
  intros Hne Hlive. unfold prunePOMCPNode.
  replace (Nat.eqb v (startM_0 cfg)) with false by (symmetry; apply Nat.eqb_neq; exact Hne).
  cbn [negb]. rewrite Hlive.
  eexists. split; [reflexivity |]. cbn [stateProperty_ edges edgeControllers_].
  split; [reflexivity |]. split; [reflexivity |]. split.
  - intros e He. apply fold_delete_in. exact He.
  - intros e He. apply fold_delete_notin. exact He.
Qed.

Lemma prunePOMCPNode_returns (v : Vertex) (p p' : Planner) :
  prunePOMCPNode cfg v p = Ret (tt, p') ->
  (v = startM_0 cfg /\ p' = p) \/
  (v <> startM_0 cfg /\ exists n, stateProperty_ p !! v = Some n).
Proof.
  intros H. destruct (Nat.eq_dec v (startM_0 cfg)) as [-> | Hne].
  - left. rewrite prunePOMCPNode_start in H. injection H as <-. auto.
  - right. split; [exact Hne |]. unfold prunePOMCPNode in H.
    replace (Nat.eqb v (startM_0 cfg)) with false in H
      by (symmetry; apply Nat.eqb_neq; exact Hne).
    cbn [negb] in H. destruct (stateProperty_ p !! v) as [n |]; [| discriminate].
    exists n. reflexivity.
Qed.

Lemma prunePOMCPNode_prunedFrom (v : Vertex) (p p' : Planner) :
  prunePOMCPNode cfg v p = Ret (tt, p') -> prunedFrom (startM_0 cfg) p p'.
Proof.
  intros H. destruct (prunePOMCPNode_returns v p p' H) as [[_ ->] | [Hne [n Hlive]]].
  - apply prunedFrom_refl.
  - destruct (prunePOMCPNode_other v p n Hne Hlive) as (p1 & Hrun & Hst & Hed & Hc1 & Hc2).
    rewrite Hrun in H. injection H as <-.
    unfold prunedFrom. rewrite Hst, Hed.
    split; [| split; [| split; [| split; [| split; [| split]]]]].
    + apply lookup_delete_ne. exact Hne.
    + intros e He. apply Hc2. rewrite In_out_edges. intros [_ Hs]. congruence.
    + intros w m Hw. destruct (Nat.eq_dec v w) as [-> | Hvw].
      * rewrite lookup_delete_eq in Hw. discriminate.
      * rewrite lookup_delete_ne in Hw by exact Hvw. exact Hw.
    + intros e c Hc.
      destruct (In_dec (fun x y : Edge => decide (x = y)) e (out_edges v p)) as [Hin | Hnin].
      * rewrite Hc1 in Hc by exact Hin. discriminate.
      * rewrite Hc2 in Hc by exact Hnin. exact Hc.
    + intros e He. apply In_clear_vertex in He. tauto.
    + intros e He.
      destruct (Nat.eq_dec (source e) v) as [Hs | Hs];
        [| destruct (Nat.eq_dec (target e) v) as [Ht | Ht]].
      * right. exists v. split; [left; congruence |].
        split; [congruence | apply lookup_delete_eq].
      * right. exists v. split; [right; congruence |].
        split; [congruence | apply lookup_delete_eq].
      * left. apply In_clear_vertex. tauto.
    + intros w Hl Hf.
      assert (Hw : w = v).
      { destruct (Nat.eq_dec v w) as [Heq | Hd]; [congruence |].
        rewrite lookup_delete_ne in Hf by exact Hd. congruence. }
      subst w. split.
      * intros e He. apply In_clear_vertex in He. tauto.
      * intros e He Hs. left. apply Hc1. apply In_out_edges. auto.
Qed.

Lemma pruneChildren_prunedFrom (recurse : Vertex -> PM unit) (rootVertex : Vertex)
    (l : list Vertex) :
  (forall v p p', recurse v p = Ret (tt, p') -> prunedFrom (startM_0 cfg) p p') ->
  forall p p', pruneChildren recurse rootVertex l p = Ret (tt, p') ->
               prunedFrom (startM_0 cfg) p p'.
Proof.
  intros Hrec. induction l as [| c l IH]; intros p p' H.
  - injection H as <-. apply prunedFrom_refl.
  - cbn [pruneChildren] in H. unfold bind at 1 in H. unfold getNode at 1 in H.
    destruct (stateProperty_ p !! rootVertex) as [rn |]; [| discriminate].
    unfold bind at 1 in H.
    destruct (getChildQVnode rn c) as [cv |].
    + destruct (recurse cv p) as [[[] p1] | | |] eqn:Hr; try discriminate.
      eapply prunedFrom_trans; [eapply Hrec; exact Hr | apply IH; exact H].
    + apply IH. exact H.
Qed.

Lemma prunePOMCPTreeFrom_split (fuel : nat) (rootVertex : Vertex) (p p' : Planner) :
  prunePOMCPTreeFrom cfg (S fuel) rootVertex p = Ret (tt, p') ->
  exists rn p1,
    stateProperty_ p !! rootVertex = Some rn /\
    (if childQexpanded rn
     then pruneChildren (prunePOMCPTreeFrom cfg fuel) rootVertex (childQnodes rn) p
     else Ret (tt, p)) = Ret (tt, p1) /\
    prunePOMCPNode cfg rootVertex p1 = Ret (tt, p').
Proof.
  cbn [prunePOMCPTreeFrom]. unfold bind at 1. unfold getNode at 1. intros H.
  destruct (stateProperty_ p !! rootVertex) as [rn |]; [| discriminate].
  exists rn. unfold bind at 1 in H.
  destruct (childQexpanded rn).
  - destruct (pruneChildren _ rootVertex (childQnodes rn) p) as [[[] p1] | | |];
      try discriminate.
    exists p1. auto.
  - exists p. auto.
Qed.

Lemma prunePOMCPTreeFrom_prunedFrom (fuel : nat) :
  forall (rootVertex : Vertex) (p p' : Planner),
    prunePOMCPTreeFrom cfg fuel rootVertex p = Ret (tt, p') ->
    prunedFrom (startM_0 cfg) p p'.
Proof.
  induction fuel as [| fuel IH]; intros rootVertex p p' H; [discriminate |].
  destruct (prunePOMCPTreeFrom_split fuel rootVertex p p' H) as (rn & p1 & Hrn & Hch & Hnode).
  apply (prunedFrom_trans _ p p1 p').
  - destruct (childQexpanded rn).
    + eapply pruneChildren_prunedFrom; [| exact Hch]. exact IH.
    + injection Hch as <-. apply prunedFrom_refl.
  - eapply prunePOMCPNode_prunedFrom. exact Hnode.
Qed.


(** *** Pruning a tree returns *)

Lemma pruneChildren_returns (recurse : Vertex -> PM unit) (h : nat)
    (sp0 : gmap nat QVNode) (rootVertex : Vertex) (n : QVNode) :
  (forall v L p,
     treeAt h sp0 v L ->
     (forall w, w ∈ L -> stateProperty_ p !! w = sp0 !! w) ->
     exists p', recurse v p = Ret (tt, p') /\
                forall w, w ∉ L -> stateProperty_ p' !! w = stateProperty_ p !! w) ->
  forall (qs : list Vertex) (kidss : list (list Vertex)) (p : Planner),
    Forall2 (treeAt h sp0) (omap (fun q => childQVnodes n !! q) qs) kidss ->
    NoDup (concat kidss) ->
    rootVertex ∉ concat kidss ->
    stateProperty_ p !! rootVertex = Some n ->
    (forall w, w ∈ concat kidss -> stateProperty_ p !! w = sp0 !! w) ->
    exists p', pruneChildren recurse rootVertex qs p = Ret (tt, p') /\
               forall w, w ∉ concat kidss -> stateProperty_ p' !! w = stateProperty_ p !! w.
Proof.
  intros Hrec. induction qs as [| q qs IH]; intros kidss p Hall Hnd Hroot Hlive Hagree.
  - exists p. split; [reflexivity | auto].
  - cbn [pruneChildren]. unfold bind at 1. unfold getNode at 1. rewrite Hlive.
    unfold bind at 1. unfold getChildQVnode.
    cbn [omap list_omap] in Hall.
    destruct (childQVnodes n !! q) as [c |] eqn:Hq.
    + inversion Hall as [| c' K omapqs kidss' Hc Hrest]; subst.
      cbn [concat] in *.
      apply NoDup_app in Hnd. destruct Hnd as (HndK & Hdisj & Hndrest).
      rewrite elem_of_app in Hroot.
      destruct (Hrec c K p Hc) as (p1 & Hrun & Hframe).
      { intros w Hw. apply Hagree. apply elem_of_app. left. exact Hw. }
      rewrite Hrun.
      destruct (IH kidss' p1 Hrest Hndrest) as (p2 & Hrun2 & Hframe2).
      { intros Hin. apply Hroot. right. exact Hin. }
      { rewrite Hframe; [exact Hlive |]. intros Hin. apply Hroot. left. exact Hin. }
      { intros w Hw. rewrite Hframe.
        - apply Hagree. apply elem_of_app. right. exact Hw.
        - intros HwK. exact (Hdisj w HwK Hw). }
      exists p2. split; [exact Hrun2 |].
      intros w Hw. rewrite elem_of_app in Hw.
      rewrite Hframe2 by (intros Hin; apply Hw; right; exact Hin).
      apply Hframe. intros Hin. apply Hw. left. exact Hin.
    + unfold ret at 1. apply IH; assumption.
Qed.

(** On a tree of state objects, untouched since [sp0], the pruning returns
    with fuel equal to the height bound, and leaves the state objects
    outside the tree alone. *)
Lemma prunePOMCPTreeFrom_returns (h : nat) (sp0 : gmap nat QVNode) :
  forall (v : Vertex) (L : list Vertex) (p : Planner),
    treeAt h sp0 v L ->
    (forall w, w ∈ L -> stateProperty_ p !! w = sp0 !! w) ->
    exists p', prunePOMCPTreeFrom cfg h v p = Ret (tt, p') /\
               forall w, w ∉ L -> stateProperty_ p' !! w = stateProperty_ p !! w.
Proof.
  induction h as [| h IH]; intros v L p Htree Hagree; [destruct Htree |].
  destruct Htree as (n & kidss & Hn & Hkids & -> & Hnd).
  apply NoDup_cons in Hnd. destruct Hnd as [Hv Hndk].
  assert (Hlive : stateProperty_ p !! v = Some n).
  { rewrite Hagree; [exact Hn | left]. }
  cbn [prunePOMCPTreeFrom]. unfold bind at 1. unfold getNode at 1. rewrite Hlive.
  unfold bind at 1.
  assert (Hch : exists p1,
    (if childQexpanded n
     then pruneChildren (prunePOMCPTreeFrom cfg h) v (childQnodes n)
     else ret tt) p = Ret (tt, p1) /\
    forall w, w ∉ concat kidss -> stateProperty_ p1 !! w = stateProperty_ p !! w).
  { unfold qvChildren in Hkids. destruct (childQexpanded n).
    - apply (pruneChildren_returns _ h sp0 v n IH (childQnodes n) kidss p);
        try assumption.
      intros w Hw. apply Hagree. right. exact Hw.
    - inversion Hkids; subst. exists p. split; [reflexivity | auto]. }
  destruct Hch as (p1 & Hrun1 & Hframe1). rewrite Hrun1.
  destruct (Nat.eq_dec v (startM_0 cfg)) as [Hs | Hs].
  - rewrite Hs. rewrite prunePOMCPNode_start. exists p1. split; [reflexivity |].
    intros w Hw. apply Hframe1. intros Hin. apply Hw. right. exact Hin.
  - assert (Hlive1 : stateProperty_ p1 !! v = Some n)
      by (rewrite Hframe1 by exact Hv; exact Hlive).
    destruct (prunePOMCPNode_other v p1 n Hs Hlive1) as (p2 & Hrun2 & Hst & _).
    exists p2. split; [exact Hrun2 |].
    intros w Hw. rewrite Hst.
    rewrite lookup_delete_ne by (intros ->; apply Hw; left).
    apply Hframe1. intros Hin. apply Hw. right. exact Hin.
Qed.

(** C9.  The start vertex of the roadmap is never pruned: after
    [prunePOMCPTreeFrom] on any vertex, and after [prunePOMCPNode] on the
    start vertex itself (which changes nothing at all), the state object of
    the start vertex is not freed, the controllers of its outgoing edges
    are not released, and its outgoing edges stay, unless their target is a
    vertex that was pruned.  A vertex passed to [prunePOMCPTreeFrom] that
    is not the start vertex is pruned; every vertex pruned in the call
    differs from the start vertex, has its state object freed and no edge
    from or to it left, and the controller of each of its outgoing edges is
    erased (an edge whose target was pruned before went with that target);
    [prunePOMCPNode] alone does the same to the vertex it is given. *)
Theorem prune_spares_start_vertex (fuel : nat) (rootVertex : Vertex) (p p' : Planner) :
  prunePOMCPTreeFrom cfg fuel rootVertex p = Ret (tt, p') ->
  let start := startM_0 cfg in
  (stateProperty_ p' !! start = stateProperty_ p !! start /\
   (forall e, source e = start -> edgeControllers_ p' !! e = edgeControllers_ p !! e) /\
   (forall e, In e (edges p) -> source e = start ->
      In e (edges p') \/
      (stateProperty_ p !! target e <> None /\ stateProperty_ p' !! target e = None)) /\
   (forall p0, prunePOMCPNode cfg start p0 = Ret (tt, p0))) /\
  (rootVertex <> start ->
   stateProperty_ p !! rootVertex <> None /\ stateProperty_ p' !! rootVertex = None) /\
  (forall w, stateProperty_ p !! w <> None -> stateProperty_ p' !! w = None ->
     w <> start /\
     (forall e, In e (edges p') -> source e <> w /\ target e <> w) /\
     (forall e, In e (edges p) -> source e = w ->
        edgeControllers_ p' !! e = None \/ stateProperty_ p' !! target e = None)) /\
  (forall v p0 n, v <> start -> stateProperty_ p0 !! v = Some n ->
     exists p1,
       prunePOMCPNode cfg v p0 = Ret (tt, p1) /\
       stateProperty_ p1 !! v = None /\
       (forall e, In e (edges p0) -> source e = v -> edgeControllers_ p1 !! e = None) /\
       (forall e, In e (edges p1) -> source e <> v /\ target e <> v)).
Proof.
  intros Hrun start.
  pose proof (prunePOMCPTreeFrom_prunedFrom fuel rootVertex p p' Hrun)
    as (R1 & R2 & R3 & R4 & R5 & R6 & R7).
  fold start in R1, R2.
  split; [| split; [| split]].
  - split; [exact R1 |]. split; [exact R2 |]. split.
    + intros e He Hs. destruct (R6 e He) as [Hin | (w & [-> | ->] & Hl & Hf)].
      * left. exact Hin.
      * exfalso. rewrite Hs, R1 in Hf. rewrite Hs in Hl. congruence.
      * right. split; assumption.
    + intros p0. apply prunePOMCPNode_start.
  - intros Hne.
    destruct fuel as [| fuel]; [discriminate |].
    destruct (prunePOMCPTreeFrom_split fuel rootVertex p p' Hrun)
      as (rn & p1 & Hrn & Hch & Hnode).
    split; [congruence |].
    destruct (prunePOMCPNode_returns rootVertex p1 p' Hnode) as [[Heq _] | [_ [n Hlive]]];
      [contradiction |].
    destruct (prunePOMCPNode_other rootVertex p1 n Hne Hlive)
      as (p2 & Hrun2 & Hst & _).
    rewrite Hrun2 in Hnode. injection Hnode as <-.
    rewrite Hst. apply lookup_delete_eq.
  - intros w Hl Hf. split; [| apply R7; assumption].
    intros ->. fold start in Hf. rewrite R1 in Hf. contradiction.
  - intros v p0 n0 Hne Hlive0.
    destruct (prunePOMCPNode_other v p0 n0 Hne Hlive0)
      as (p3 & Hrun3 & Hst3 & Hed3 & Hc31 & _).
    exists p3. split; [exact Hrun3 |].
    split; [rewrite Hst3; apply lookup_delete_eq |].
    split.
    + intros e He Hs. apply Hc31. apply In_out_edges. auto.
    + intros e He. rewrite Hed3 in He. apply In_clear_vertex in He. tauto.
Qed.

End Pruning.

(** ** Runs in the corridor *)

Section CorridorRuns.
Import Corridor.

(** The example planner holds a tree below vertex 3, so pruning it
    returns. *)
Example treePlanner_is_tree (x : Q) :
  treeAt 2 (stateProperty_ (treePlanner x)) 3%nat [3; 4]%nat.
Proof.
  exists (rootNode x), [[4%nat]].
  split; [reflexivity |]. split; [| split; [reflexivity |]].
  - constructor; [| constructor].
    exists leafNode, []. split; [reflexivity |]. split; [constructor |].
    split; [reflexivity |]. apply NoDup_singleton.
  - apply NoDup_cons. split; [| apply NoDup_singleton].
    intros Hin. apply list_elem_of_singleton in Hin. discriminate.
Qed.

(** C1, counterexample.  The root is expanded, with stored Q of 5 and 7.
    Entered at depth 4 = maxFIRMReachDepth_, [pomcpSimulate] backs up the
    obstacle cost: J(h) is 1000 afterwards, which is not the minimum of the
    stored Q. *)
Lemma horizon_backup_J_is_not_min_Q :
  exists (p' : @Planner corridorEnv) (cn' : @QVNode corridorEnv),
    pomcpSimulate corridorCfg 1 3 4 (3, 1, 0)%nat (treePlanner (1 # 2))
    = Ret (1000%Q, p') /\
    stateProperty_ p' !! 3%nat = Some cn' /\
    childQexpanded cn' = true /\
    thisQVvisit cn' = S (thisQVvisit (rootNode (1 # 2))) /\
    thisQVmincosttogo cn' = 1000%Q /\
    ~ isMinQ cn' (thisQVmincosttogo cn').
Proof.
  eexists. eexists.
  split; [vm_compute; reflexivity |].
  split; [vm_compute; reflexivity |].
  split; [reflexivity |]. split; [reflexivity |]. split; [reflexivity |].
  intros [(q & Hq & Heq) _].
  destruct Hq as [<- | [<- | []]]; vm_compute in Heq; discriminate.
Qed.

(** The slip in the recomputation of J(h): the loop reads the table before
    the updated Q(h,q) is stored.  Action 1 held the minimum 5 and is
    backed up to 17/2; J(h) stays 5 although the stored values are then
    17/2 and 7. *)
Example backup_reads_stale_Q :
  exists (p' : @Planner corridorEnv) (cn' : @QVNode corridorEnv),
    simulateBackup corridorCfg false true 10 2 3%nat 1%nat (treePlanner (1 # 2))
    = Ret (5%Q, p') /\
    stateProperty_ p' !! 3%nat = Some cn' /\
    (getChildQcosttogo cn' 1%nat == 17 # 2)%Q /\
    (getChildQcosttogo cn' 2%nat == 7)%Q /\
    thisQVmincosttogo cn' = 5%Q.
Proof.
  eexists. eexists.
  split; [vm_compute; reflexivity |].
  split; [vm_compute; reflexivity |].
  repeat split.
Qed.

Lemma backup_J_is_min_Q_witness :
  exists (J' : Q) (cn' : @QVNode corridorEnv),
    simulateBackup corridorCfg false true 1 2 3%nat 1%nat (treePlanner (1 # 2))
    = Ret (J', setNode 3%nat cn' (treePlanner (1 # 2))) /\
    (getChildQcosttogo cn' 1%nat == 4)%Q /\
    thisQVmincosttogo cn' = J' /\
    isMinQ cn' J'.
Proof.
  destruct (backup_J_is_min_Q corridorCfg false true 1 2 3%nat 1%nat
              (treePlanner (1 # 2)) (rootNode (1 # 2)))
    as [(J' & cn' & Hsim & _ & HQ & HJ & Hmin) _].
  - reflexivity.
  - left. reflexivity.
  - intros c [<- | [<- | []]] Hne; [congruence |].
    apply Qle_bool_iff. vm_compute. reflexivity.
  - left. apply Qle_bool_iff. vm_compute. reflexivity.
  - exists J', cn'. split; [exact Hsim |]. split; [| split; assumption].
    rewrite HQ. vm_compute. reflexivity.
Defined.

Lemma backup_update_rule_witness :
  exists (J' : Q) (cn' : @QVNode corridorEnv),
    rolloutBackup corridorCfg true false 3 0 3%nat 2%nat (treePlanner (1 # 2))
    = Ret (J', setNode 3%nat cn' (treePlanner (1 # 2))) /\
    thisQVvisit cn' = 3%nat /\
    getChildQvisit cn' 2%nat = 2%nat /\
    getChildQmiss cn' 2%nat = 1%nat /\
    (getChildQcosttogo cn' 2%nat == 1003 # 2)%Q.
Proof.
  destruct (backup_update_rule corridorCfg true false 3 0 3%nat 2%nat
              (treePlanner (1 # 2)) (rootNode (1 # 2)) eq_refl)
    as (_ & J' & cn' & Hrun & HN & HNq & HM & HQ & _ & _).
  exists J', cn'. split; [exact Hrun |].
  split; [exact HN |]. split; [exact HNq |]. split; [exact HM |].
  rewrite HQ, HNq. vm_compute. reflexivity.
Defined.

Lemma simulate_selects_ucb_argmin_witness :
  exists (q : nat) (p1 : @Planner corridorEnv),
    q = 1%nat /\ p1 = treePlanner (1 # 2) /\
    pomcpSimulate corridorCfg 3 3 0 (0, 0, 0)%nat (treePlanner (1 # 2))
    = bind (boostEdge 3%nat q)
        (fun selectedEdge =>
           descend corridorCfg (pomcpSimulate corridorCfg 2)
             (simulateBackup corridorCfg false) 3%nat 0 q selectedEdge) p1.
Proof.
  destruct (simulate_selects_ucb_argmin corridorCfg 2 3%nat 0 (0, 0, 0)%nat
              (treePlanner (1 # 2)) (rootNode (1 # 2)))
    as (q & p1 & _ & _ & Hin & Htie & Hrun).
  - reflexivity.
  - reflexivity.
  - reflexivity.
  - exists 1%nat. split; [left; reflexivity |].
    apply Qle_bool_iff. vm_compute. reflexivity.
  - exists q, p1.
    assert (Hq : q = 1%nat).
    { change (In q [1%nat]) in Hin. destruct Hin as [<- | []]. reflexivity. }
    split; [exact Hq |]. split; [| exact Hrun].
    destruct Htie as [[_ ->] | (Hlen & _)]; [reflexivity |].
    exfalso. apply Hlen. reflexivity.
Defined.

Lemma generatePOMCPPolicy_without_particles_witness :
  exists p' : @Planner corridorEnv,
    generatePOMCPPolicy corridorCfg 0 3%nat 2%nat (treePlanner (1 # 2))
    = Ret ((3, 1, 0)%nat, p') /\
    sameStatistics (treePlanner (1 # 2)) p'.
Proof.
  destruct (generatePOMCPPolicy_without_particles corridorCfg 0 3%nat 2%nat
              (treePlanner (1 # 2)) (rootNode (1 # 2)))
    as (q & p1 & _ & _ & _ & Hrun & Hsame).
  - reflexivity.
  - reflexivity.
  - exists 1%nat. split; [left; reflexivity |].
    apply Qle_bool_iff. vm_compute. reflexivity.
  - assert (Hret : exists p', generatePOMCPPolicy corridorCfg 0 3%nat 2%nat
                                (treePlanner (1 # 2)) = Ret ((3, 1, 0)%nat, p'))
      by (vm_compute; eexists; reflexivity).
    destruct Hret as [p' Hret].
    exists p'. split; [exact Hret |].
    exact (proj1 (Hsame _ _ Hret)).
Defined.

Lemma prune_spares_start_vertex_witness :
  exists p' : @Planner corridorEnv,
    prunePOMCPTreeFrom corridorCfg 3 3%nat (treePlanner (1 # 2)) = Ret (tt, p') /\
    stateProperty_ p' !! 0%nat = Some (firmNode 0) /\
    stateProperty_ p' !! 3%nat = None.
Proof.
  assert (Hret : exists p', prunePOMCPTreeFrom corridorCfg 3 3%nat (treePlanner (1 # 2))
                            = Ret (tt, p'))
    by (vm_compute; eexists; reflexivity).
  destruct Hret as [p' Hret].
  destruct (prune_spares_start_vertex corridorCfg 3 3%nat (treePlanner (1 # 2)) p' Hret)
    as ((Hstart & _) & Hroot & _).
  exists p'. split; [exact Hret |]. split.
  - etransitivity; [exact Hstart | reflexivity].
  - apply Hroot. discriminate.
Defined.

(** C6.  The code at the failing input: the belief at x = 1.95 is within
    three eps of the neighbour 2 (at x = 2) but not of the neighbour 1 (at
    x = 1), which comes first in the child list.  Only the first child is
    tested, so the out-of-reach weights 1/6 and 1/8 are used and not the
    within-reach weights 1/15 and 1/17. *)
Theorem rollout_tests_first_neighbour_only :
  let p := treePlanner (195 # 100) in
  let cn := rootNode (195 # 100) in
  stateProperty_ p !! 3%nat = Some cn /\
  childQnodes cn = [1; 2]%nat /\
  @isReachedWithinNEps corridorEnv (belief (firmNode 1)) (belief cn)
    (nEpsForIsReached_ corridorCfg) = false /\
  @isReachedWithinNEps corridorEnv (belief (firmNode 2)) (belief cn)
    (nEpsForIsReached_ corridorCfg) = true /\
  checkReachedWithinNEps corridorCfg cn p = Ret (false, p) /\
  List.map Qred (weightsOf false cn) = [1 # 6; 1 # 8]%Q /\
  List.map Qred (weightsOf true cn) = [1 # 15; 1 # 17]%Q /\
  List.map Qred (fst (accumulateWeights corridorCfg false cn (childQnodes cn) 0))
  = [1 # 6; 7 # 24]%Q /\
  (exists p', selectRolloutAction corridorCfg 3%nat p = Ret ((1%nat, (3, 1, 0)%nat), p')).
Proof.
  cbv zeta. repeat split; try (vm_compute; reflexivity).
  eexists. vm_compute. reflexivity.
Qed.

End CorridorRuns.

End FIRMCPProps.

(* ===================================================================== *)
(** * Properties of the controller runs *)
(* ===================================================================== *)

Module ExecutionProps.
Import Controller ControllerExt ControllerProps.

Section General.
Context {SP : Space}.
Variable th : Thresholds.

(** *** What a run of [Evolve] depends on *)


Lemma Evolve_events (c : ControllerT) (st : State) (t : Z) (s : Sim) :
  exists cur nxt, events (snd (Evolve c st t s)) = events s ++ [EvFilter t cur nxt].
Proof.
  rewrite Evolve_unfold. cbn [snd events]. eauto.
Qed.


Lemma count_app_one (f : Event -> bool) (l : list Event) (e : Event) :
  length (List.filter f (l ++ [e])) = (length (List.filter f l) + (if f e then 1 else 0))%nat.
Proof.
  rewrite List.filter_app, length_app. cbn [List.filter]. destruct (f e); reflexivity.
Qed.


(** *** One pass through the loop body of [Execute] *)



Lemma countEvolve_app (l1 l2 : list Event) :
  countEvolve (l1 ++ l2) = (countEvolve l1 + countEvolve l2)%nat.
Proof. unfold countEvolve. rewrite List.filter_app, length_app. reflexivity. Qed.

Lemma countValidity_app (l1 l2 : list Event) :
  countValidity (l1 ++ l2) = (countValidity l1 + countValidity l2)%nat.
Proof. unfold countValidity. rewrite List.filter_app, length_app. reflexivity. Qed.

Lemma countSleep_app (l1 l2 : list Event) :
  countSleep (l1 ++ l2) = (countSleep l1 + countSleep l2)%nat.
Proof. unfold countSleep. rewrite List.filter_app, length_app. reflexivity. Qed.





(** A run of [Execute] that returns [false] has not written any of its
    three counters. *)
Lemma Execute_loop_failure (fuel : nat) :
  forall (c : ControllerT) (mode : bool) (st te : State) (k : Z) (cost fc : Q)
         (stk tts : Z) (s s' : Sim) (out : ExecuteOut),
    Execute_loop th fuel c mode st te k cost fc stk tts s = (Ret out, s') ->
    ex_ok out = false ->
    ex_filteringCost out = fc /\ ex_stepsTaken out = stk /\ ex_timeToStop out = tts.
Proof.
  induction fuel as [| fuel IH];
    intros c mode st te k cost fc stk tts s s' out Hrun Hok;
    cbn [Execute_loop] in Hrun;
    destruct (isTerminated th c te k);
    try (injection Hrun as <- <-; discriminate); try discriminate.
  destruct (Execute_body th c mode st k cost s) as [[[st' | st' k' cost'] | | |] s1];
    try discriminate.
  - injection Hrun as <- <-. auto.
  - eapply IH; eassumption.
Qed.


(** X2.  A run of [Execute] that returns [false] leaves [filteringCost],
    [stepsTaken] and [timeToStop] as the caller passed them in: the cost
    and the steps spent up to the failure are not reported. *)
Theorem Execute_failure_reports_nothing
    (fuel : nat) (c : ControllerT) (start : State) (fc : Q) (stk tts : Z)
    (mode : bool) (s s' : Sim) (out : ExecuteOut) :
  Execute th fuel c start fc stk tts mode s = (Ret out, s') ->
  ex_ok out = false ->
  ex_filteringCost out = fc /\ ex_stepsTaken out = stk /\ ex_timeToStop out = tts.
Proof.
  intros Hrun Hok. unfold Execute in Hrun.
  eapply Execute_loop_failure; eassumption.
Qed.

(** *** [executeOneStep] and [executeUpto] *)

Lemma nominalX_None (c : ControllerT) (k : Z) :
  0 <= k -> (nominalX c k = None <-> lss_ c = []).
Proof.
  intros Hk. unfold nominalX, lssAt, Length.
  destruct (lss_ c) as [| a l] eqn:Hl.
  - split; [reflexivity |]. intros _.
    assert (Hnil : forall i, getX <$> nth_error (@nil LinearSystem) i = None)
      by (intros [| i]; reflexivity).
    destruct (k <? _); apply Hnil.
  - split; [| discriminate]. intros H. exfalso.
    set (L := Z.of_nat (length (a :: l))) in *.
    assert (HL : 0 < L) by (subst L; cbn [length]; lia).
    assert (Hin : forall i, 0 <= i < L -> nth_error (a :: l) (Z.to_nat i) <> None).
    { intros i Hi. apply nth_error_Some. subst L. lia. }
    destruct (k <? L) eqn:Hlt.
    + apply Z.ltb_lt in Hlt. apply (Hin k); [lia |].
      destruct (nth_error (a :: l) (Z.to_nat k)); [discriminate | reflexivity].
    + assert (Hm : 0 <= to_size_t (L - 1) < L).
      { unfold to_size_t.
        pose proof (Z.mod_pos_bound (L - 1) (2 ^ 64) ltac:(lia)) as Hb.
        pose proof (Z.mod_le (L - 1) (2 ^ 64) ltac:(lia) ltac:(lia)) as Hle. lia. }
      apply (Hin _ Hm).
      destruct (nth_error (a :: l) (Z.to_nat (to_size_t (L - 1)))); [discriminate | reflexivity].
Qed.

Lemma to_size_t_nonneg (k : Z) : 0 <= to_size_t k.
Proof. unfold to_size_t. apply Z.mod_pos_bound. lia. Qed.

(** What one step returns, by cases. *)
Lemma executeOneStep_spec (c : ControllerT) (k : Z) (start : State) (fc : Q)
    (mode : bool) (s : Sim) :
  let te := fst (Evolve c start (to_size_t k) s) in
  let s1 := snd (Evolve c start (to_size_t k) s) in
  match executeOneStep th c k start fc mode s with
  | (Ret (e, endState, fc'), s') =>
      endState = te /\
      fc' = (if e then stepCost te else fc) /\
      countEvolve (events s') = countEvolve (events s1)
  | (Undefined, s') =>
      lss_ c = [] /\ (mode = true -> checkTrueStateValidity (world s1) = true)
  | _ => False
  end.
Proof.
  cbv zeta. unfold executeOneStep.
  pose proof (nominalX_None c (to_size_t k) (to_size_t_nonneg k)) as Hnone.
  destruct (Evolve c start (to_size_t k) s) as [te s1]. cbn [fst snd].
  assert (Hemit : forall e x, isEvFilter e = false ->
            countEvolve (events (emit e x)) = countEvolve (events x)).
  { intros e x He. unfold emit. cbn [events]. rewrite countEvolve_app.
    unfold countEvolve at 2. cbn [List.filter]. rewrite He. cbn. lia. }
  destruct mode.
  - unfold doCheckTrueStateValidity.
    destruct (checkTrueStateValidity (world s1)) eqn:Hv; cbn [negb].
    + destruct (nominalX c (to_size_t k)) as [nx |].
      * rewrite deviatedOrInvalid_unfold. destruct (Qgtb _ _).
        -- repeat split. apply Hemit. reflexivity.
        -- rewrite world_emit, Hv. cbn [negb]. repeat split.
           rewrite !Hemit by reflexivity. reflexivity.
      * split; [apply Hnone; reflexivity | auto].
    + repeat split. apply Hemit. reflexivity.
  - destruct (nominalX c (to_size_t k)) as [nx |].
    + rewrite deviatedOrInvalid_unfold. destruct (Qgtb _ _).
      * repeat split.
      * destruct (checkTrueStateValidity (world s1)); cbn [negb]; repeat split;
          rewrite !Hemit by reflexivity; reflexivity.
    + split; [apply Hnone; reflexivity | discriminate].
Qed.

Lemma executeUpto_loop_accounting (n : nat) :
  forall (c : ControllerT) (mode : bool) (k : Z) (temp endSt : State) (fc : Q) (st : Z)
         (s s' : Sim) (out : UptoOut),
    executeUpto_loop th n c mode k temp endSt fc st s = (Ret out, s') ->
    if up_ok out then
      up_stepsTaken out = k + Z.of_nat n /\
      countEvolve (events s') = (countEvolve (events s) + n)%nat
    else
      up_stepsTaken out = st /\
      exists m : nat, (m < n)%nat /\
        countEvolve (events s') = (countEvolve (events s) + S m)%nat.
Proof.
  induction n as [| n IH]; intros c mode k temp endSt fc st s s' out Hrun.
  - injection Hrun as <- <-. cbn. split; [lia | lia].
  - cbn [executeUpto_loop] in Hrun.
    pose proof (executeOneStep_spec c k temp fc mode s) as Hstep. cbv zeta in Hstep.
    destruct (Evolve_events c temp (to_size_t k) s) as (cur & nxt & Hev).
    destruct (executeOneStep th c k temp fc mode s) as [[[[e te] fc'] | | |] s1];
      try discriminate.
    destruct Hstep as (_ & _ & Hc).
    assert (Hc1 : countEvolve (events s1) = (countEvolve (events s) + 1)%nat).
    { rewrite Hc, Hev, countEvolve_app. cbn. lia. }
    destruct e.
    + specialize (IH _ _ _ _ _ _ _ _ _ _ Hrun).
      destruct (up_ok out).
      * destruct IH as [H1 H2]. split; lia.
      * destruct IH as [H1 (m & Hm & H2)]. split; [exact H1 |].
        exists (S m). split; lia.
    + injection Hrun as <- <-. cbn. split; [reflexivity |].
      exists 0%nat. split; lia.
Qed.

(** X3.  The step count of [executeUpto].  With [numSteps <= 0] nothing is
    executed: the call returns [true] with [stepsTaken = 0] and leaves
    [endState] and [filteringCost] as they were passed in.  A run that
    returns [true] has made exactly [numSteps] calls of [Evolve] and
    reports [numSteps]; a run that returns [false] has made at least one
    and at most [numSteps] calls and has not written [stepsTaken]. *)
Theorem executeUpto_step_accounting
    (c : ControllerT) (numSteps : Z) (start endSt : State) (fc : Q) (st : Z)
    (mode : bool) (s s' : Sim) (out : UptoOut) :
  executeUpto th c numSteps start endSt fc st mode s = (Ret out, s') ->
  (numSteps <= 0 ->
     out = {| up_ok := true; up_endState := endSt;
              up_filteringCost := fc; up_stepsTaken := 0 |} /\ s' = s) /\
  (up_ok out = true ->
     up_stepsTaken out = Z.max 0 numSteps /\
     countEvolve (events s') = (countEvolve (events s) + Z.to_nat numSteps)%nat) /\
  (up_ok out = false ->
     up_stepsTaken out = st /\
     (countEvolve (events s) < countEvolve (events s')
      <= countEvolve (events s) + Z.to_nat numSteps)%nat).
Proof.
  intros Hrun. unfold executeUpto in Hrun.
  pose proof (executeUpto_loop_accounting _ _ _ _ _ _ _ _ _ _ _ Hrun) as Hacc.
  split; [| split].
  - intros Hle. replace (Z.to_nat numSteps) with 0%nat in Hrun by lia.
    injection Hrun as <- <-. auto.
  - intros Hok. rewrite Hok in Hacc. destruct Hacc as [H1 H2]. split; lia.
  - intros Hok. rewrite Hok in Hacc. destruct Hacc as [H1 (m & Hm & H2)].
    split; [exact H1 | lia].
Qed.

Lemma executeUpto_loop_returns (n : nat) :
  forall (c : ControllerT) (mode : bool) (k : Z) (temp endSt : State) (fc : Q) (st : Z)
         (s : Sim),
    lss_ c <> [] ->
    exists out s', executeUpto_loop th n c mode k temp endSt fc st s = (Ret out, s').
Proof.
  induction n as [| n IH]; intros c mode k temp endSt fc st s Hne.
  - eexists. eexists. reflexivity.
  - cbn [executeUpto_loop].
    pose proof (executeOneStep_spec c k temp fc mode s) as Hstep. cbv zeta in Hstep.
    destruct (executeOneStep th c k temp fc mode s) as [[[[e te] fc'] | | |] s1];
      try contradiction.
    + destruct e; [apply IH; exact Hne |]. eexists. eexists. reflexivity.
    + destruct Hstep as [Hnil _]. contradiction.
Qed.

(** X4.  The only undefined behaviour of a step is the read of
    [lss_[lss_.size()-1]] in a controller without linear systems, as the
    constructor builds it from an empty nominal trajectory: the step is
    undefined exactly when [lss_] is empty and the step was not ended by
    the collision check of the construction mode before.  With at least
    one linear system [executeOneStep] and [executeUpto] always return. *)
Theorem step_undefined_iff_no_linear_system
    (c : ControllerT) (k : Z) (start : State) (fc : Q) (mode : bool) (s : Sim) :
  (fst (executeOneStep th c k start fc mode s) = Undefined <->
   lss_ c = [] /\
   (mode = true ->
    checkTrueStateValidity (world (snd (Evolve c start (to_size_t k) s))) = true)) /\
  (forall goal nominalUs c0,
     mkController goal [] nominalUs = Ret c0 -> lss_ c0 = []) /\
  (lss_ c <> [] ->
   forall numSteps endSt st,
   exists out s', executeUpto th c numSteps start endSt fc st mode s = (Ret out, s')).
Proof.
  split; [| split].
  - pose proof (executeOneStep_spec c k start fc mode s) as Hstep. cbv zeta in Hstep.
    split.
    + intros Hu.
      destruct (executeOneStep th c k start fc mode s) as [[[[e te] fc'] | | |] s1];
        try discriminate. exact Hstep.
    + intros [Hnil Hvalid].
      pose proof (proj2 (nominalX_None c (to_size_t k) (to_size_t_nonneg k)) Hnil) as Hnx.
      unfold executeOneStep.
      destruct (Evolve c start (to_size_t k) s) as [te s1]. cbn [fst snd] in *.
      destruct mode.
      * unfold doCheckTrueStateValidity. rewrite (Hvalid eq_refl). cbn [negb].
        rewrite Hnx. reflexivity.
      * rewrite Hnx. reflexivity.
  - intros goal nominalUs c0 H. cbn in H. injection H as <-. reflexivity.
  - intros Hne numSteps endSt st. unfold executeUpto.
    apply executeUpto_loop_returns. exact Hne.
Qed.

(** *** The constructor *)

Lemma buildLinearSystems_spec (xs : list State) :
  forall us : list Control,
    ((length xs <= length us)%nat ->
     exists l, buildLinearSystems xs us = Ret l /\
               length l = length xs /\
               forall i x u, nth_error xs i = Some x -> nth_error us i = Some u ->
                             nth_error l i = Some (LinearSystemAt x u)) /\
    ((length us < length xs)%nat -> buildLinearSystems xs us = Undefined).
Proof.
  induction xs as [| x xs IH]; intros us.
  - split; [| cbn; lia]. intros _. exists []. split; [reflexivity |].
    split; [reflexivity |]. intros [| i] ? ? H; discriminate.
  - destruct us as [| u us]; cbn [buildLinearSystems length].
    + split; [lia | reflexivity].
    + destruct (IH us) as [Hok Hbad]. split.
      * intros Hle. destruct Hok as (l & Hl & Hlen & Hnth); [lia |].
        rewrite Hl. exists (LinearSystemAt x u :: l).
        split; [reflexivity |]. split; [cbn; lia |].
        intros [| i] x0 u0 Hx Hu; cbn in *.
        -- congruence.
        -- apply Hnth; assumption.
      * intros Hlt. rewrite Hbad by lia. reflexivity.
Qed.

(** X5.  The constructor pairs the nominal states with the nominal controls
    by index.  Given at least as many controls as states it builds one
    linear system per state, [lss_[i]] from [nominalXs[i]] and
    [nominalUs[i]], ignores the controls beyond, copies the goal, and sets
    [tries_ = 0] and [maxExecTime_] to three times the number of states;
    given fewer controls than states it reads [nominalUs] out of range. *)
Theorem mkController_pairs_by_index
    (goal : State) (nominalXs : list State) (nominalUs : list Control) :
  ((length nominalXs <= length nominalUs)%nat ->
   exists c,
     mkController goal nominalXs nominalUs = Ret c /\
     Length c = Z.of_nat (length nominalXs) /\
     (forall i x u, nth_error nominalXs i = Some x -> nth_error nominalUs i = Some u ->
                    lssAt c (Z.of_nat i) = Some (LinearSystemAt x u)) /\
     goal_ c = goal /\ tries_ c = 0 /\
     (maxExecTime_ c == 3 * inject_Z (Z.of_nat (length nominalXs)))%Q) /\
  ((length nominalUs < length nominalXs)%nat ->
   mkController goal nominalXs nominalUs = Undefined).
Proof.
  destruct (buildLinearSystems_spec nominalXs nominalUs) as [Hok Hbad].
  unfold mkController. split.
  - intros Hle. destruct (Hok Hle) as (l & Hl & Hlen & Hnth). rewrite Hl.
    eexists. split; [reflexivity |]. unfold Length, lssAt. cbn [lss_ goal_ tries_ maxExecTime_].
    split; [rewrite Hlen; reflexivity |].
    split.
    { intros i x u Hx Hu. rewrite Nat2Z.id. apply Hnth; assumption. }
    split; [reflexivity |]. split; [reflexivity |].
    rewrite inject_Z_mult. ring.
  - intros Hlt. rewrite (Hbad Hlt). reflexivity.
Qed.


(** *** [Stabilize] *)

Section Stabilization.
Variable isReached : State -> State -> bool.

Lemma tries_below_maxTries (tries : Z) :
  Qltb (inject_Z tries) (maxTries_ th) = true <-> tries < Qceiling (maxTries_ th).
Proof.
  unfold Qltb. rewrite negb_true_iff. split.
  - intros H.
    assert (Hlt : (inject_Z tries < maxTries_ th)%Q).
    { apply Qnot_le_lt. intros Hle. apply Qle_bool_iff in Hle. congruence. }
    pose proof (Qle_ceiling (maxTries_ th)) as Hc.
    assert (Hz : (inject_Z tries < inject_Z (Qceiling (maxTries_ th)))%Q)
      by (eapply Qlt_le_trans; eassumption).
    rewrite <- Zlt_Qlt in Hz. exact Hz.
  - intros H.
    destruct (Qle_bool (maxTries_ th) (inject_Z tries)) eqn:Hb; [| reflexivity].
    apply Qle_bool_iff in Hb. exfalso.
    pose proof (Qceiling_lt (maxTries_ th)) as Hc.
    assert (Hz : (inject_Z (Qceiling (maxTries_ th) - 1) < inject_Z tries)%Q)
      by (eapply Qlt_le_trans; eassumption).
    rewrite <- Zlt_Qlt in Hz. lia.
Qed.

Lemma Stabilize_loop_spec (fuel : nat) :
  forall (c : ControllerT) (mode : bool) (k : Z) (t : State) (steps : Z) (cost : Q)
         (tries : Z) (s : Sim),
    0 <= steps <= tries ->
    Qceiling (maxTries_ th) <= INT_MAX ->
    (Z.to_nat (Qceiling (maxTries_ th) - tries) <= fuel)%nat ->
    exists (t' : State) (cost' : Q) (steps' : Z) (s' : Sim) (extra : list Event),
      Stabilize_loop th isReached fuel c mode k t t steps cost tries s
      = (Ret (t', cost', steps'), s') /\
      steps <= steps' /\
      steps' - steps <= Z.max 0 (Qceiling (maxTries_ th) - tries) /\
      (isReached (goal_ c) t' = true \/
       steps' - steps = Z.max 0 (Qceiling (maxTries_ th) - tries)) /\
      (steps' = steps -> t' = t /\ cost' = cost /\ s' = s) /\
      events s' = events s ++ extra /\
      countEvolve extra = Z.to_nat (steps' - steps) /\
      countSleep extra = (if mode then 0%nat else Z.to_nat (steps' - steps)) /\
      countValidity extra = 0%nat /\
      Forall (fun e => forall i cur nxt, e = EvFilter i cur nxt -> i = to_size_t k) extra.
Proof.
  induction fuel as [| fuel IH]; intros c mode k t steps cost tries s Hst HN Hfuel.
  - cbn [Stabilize_loop].
    destruct (isReached (goal_ c) t) eqn:Hr; cbn [negb andb].
    + exists t, cost, steps, s, []. rewrite app_nil_r, Z.sub_diag.
      repeat split; try reflexivity; try lia; auto.
      destruct mode; reflexivity.
    + destruct (Qltb (inject_Z tries) (maxTries_ th)) eqn:Hlt.
      * apply tries_below_maxTries in Hlt. lia.
      * exists t, cost, steps, s, []. rewrite app_nil_r, Z.sub_diag.
        assert (Hge : Qceiling (maxTries_ th) <= tries).
        { destruct (Z_lt_le_dec tries (Qceiling (maxTries_ th))) as [Hl | Hl]; [| exact Hl].
          apply tries_below_maxTries in Hl. congruence. }
        repeat split; try reflexivity; try lia; auto.
        destruct mode; reflexivity.
  - cbn [Stabilize_loop].
    destruct (isReached (goal_ c) t) eqn:Hr; cbn [negb andb].
    + exists t, cost, steps, s, []. rewrite app_nil_r, Z.sub_diag.
      repeat split; try reflexivity; try lia; auto.
      destruct mode; reflexivity.
    + destruct (Qltb (inject_Z tries) (maxTries_ th)) eqn:Hlt.
      * apply tries_below_maxTries in Hlt.
        destruct (Evolve_events c t (to_size_t k) s) as (cur & nxt & Hev).
        destruct (Evolve c t (to_size_t k) s) as [t2 s1]. cbn [snd] in Hev.
        replace (steps =? INT_MAX) with false by (symmetry; apply Z.eqb_neq; lia).
        replace (tries =? INT_MAX) with false by (symmetry; apply Z.eqb_neq; lia).
        cbn [orb].
        set (s2 := if mode then s1 else emit EvSleep s1).
        destruct (IH c mode k t2 (steps + 1) (cost + traceCovariance t2)%Q (tries + 1) s2)
          as (t' & cost' & steps' & s' & extra & Hrun & H1 & H2 & H3 & H4 & H5 & H6 & H7 & H8 & H9);
          [lia | exact HN | lia |].
        exists t', cost', steps', s',
          ((EvFilter (to_size_t k) cur nxt :: (if mode then [] else [EvSleep])) ++ extra).
        split; [exact Hrun |].
        split; [lia |]. split; [lia |].
        split. { destruct H3 as [H3 | H3]; [left; exact H3 | right; lia]. }
        split; [intros Heq; lia |].
        split.
        { rewrite H5. subst s2. destruct mode; unfold emit; cbn [events];
            rewrite Hev, <- !app_assoc; reflexivity. }
        split.
        { rewrite countEvolve_app, H6.
          replace (steps' - steps) with (1 + (steps' - (steps + 1))) by lia.
          rewrite Z2Nat.inj_add by lia. destruct mode; reflexivity. }
        split.
        { rewrite countSleep_app, H7. destruct mode; [reflexivity |].
          replace (steps' - steps) with (1 + (steps' - (steps + 1))) by lia.
          rewrite Z2Nat.inj_add by lia. reflexivity. }
        split.
        { rewrite countValidity_app, H8. destruct mode; reflexivity. }
        apply Forall_app. split; [| exact H9].
        constructor.
        { intros i cur0 nxt0 Heq. injection Heq as <- _ _. reflexivity. }
        destruct mode; [constructor |]. constructor; [| constructor].
        intros i cur0 nxt0 Heq. discriminate.
      * exists t, cost, steps, s, []. rewrite app_nil_r, Z.sub_diag.
        assert (Hge : Qceiling (maxTries_ th) <= tries).
        { destruct (Z_lt_le_dec tries (Qceiling (maxTries_ th))) as [Hl | Hl]; [| exact Hl].
          apply tries_below_maxTries in Hl. congruence. }
        repeat split; try reflexivity; try lia; auto.
        destruct mode; reflexivity.
Qed.

Lemma stabilize_index (c : ControllerT) :
  1 <= Length c <= 2 ^ 31 ->
  to_size_t (to_int (to_size_t (Length c - 1))) = Length c - 1.
Proof.
  intros H. unfold to_size_t, to_int.
  rewrite (Z.mod_small (Length c - 1)) by lia.
  rewrite (Z.mod_small (Length c - 1 + 2 ^ 31)) by lia.
  rewrite Z.mod_small by lia. lia.
Qed.

(** X6.  [Stabilize] is bounded by [maxTries_].  Started with
    [0 <= tries_] and [maxTries_] within the range of an [int], it returns
    after at most ceil(maxTries_) - tries_ iterations (none at all with the
    initial [maxTries_ = -1], or from a belief the goal counts as reached):
    in that case the end state is the start state, the cost is 0 and
    nothing was executed.  Each iteration is one [Evolve] at the step index
    [lss_.size()-1], with no true-state validity check, and one pause of
    20 ms outside the construction mode.  On return either the goal counts
    the end state as reached or the bound was exhausted, and [tries_] is
    0 again. *)
Theorem Stabilize_bounded_by_maxTries
    (fuel : nat) (c : ControllerT) (start : State) (mode : bool) (s : Sim) :
  0 <= tries_ c ->
  Qceiling (maxTries_ th) <= INT_MAX ->
  let bound := Z.max 0 (Qceiling (maxTries_ th) - tries_ c) in
  (Z.to_nat bound <= fuel)%nat ->
  exists (out : StabilizeOut) (s' : Sim) (extra : list Event),
    Stabilize th isReached fuel c start mode s = (Ret out, s') /\
    0 <= sb_stepsToStabilize out <= bound /\
    (isReached (goal_ c) (sb_endState out) = true \/ sb_stepsToStabilize out = bound) /\
    (sb_stepsToStabilize out = 0 ->
       sb_endState out = start /\ sb_stabilizationFilteringCost out = 0%Q /\ s' = s) /\
    sb_tries out = 0 /\
    events s' = events s ++ extra /\
    countEvolve extra = Z.to_nat (sb_stepsToStabilize out) /\
    countSleep extra = (if mode then 0%nat else Z.to_nat (sb_stepsToStabilize out)) /\
    countValidity extra = 0%nat /\
    Forall (fun e => forall i cur nxt, e = EvFilter i cur nxt ->
                       i = to_size_t (to_int (to_size_t (Length c - 1)))) extra /\
    (1 <= Length c <= 2 ^ 31 ->
       to_size_t (to_int (to_size_t (Length c - 1))) = Length c - 1).
Proof.
  intros Htries HN bound Hfuel. unfold Stabilize.
  destruct (Stabilize_loop_spec fuel c mode (to_int (to_size_t (Length c - 1))) start
              0 0%Q (tries_ c) s ltac:(lia) HN ltac:(lia))
    as (t' & cost' & steps' & s' & extra & Hrun & H1 & H2 & H3 & H4 & H5 & H6 & H7 & H8 & H9).
  rewrite Hrun. rewrite Z.sub_0_r in *.
  eexists. exists s', extra. split; [reflexivity |].
  cbn [sb_endState sb_stabilizationFilteringCost sb_stepsToStabilize sb_tries].
  split; [fold bound in H2; lia |].
  split; [exact H3 |].
  split; [exact H4 |].
  split; [reflexivity |].
  split; [exact H5 |]. split; [exact H6 |]. split; [exact H7 |]. split; [exact H8 |].
  split; [exact H9 |].
  apply stabilize_index.
Qed.

End Stabilization.

End General.

Section LineWorldRuns.
Import LineWorld LineGoal.


Lemma Execute_failure_reports_nothing_witness :
  exists (out : @ExecuteOut (unitSpace 1)) (s' : @Sim (unitSpace 1)),
    Execute lineThresholds 5 (unitController 1) (0%Q, 4%Q) (7 # 1)%Q 11 13 true
      (startSim (unitSpace 1) 0%Q) = (Ret out, s') /\
    ex_ok out = false /\
    ex_filteringCost out = (7 # 1)%Q /\ ex_stepsTaken out = 11 /\ ex_timeToStop out = 13.
Proof.
  assert (Hret : exists out s',
            Execute lineThresholds 5 (unitController 1) (0%Q, 4%Q) (7 # 1)%Q 11 13 true
              (startSim (unitSpace 1) 0%Q) = (Ret out, s') /\ ex_ok out = false).
  { eexists. eexists. split; [vm_compute; reflexivity | reflexivity]. }
  destruct Hret as (out & s' & Hrun & Hok).
  destruct (Execute_failure_reports_nothing lineThresholds 5 (unitController 1) (0%Q, 4%Q)
              (7 # 1)%Q 11 13 true (startSim (unitSpace 1) 0%Q) s' out Hrun Hok)
    as (H1 & H2 & H3).
  exists out, s'. repeat split; assumption.
Defined.

Lemma executeUpto_step_accounting_witness :
  exists (out : @UptoOut (unitSpace 2)) (s' : @Sim (unitSpace 2)),
    executeUpto lineThresholds (unitController 2) 3 (0%Q, 4%Q) (9%Q, 9%Q) 0%Q 17 false
      (startSim (unitSpace 2) 0%Q) = (Ret out, s') /\
    up_ok out = false /\
    up_stepsTaken out = 17 /\
    (0 < countEvolve (events s') <= 3)%nat.
Proof.
  assert (Hret : exists out s',
            executeUpto lineThresholds (unitController 2) 3 (0%Q, 4%Q) (9%Q, 9%Q) 0%Q 17
              false (startSim (unitSpace 2) 0%Q) = (Ret out, s') /\ up_ok out = false).
  { eexists. eexists. split; [vm_compute; reflexivity | reflexivity]. }
  destruct Hret as (out & s' & Hrun & Hok).
  destruct (executeUpto_step_accounting lineThresholds (unitController 2) 3 (0%Q, 4%Q)
              (9%Q, 9%Q) 0%Q 17 false (startSim (unitSpace 2) 0%Q) s' out Hrun)
    as (_ & _ & Hfail).
  destruct (Hfail Hok) as [H1 H2].
  exists out, s'. split; [exact Hrun |]. split; [exact Hok |]. split; [exact H1 |].
  exact H2.
Defined.

Lemma Stabilize_bounded_by_maxTries_witness :
  exists (out : @StabilizeOut (unitSpace 100)) (s' : @Sim (unitSpace 100)),
    Stabilize lineThresholds (lineIsReached (unitSpace 100) fst) 10 (unitController 100)
      (0%Q, 4%Q) false (startSim (unitSpace 100) 0%Q) = (Ret out, s') /\
    0 <= sb_stepsToStabilize out <= 10 /\
    sb_tries out = 0 /\
    countEvolve (events s') = Z.to_nat (sb_stepsToStabilize out) /\
    countValidity (events s') = 0%nat.
Proof.
  destruct (Stabilize_bounded_by_maxTries lineThresholds
              (lineIsReached (unitSpace 100) fst) 10 (unitController 100) (0%Q, 4%Q) false
              (startSim (unitSpace 100) 0%Q))
    as (out & s' & extra & Hrun & Hb & _ & _ & Ht & Hev & Hce & _ & Hcv & _).
  - vm_compute. discriminate.
  - vm_compute. discriminate.
  - vm_compute. lia.
  - exists out, s'. split; [exact Hrun |]. split; [exact Hb |]. split; [exact Ht |].
    rewrite Hev. cbn [startSim simAt events app]. split; assumption.
Defined.

End LineWorldRuns.
End ExecutionProps.

(* ===================================================================== *)
(** * Invariants of the belief-tree search *)
(* ===================================================================== *)

Module SearchProps.
Import FIRMCP FIRMCPExt FIRMCPProps.

Section Respects.
Context {E : Env}.
Variable cfg : Config.
Variable R : Planner -> Planner -> Prop.
Hypothesis R_refl : forall p, R p p.
Hypothesis R_trans : forall p1 p2 p3, R p1 p2 -> R p2 p3 -> R p1 p3.

Lemma respects_ret {A : Type} (a : A) : respects R (ret a).
Proof. intros p a' p' H. injection H as <- <-. apply R_refl. Qed.

Lemma respects_bind {A B : Type} (m : PM A) (k : A -> PM B) :
  respects R m -> (forall a, respects R (k a)) -> respects R (bind m k).
Proof.
  intros Hm Hk p b p' H. unfold bind in H.
  destruct (m p) as [[a p1] | | |] eqn:Hmp; try discriminate.
  eapply R_trans; [eapply Hm; exact Hmp | eapply Hk; exact H].
Qed.

Lemma respects_getNode (v : Vertex) : respects R (getNode v).
Proof.
  intros p a p' H. unfold getNode in H.
  destruct (stateProperty_ p !! v); [| discriminate].
  injection H as <- <-. apply R_refl.
Qed.

Lemma respects_boostEdge (u v : Vertex) : respects R (boostEdge u v).
Proof.
  intros p a p' H. unfold boostEdge in H.
  destruct (List.find _ (edges p)); [| discriminate].
  injection H as <- <-. apply R_refl.
Qed.

Lemma respects_undefined {A : Type} : respects R (@undefined E A).
Proof. intros p a p' H. discriminate. Qed.

Lemma respects_exited {A : Type} : respects R (@exited E A).
Proof. intros p a p' H. discriminate. Qed.

Lemma respects_outOfFuel {A : Type} : respects R (@outOfFuel E A).
Proof. intros p a p' H. discriminate. Qed.

Hypothesis R_hidden : forall p h, R p (withHidden h p).

Lemma respects_onHidden {A : Type} (f : Hidden -> A * Hidden) : respects R (onHidden f).
Proof.
  intros p a p' H. unfold onHidden in H.
  destruct (f (hidden p)) as [a0 h]. injection H as <- <-. apply R_hidden.
Qed.

Lemma respects_pickMinQcosttogoNode (l : list Vertex) :
  respects R (pickMinQcosttogoNode l).
Proof.
  destruct l as [| a [| b l]].
  - apply respects_undefined.
  - apply respects_ret.
  - cbn [pickMinQcosttogoNode]. apply respects_bind; [apply respects_onHidden |].
    intros r. apply respects_ret.
Qed.

Lemma respects_simulateActionExecution (v : Vertex) (d : Z) (e : Edge) :
  respects R (simulateActionExecution cfg v d e).
Proof.
  unfold simulateActionExecution. apply respects_bind; [apply respects_getNode |].
  intros cn p a p' H.
  destruct (edgeControllers_ p !! e) as [ec |]; [| discriminate].
  destruct (executeSimulationFromUpto _ _ _ _ _ _) as [[[ok nb] cost] h].
  injection H as <- <-. apply R_hidden.
Qed.

Hypothesis R_terminal : forall v j, respects R (terminalBackup v j).
Hypothesis R_backup :
  forall isNew ok cost j v q, respects R (rolloutBackup cfg isNew ok cost j v q).
Hypothesis R_expand :
  forall m b, respects R (expandQnodesOnPOMCPTreeWithApproxCostToGo cfg m b).
Hypothesis R_resolve : forall v q b, respects R (resolveChildQVnode v q b).

Lemma respects_stop (v : Vertex) (j : Q) :
  respects R (bind (terminalBackup v j) (fun j => ret (Stop j))).
Proof. apply respects_bind; [apply R_terminal | intros; apply respects_ret]. Qed.

Lemma respects_simulateAtHorizon (v : Vertex) (d : Z) (e : Edge) :
  respects R (simulateAtHorizon cfg v d e).
Proof.
  unfold simulateAtHorizon.
  destruct (d >=? maxFIRMReachDepth_ cfg); [apply respects_stop |].
  apply respects_bind; [apply respects_getNode |]. intros tn.
  apply respects_bind; [apply respects_getNode |]. intros cn.
  destruct (isReached _ _); [apply respects_stop |].
  destruct (existsb _ _); [apply respects_ret | apply respects_stop].
Qed.

Lemma respects_selectGreedyUCB (v : Vertex) : respects R (selectGreedyUCB cfg v).
Proof.
  unfold selectGreedyUCB.
  apply respects_bind; [apply respects_getNode |]. intros n.
  destruct (collectMinQcosttogoNodes _ _ _ _) as [m acc].
  apply respects_bind; [apply respects_pickMinQcosttogoNode |]. intros q.
  apply respects_bind; [apply respects_boostEdge |]. intros e0.
  apply respects_ret.
Qed.

Lemma respects_simulateSelection (v : Vertex) (d : Z) (e : Edge) :
  respects R (simulateSelection cfg v d e).
Proof.
  unfold simulateSelection.
  destruct (d >=? maxPOMCPDepth_ cfg); [apply respects_simulateAtHorizon |].
  apply respects_bind; [apply respects_selectGreedyUCB | intros; apply respects_ret].
Qed.

Lemma respects_checkReachedWithinNEps (cn : QVNode) :
  respects R (checkReachedWithinNEps cfg cn).
Proof.
  unfold checkReachedWithinNEps. destruct (childQnodes cn); [apply respects_ret |].
  apply respects_bind; [apply respects_getNode | intros; apply respects_ret].
Qed.

Lemma respects_selectRolloutAction (v : Vertex) : respects R (selectRolloutAction cfg v).
Proof.
  unfold selectRolloutAction.
  apply respects_bind; [apply respects_getNode |]. intros cn.
  apply respects_bind; [apply respects_checkReachedWithinNEps |]. intros b.
  destruct (accumulateWeights _ _ _ _ _) as [ws wsum].
  apply respects_bind; [apply respects_onHidden |]. intros w.
  destruct (findSection _ _ _) as [j |]; [| apply respects_undefined].
  destruct (nth_error _ _) as [q |]; [| apply respects_undefined].
  apply respects_bind; [apply respects_boostEdge | intros; apply respects_ret].
Qed.

Lemma respects_expandIfNeeded (v : Vertex) (b : bool) : respects R (expandIfNeeded cfg v b).
Proof.
  unfold expandIfNeeded.
  apply respects_bind; [apply respects_getNode |]. intros cn.
  destruct (negb _); [apply R_expand | apply respects_ret].
Qed.

Lemma respects_rolloutSelection (v : Vertex) (d : Z) (e : Edge) (b : bool) :
  respects R (rolloutSelection cfg v d e b).
Proof.
  unfold rolloutSelection.
  destruct (d >=? maxPOMCPDepth_ cfg).
  - destruct (d >=? maxFIRMReachDepth_ cfg); [apply respects_stop |].
    apply respects_bind; [apply respects_expandIfNeeded |]. intros ex.
    destruct (negb ex); [apply respects_stop |].
    apply respects_bind; [apply respects_getNode |]. intros tn.
    apply respects_bind; [apply respects_getNode |]. intros cn.
    destruct (isReached _ _); [apply respects_stop |].
    destruct (existsb _ _); [apply respects_ret | apply respects_stop].
  - apply respects_bind; [apply respects_expandIfNeeded |]. intros ex.
    destruct (negb ex); [apply respects_stop |].
    apply respects_bind; [apply respects_selectRolloutAction | intros; apply respects_ret].
Qed.

Lemma respects_descend (recurse : Vertex -> Z -> Edge -> PM Q)
    (backup : bool -> Q -> Q -> Vertex -> Vertex -> PM Q)
    (v : Vertex) (d : Z) (q : Vertex) (e : Edge) :
  (forall v' d' e', respects R (recurse v' d' e')) ->
  (forall ok cost j v' q', respects R (backup ok cost j v' q')) ->
  respects R (descend cfg recurse backup v d q e).
Proof.
  intros Hrec Hback. unfold descend.
  apply respects_bind; [apply respects_simulateActionExecution |].
  intros [[ok nb] cost].
  apply respects_bind; [apply R_resolve |]. intros nv.
  apply respects_bind; [| intros; apply Hback].
  destruct ok; [apply Hrec | apply respects_ret].
Qed.

Lemma respects_pomcpRollout (fuel : nat) :
  forall v d e b, respects R (pomcpRollout cfg fuel v d e b).
Proof.
  induction fuel as [| fuel IH]; intros v d e b; [apply respects_outOfFuel |].
  cbn [pomcpRollout].
  apply respects_bind; [apply respects_rolloutSelection |].
  intros [j | q e0]; [apply respects_ret |].
  apply respects_descend.
  - intros v' d' e'. apply IH.
  - intros. apply R_backup.
Qed.

Lemma respects_pomcpSimulate (fuel : nat) :
  forall v d e, respects R (pomcpSimulate cfg fuel v d e).
Proof.
  induction fuel as [| fuel IH]; intros v d e; [apply respects_outOfFuel |].
  cbn [pomcpSimulate].
  apply respects_bind; [apply respects_getNode |]. intros cn.
  destruct (negb (childQexpanded cn)).
  - apply respects_bind; [apply respects_pomcpRollout | intros; apply respects_ret].
  - apply respects_bind; [apply respects_simulateSelection |].
    intros [j | q e0]; [apply respects_ret |].
    apply respects_descend.
    + apply IH.
    + intros. rewrite simulateBackup_is_rolloutBackup. apply R_backup.
Qed.

Lemma respects_particleLoop (fuel particles : nat) (v : Vertex) :
  respects R (particleLoop cfg fuel particles v).
Proof.
  induction particles as [| n IH]; [apply respects_ret |].
  cbn [particleLoop].
  apply respects_bind; [apply respects_getNode |]. intros cn.
  apply respects_bind; [apply respects_onHidden |].
  intros [t |]; [| exact IH].
  apply respects_bind; [apply respects_onHidden |]. intros _.
  apply respects_bind; [apply respects_pomcpSimulate |]. intros _. exact IH.
Qed.

Lemma respects_generatePOMCPPolicy (fuel : nat) (v goal : Vertex) :
  respects R (generatePOMCPPolicy cfg fuel v goal).
Proof.
  unfold generatePOMCPPolicy.
  apply respects_bind; [apply respects_onHidden |]. intros t.
  apply respects_bind; [apply respects_particleLoop |]. intros _.
  apply respects_bind; [apply respects_getNode |]. intros cn.
  destruct (collectMinQcosttogoNodes _ _ _ _) as [m acc].
  apply respects_bind; [apply respects_pickMinQcosttogoNode |]. intros q.
  apply respects_bind; [apply respects_boostEdge |]. intros e.
  apply respects_bind; [apply respects_onHidden |]. intros _.
  apply respects_ret.
Qed.

End Respects.


(** ** The search only grows the tree *)

Section Growth.
Context {E : Env}.
Variable cfg : Config.

(** Growth, together with the preservation of well-formedness. *)
Lemma grows_refl (p : Planner) : grows p p.
Proof.
  unfold grows. repeat split; auto.
  exists []. split; [rewrite app_nil_r; reflexivity | intros e []].
Qed.

Lemma grows_trans (p1 p2 p3 : Planner) : grows p1 p2 -> grows p2 p3 -> grows p1 p3.
Proof.
  intros (A1 & A2 & A3 & A4 & (m1 & A5 & A5') & A6) (B1 & B2 & B3 & B4 & (m2 & B5 & B5') & B6).
  unfold grows. split; [auto |]. split.
  { intros v Hv Hn. apply B2; [lia | apply A2; assumption]. }
  split; [lia |]. split; [lia |]. split.
  { exists (m1 ++ m2). split; [rewrite B5, A5, app_assoc; reflexivity |].
    intros e He. apply in_app_or in He. destruct He as [He | He].
    - apply A5'. exact He.
    - specialize (B5' e He). lia. }
  intros e He. rewrite B6 by lia. apply A6. exact He.
Qed.

Lemma growsWell_refl (p : Planner) : growsWell p p.
Proof. split; [apply grows_refl | auto]. Qed.

Lemma growsWell_trans (p1 p2 p3 : Planner) : growsWell p1 p2 -> growsWell p2 p3 -> growsWell p1 p3.
Proof.
  intros [G1 W1] [G2 W2]. split; [eapply grows_trans; eassumption | auto].
Qed.

Lemma growsWell_bind {A B : Type} (m : PM A) (k : A -> PM B) :
  respects growsWell m -> (forall a, respects growsWell (k a)) -> respects growsWell (bind m k).
Proof. apply respects_bind. exact growsWell_trans. Qed.

Lemma growsWell_ret {A : Type} (a : A) : respects growsWell (ret a).
Proof. apply respects_ret. exact growsWell_refl. Qed.

Lemma growsWell_getNode (v : Vertex) : respects growsWell (getNode v).
Proof. apply respects_getNode. exact growsWell_refl. Qed.

Lemma growsWell_hidden (p : Planner) (h : Hidden) : growsWell p (withHidden h p).
Proof.
  split.
  - unfold grows, withHidden. cbn. repeat split; auto.
    exists []. split; [rewrite app_nil_r; reflexivity | intros e []].
  - intros H. exact H.
Qed.

Lemma growsWell_setNode (v : Vertex) (n n' : QVNode) (p : Planner) :
  stateProperty_ p !! v = Some n -> growsWell p (setNode v n' p).
Proof.
  intros Hlive. split.
  - unfold grows, setNode, withStates. cbn [stateProperty_ numVertices edges
      edgeControllers_ maxEdgeID_].
    split.
    { intros w Hw. destruct (decide (v = w)) as [-> | Hne].
      - rewrite lookup_insert_eq. eauto.
      - rewrite lookup_insert_ne by exact Hne. exact Hw. }
    split.
    { intros w _ Hw. rewrite lookup_insert_ne; [exact Hw |]. intros ->. congruence. }
    repeat split; auto.
    exists []. split; [rewrite app_nil_r; reflexivity | intros e []].
  - intros (W1 & W2 & W3 & W4). unfold wellFormed, setNode, withStates.
    cbn [stateProperty_ numVertices edges edgeControllers_ maxEdgeID_].
    split; [| auto].
    intros w Hw. destruct (decide (v = w)) as [<- | Hne].
    + apply W1. rewrite Hlive. eauto.
    + rewrite lookup_insert_ne in Hw by exact Hne. apply W1. exact Hw.
Qed.

Lemma respects_modifyNode (R : Planner -> Planner -> Prop) (v : Vertex)
    (f : QVNode -> QVNode) :
  (forall p n, stateProperty_ p !! v = Some n -> R p (setNode v (f n) p)) ->
  respects R (modifyNode v f).
Proof.
  intros H p a p' Hrun. unfold modifyNode in Hrun.
  destruct (stateProperty_ p !! v) as [n |] eqn:Hn; [| discriminate].
  injection Hrun as <- <-. apply (H p n Hn).
Qed.

Lemma growsWell_modifyNode (v : Vertex) (f : QVNode -> QVNode) : respects growsWell (modifyNode v f).
Proof. apply respects_modifyNode. intros p n Hn. eapply growsWell_setNode. exact Hn. Qed.

Lemma growsWell_addQVnode (b : Belief) : respects growsWell (addQVnodeToPOMCPTree b).
Proof.
  intros p m p' H. unfold addQVnodeToPOMCPTree in H. injection H as <- <-.
  split.
  - unfold grows. cbn [stateProperty_ numVertices edges edgeControllers_ maxEdgeID_].
    split.
    { intros w Hw. destruct (decide (numVertices p = w)) as [<- | Hne].
      - rewrite lookup_insert_eq. eauto.
      - rewrite lookup_insert_ne by exact Hne. exact Hw. }
    split.
    { intros w Hlt Hw. rewrite lookup_insert_ne by lia. exact Hw. }
    repeat split; auto.
    exists []. split; [rewrite app_nil_r; reflexivity | intros e []].
  - intros (W1 & W2 & W3 & W4). unfold wellFormed.
    cbn [stateProperty_ numVertices edges edgeControllers_ maxEdgeID_].
    split; [| auto].
    intros w Hw. destruct (decide (numVertices p = w)) as [<- | Hne]; [lia |].
    rewrite lookup_insert_ne in Hw by exact Hne. specialize (W1 w Hw). lia.
Qed.

Lemma growsWell_addEdge (a b : Vertex) : respects growsWell (addEdgeToPOMCPTreeWithApproxCost a b).
Proof.
  unfold addEdgeToPOMCPTreeWithApproxCost.
  apply growsWell_bind; [apply growsWell_getNode |].
  intros an.
  apply growsWell_bind; [apply growsWell_getNode |].
  intros bn p c p' H. injection H as <- <-.
  split.
  - unfold grows. cbn [stateProperty_ numVertices edges edgeControllers_ maxEdgeID_].
    split; [auto |]. split; [auto |]. split; [lia |]. split; [lia |]. split.
    { eexists. split; [reflexivity |]. intros e [<- | []]. cbn. lia. }
    intros e He. apply lookup_insert_ne. intros <-. cbn in He. lia.
  - intros (W1 & W2 & W3 & W4). unfold wellFormed.
    cbn [stateProperty_ numVertices edges edgeControllers_ maxEdgeID_].
    split; [exact W1 |]. split.
    { intros e He. apply in_app_or in He. destruct He as [He | [<- | []]].
      - specialize (W2 e He). lia.
      - cbn. lia. }
    split.
    { intros e He. destruct (decide ((a, b, maxEdgeID_ p) = e)) as [<- | Hne].
      - cbn. lia.
      - rewrite lookup_insert_ne in He by exact Hne. specialize (W3 e He). lia. }
    rewrite List.map_app. cbn [List.map snd].
    apply NoDup_ListNoDup. apply NoDup_app.
    split; [apply NoDup_ListNoDup; exact W4 |].
    split; [| apply NoDup_singleton].
    intros x Hx Hx'. apply list_elem_of_singleton in Hx'. subst x.
    apply list_elem_of_In, in_map_iff in Hx. destruct Hx as (e & He1 & He2).
    specialize (W2 e He2). lia.
Qed.

Lemma growsWell_terminalBackup (v : Vertex) (j : Q) : respects growsWell (terminalBackup v j).
Proof.
  unfold terminalBackup.
  apply growsWell_bind; [apply growsWell_modifyNode |]. intros _.
  apply growsWell_bind; [apply growsWell_modifyNode |]. intros _.
  apply growsWell_ret.
Qed.

Lemma growsWell_backup (isNew ok : bool) (cost j : Q) (v q : Vertex) :
  respects growsWell (rolloutBackup cfg isNew ok cost j v q).
Proof.
  intros p J p' H.
  assert (Hlive : exists cn, stateProperty_ p !! v = Some cn).
  { unfold rolloutBackup in H. unfold bind at 1 in H. unfold modifyNode at 1 in H.
    destruct (stateProperty_ p !! v) as [cn |]; [eauto | discriminate]. }
  destruct Hlive as [cn Hcn].
  pose proof (rolloutBackup_run cfg isNew ok cost j v q p cn Hcn) as Hrun.
  cbv zeta in Hrun. rewrite Hrun in H. injection H as _ <-.
  eapply growsWell_setNode. exact Hcn.
Qed.

Lemma growsWell_expandNeighbors (m : Vertex) (l : list Vertex) :
  respects growsWell (expandNeighbors m l).
Proof.
  induction l as [| n l IH]; [apply growsWell_ret |].
  cbn [expandNeighbors].
  apply growsWell_bind; [| intros _; exact IH].
  destruct (Nat.eqb m n); [apply growsWell_ret |].
  apply growsWell_bind; [apply growsWell_getNode |].
  intros mn.
  apply growsWell_bind; [apply growsWell_getNode |].
  intros nn.
  destruct (checkMotion _ _); [| apply growsWell_ret].
  apply growsWell_bind; [apply growsWell_addEdge |]. intros c.
  apply growsWell_bind; [apply growsWell_modifyNode |]. intros _.
  apply growsWell_modifyNode.
Qed.

Lemma growsWell_expand (m : Vertex) (b : bool) :
  respects growsWell (expandQnodesOnPOMCPTreeWithApproxCostToGo cfg m b).
Proof.
  unfold expandQnodesOnPOMCPTreeWithApproxCostToGo.
  apply growsWell_bind; [apply growsWell_getNode |].
  intros mn.
  apply growsWell_bind; [|].
  { destruct (connectionStrategy_ _ _ _) as [| n [| n' l]];
      try (apply growsWell_ret).
    destruct (Nat.eqb m n); [apply respects_exited | apply growsWell_ret]. }
  intros _.
  apply growsWell_bind; [apply growsWell_expandNeighbors |].
  intros _.
  apply growsWell_bind; [apply growsWell_modifyNode |]. intros _.
  apply growsWell_ret.
Qed.

Lemma growsWell_resolve (v q : Vertex) (b : Belief) : respects growsWell (resolveChildQVnode v q b).
Proof.
  unfold resolveChildQVnode.
  apply growsWell_bind; [apply growsWell_getNode |].
  intros cn. destruct (getChildQVnode cn q) as [nv |].
  - apply growsWell_bind; [apply growsWell_modifyNode |].
    intros _. apply growsWell_ret.
  - apply growsWell_bind; [apply growsWell_addQVnode |].
    intros nv.
    apply growsWell_bind; [apply growsWell_modifyNode |].
    intros _. apply growsWell_ret.
Qed.



Lemma generatePOMCPPolicy_grows (fuel : nat) (v goal : Vertex) (p p' : Planner) (e : Edge) :
  generatePOMCPPolicy cfg fuel v goal p = Ret (e, p') ->
  grows p p' /\ (wellFormed p -> wellFormed p').
Proof.
  apply (respects_generatePOMCPPolicy cfg growsWell growsWell_refl growsWell_trans growsWell_hidden
           growsWell_terminalBackup growsWell_backup growsWell_expand growsWell_resolve).
Qed.


End Growth.


(** ** The counters stay consistent *)

Section Statistics.
Context {E : Env}.
Variable cfg : Config.

Lemma keepsStats_refl (p : Planner) : keepsStats p p.
Proof. intros H. exact H. Qed.

Lemma keepsStats_trans (p1 p2 p3 : Planner) : keepsStats p1 p2 -> keepsStats p2 p3 -> keepsStats p1 p3.
Proof. intros H1 H2 H. apply H2, H1, H. Qed.

Lemma keepsStats_bind {A B : Type} (m : PM A) (k : A -> PM B) :
  respects keepsStats m -> (forall a, respects keepsStats (k a)) -> respects keepsStats (bind m k).
Proof. apply respects_bind. exact keepsStats_trans. Qed.

Lemma keepsStats_ret {A : Type} (a : A) : respects keepsStats (ret a).
Proof. apply respects_ret. exact keepsStats_refl. Qed.

Lemma keepsStats_getNode (v : Vertex) : respects keepsStats (getNode v).
Proof. apply respects_getNode. exact keepsStats_refl. Qed.

Lemma keepsStats_hidden (p : Planner) (h : Hidden) : keepsStats p (withHidden h p).
Proof. intros H. exact H. Qed.

Lemma keepsStats_setNode (v : Vertex) (n n' : QVNode) (p : Planner) :
  stateProperty_ p !! v = Some n -> (statsOK n -> statsOK n') -> keepsStats p (setNode v n' p).
Proof.
  intros Hlive Hn Hall w m Hw. unfold setNode, withStates in Hw. cbn [stateProperty_] in Hw.
  destruct (decide (v = w)) as [<- | Hne].
  - rewrite lookup_insert_eq in Hw. injection Hw as <-. apply Hn. eapply Hall. exact Hlive.
  - rewrite lookup_insert_ne in Hw by exact Hne. eapply Hall. exact Hw.
Qed.

Lemma keepsStats_modifyNode (v : Vertex) (f : QVNode -> QVNode) :
  (forall n, statsOK n -> statsOK (f n)) -> respects keepsStats (modifyNode v f).
Proof.
  intros Hf. apply respects_modifyNode. intros p n Hn.
  eapply keepsStats_setNode; [exact Hn | apply Hf].
Qed.

Lemma statsOK_freshNode (b : Belief) : statsOK (freshNode b).
Proof. intros q. unfold getChildQmiss, getChildQvisit. cbn. rewrite !lookup_empty. cbn. lia. Qed.

Lemma statsOK_addThisQVvisit (n : QVNode) : statsOK n -> statsOK (addThisQVvisit n).
Proof.
  intros H q. specialize (H q).
  unfold getChildQmiss, getChildQvisit in *. cbn [addThisQVvisit childQmisses childQvisits
    thisQVvisit]. lia.
Qed.

Lemma statsOK_same (n n' : QVNode) :
  childQvisits n' = childQvisits n -> childQmisses n' = childQmisses n ->
  thisQVvisit n' = thisQVvisit n -> statsOK n -> statsOK n'.
Proof.
  intros Hv Hm Ht H q. specialize (H q).
  unfold getChildQmiss, getChildQvisit in *. rewrite Hv, Hm, Ht. exact H.
Qed.

Lemma keepsStats_addQVnode (b : Belief) : respects keepsStats (addQVnodeToPOMCPTree b).
Proof.
  intros p m p' H. unfold addQVnodeToPOMCPTree in H. injection H as <- <-.
  intros Hall w n Hw. cbn [stateProperty_] in Hw.
  destruct (decide (numVertices p = w)) as [<- | Hne].
  - rewrite lookup_insert_eq in Hw. injection Hw as <-. apply statsOK_freshNode.
  - rewrite lookup_insert_ne in Hw by exact Hne. eapply Hall. exact Hw.
Qed.

Lemma keepsStats_addEdge (a b : Vertex) : respects keepsStats (addEdgeToPOMCPTreeWithApproxCost a b).
Proof.
  unfold addEdgeToPOMCPTreeWithApproxCost.
  apply keepsStats_bind; [apply keepsStats_getNode |]. intros an.
  apply keepsStats_bind; [apply keepsStats_getNode |]. intros bn.
  intros p c p' H. injection H as <- <-. intros Hall. exact Hall.
Qed.

Lemma keepsStats_terminalBackup (v : Vertex) (j : Q) : respects keepsStats (terminalBackup v j).
Proof.
  unfold terminalBackup.
  apply keepsStats_bind; [apply keepsStats_modifyNode, statsOK_addThisQVvisit |]. intros _.
  apply keepsStats_bind; [apply keepsStats_modifyNode |]; [| intros _; apply keepsStats_ret].
  intros n. apply statsOK_same; reflexivity.
Qed.

Lemma keepsStats_backup (isNew ok : bool) (cost j : Q) (v q : Vertex) :
  respects keepsStats (rolloutBackup cfg isNew ok cost j v q).
Proof.
  intros p J p' H.
  assert (Hlive : exists cn, stateProperty_ p !! v = Some cn).
  { unfold rolloutBackup in H. unfold bind at 1 in H. unfold modifyNode at 1 in H.
    destruct (stateProperty_ p !! v) as [cn |]; [eauto | discriminate]. }
  destruct Hlive as [cn Hcn].
  pose proof (rolloutBackup_run cfg isNew ok cost j v q p cn Hcn) as Hrun.
  cbv zeta in Hrun. rewrite Hrun in H. injection H as _ <-.
  eapply keepsStats_setNode; [exact Hcn |].
  intros Hn c. specialize (Hn c).
  unfold getChildQmiss, getChildQvisit in *.
  cbn [childQmisses childQvisits thisQVvisit].
  destruct (decide (q = c)) as [<- | Hne].
  - rewrite lookup_insert_eq.
    destruct ok; [| rewrite lookup_insert_eq]; cbn [default from_option id]; lia.
  - rewrite lookup_insert_ne by exact Hne.
    destruct ok; [| rewrite lookup_insert_ne by exact Hne]; lia.
Qed.

Lemma keepsStats_expandNeighbors (m : Vertex) (l : list Vertex) :
  respects keepsStats (expandNeighbors m l).
Proof.
  induction l as [| n l IH]; [apply keepsStats_ret |].
  cbn [expandNeighbors].
  apply keepsStats_bind; [| intros _; exact IH].
  destruct (Nat.eqb m n); [apply keepsStats_ret |].
  apply keepsStats_bind; [apply keepsStats_getNode |]. intros mn.
  apply keepsStats_bind; [apply keepsStats_getNode |]. intros nn.
  destruct (checkMotion _ _); [| apply keepsStats_ret].
  apply keepsStats_bind; [apply keepsStats_addEdge |]. intros c.
  apply keepsStats_bind; [apply keepsStats_modifyNode |]; [| intros _; apply keepsStats_modifyNode];
    intros x; apply statsOK_same; reflexivity.
Qed.

Lemma keepsStats_expand (m : Vertex) (b : bool) :
  respects keepsStats (expandQnodesOnPOMCPTreeWithApproxCostToGo cfg m b).
Proof.
  unfold expandQnodesOnPOMCPTreeWithApproxCostToGo.
  apply keepsStats_bind; [apply keepsStats_getNode |]. intros mn.
  apply keepsStats_bind.
  { destruct (connectionStrategy_ _ _ _) as [| n [| n' l]]; try apply keepsStats_ret.
    destruct (Nat.eqb m n); [apply respects_exited | apply keepsStats_ret]. }
  intros _.
  apply keepsStats_bind; [apply keepsStats_expandNeighbors |]. intros _.
  apply keepsStats_bind; [apply keepsStats_modifyNode |]; [| intros _; apply keepsStats_ret].
  intros x. apply statsOK_same; reflexivity.
Qed.

Lemma keepsStats_resolve (v q : Vertex) (b : Belief) : respects keepsStats (resolveChildQVnode v q b).
Proof.
  unfold resolveChildQVnode.
  apply keepsStats_bind; [apply keepsStats_getNode |]. intros cn.
  destruct (getChildQVnode cn q) as [nv |].
  - apply keepsStats_bind; [apply keepsStats_modifyNode |]; [| intros _; apply keepsStats_ret].
    intros x. apply statsOK_same; reflexivity.
  - apply keepsStats_bind; [apply keepsStats_addQVnode |]. intros nv.
    apply keepsStats_bind; [apply keepsStats_modifyNode |]; [| intros _; apply keepsStats_ret].
    intros x. apply statsOK_same; reflexivity.
Qed.

(** X8.  The visit and miss counters stay consistent through the search:
    if at every state object, for every action q, M(h,q) <= N(h,q) <= N(h)
    before [generatePOMCPPolicy], [pomcpSimulate] or [pomcpRollout] is
    called, then the same holds when the call returns, at every state
    object including those the call has created. *)
Theorem search_keeps_counters_consistent
    (fuel : nat) (v goal : Vertex) (d : Z) (ePrev : Edge) (isNew : bool)
    (p p' : Planner) :
  allStatsOK p ->
  (forall e, generatePOMCPPolicy cfg fuel v goal p = Ret (e, p') -> allStatsOK p') /\
  (forall J, pomcpSimulate cfg fuel v d ePrev p = Ret (J, p') -> allStatsOK p') /\
  (forall J, pomcpRollout cfg fuel v d ePrev isNew p = Ret (J, p') -> allStatsOK p').
Proof.
  intros Hall. split; [| split].
  - intros e H.
    apply (respects_generatePOMCPPolicy cfg keepsStats keepsStats_refl keepsStats_trans
             keepsStats_hidden keepsStats_terminalBackup keepsStats_backup keepsStats_expand
             keepsStats_resolve fuel v goal p e p' H Hall).
  - intros J H.
    apply (respects_pomcpSimulate cfg keepsStats keepsStats_refl keepsStats_trans
             keepsStats_hidden keepsStats_terminalBackup keepsStats_backup keepsStats_expand
             keepsStats_resolve fuel v d ePrev p J p' H Hall).
  - intros J H.
    apply (respects_pomcpRollout cfg keepsStats keepsStats_refl keepsStats_trans
             keepsStats_hidden keepsStats_terminalBackup keepsStats_backup keepsStats_expand
             keepsStats_resolve fuel v d ePrev isNew p J p' H Hall).
Qed.

End Statistics.


(** ** The recursion is bounded by the depth limits *)

Section Termination.
Context {E : Env}.
Variable cfg : Config.

Lemma withinFuel_ret {A : Type} (a : A) : withinFuel (ret a).
Proof. intros p. discriminate. Qed.

Lemma withinFuel_bind {A B : Type} (m : PM A) (k : A -> PM B) :
  withinFuel m -> (forall a, withinFuel (k a)) -> withinFuel (bind m k).
Proof.
  intros Hm Hk p. unfold bind. specialize (Hm p).
  destruct (m p) as [[a p1] | | |]; try discriminate; [apply Hk | congruence].
Qed.

Lemma withinFuel_getNode (v : Vertex) : withinFuel (getNode v).
Proof. intros p. unfold getNode. destruct (stateProperty_ p !! v); discriminate. Qed.

Lemma withinFuel_modifyNode (v : Vertex) (f : QVNode -> QVNode) : withinFuel (modifyNode v f).
Proof. intros p. unfold modifyNode. destruct (stateProperty_ p !! v); discriminate. Qed.

Lemma withinFuel_onHidden {A : Type} (f : Hidden -> A * Hidden) : withinFuel (onHidden f).
Proof. intros p. unfold onHidden. destruct (f (hidden p)). discriminate. Qed.

Lemma withinFuel_boostEdge (u v : Vertex) : withinFuel (boostEdge u v).
Proof. intros p. unfold boostEdge. destruct (List.find _ _); discriminate. Qed.

Lemma withinFuel_undefined {A : Type} : withinFuel (@undefined E A).
Proof. intros p. discriminate. Qed.

Lemma withinFuel_exited {A : Type} : withinFuel (@exited E A).
Proof. intros p. discriminate. Qed.

Create HintDb fuel.
#[local] Hint Resolve withinFuel_ret withinFuel_getNode withinFuel_modifyNode
  withinFuel_onHidden withinFuel_boostEdge withinFuel_undefined withinFuel_exited
  : fuel.

Ltac fuel_step :=
  first [ apply withinFuel_bind; [| intros ?] | solve [auto with fuel] ].

Lemma withinFuel_terminalBackup (v : Vertex) (j : Q) : withinFuel (terminalBackup v j).
Proof. unfold terminalBackup. repeat fuel_step. Qed.

Lemma withinFuel_stop (v : Vertex) (j : Q) :
  withinFuel (bind (terminalBackup v j) (fun j => ret (Stop j))).
Proof. apply withinFuel_bind; [apply withinFuel_terminalBackup | auto with fuel]. Qed.

Lemma withinFuel_rolloutBackup (isNew ok : bool) (cost j : Q) (v q : Vertex) :
  withinFuel (rolloutBackup cfg isNew ok cost j v q).
Proof.
  unfold rolloutBackup. repeat fuel_step.
  destruct (negb ok); auto with fuel.
Qed.

Lemma withinFuel_pickMinQcosttogoNode (l : list Vertex) : withinFuel (pickMinQcosttogoNode l).
Proof.
  destruct l as [| a [| b l]]; cbn [pickMinQcosttogoNode]; repeat fuel_step.
Qed.

Lemma withinFuel_selectGreedyUCB (v : Vertex) : withinFuel (selectGreedyUCB cfg v).
Proof.
  unfold selectGreedyUCB. apply withinFuel_bind; [auto with fuel |]. intros n.
  destruct (collectMinQcosttogoNodes _ _ _ _) as [m acc].
  apply withinFuel_bind; [apply withinFuel_pickMinQcosttogoNode |]. intros q.
  repeat fuel_step.
Qed.

Lemma withinFuel_simulateAtHorizon (v : Vertex) (d : Z) (e : Edge) :
  withinFuel (simulateAtHorizon cfg v d e).
Proof.
  unfold simulateAtHorizon.
  destruct (d >=? maxFIRMReachDepth_ cfg); [apply withinFuel_stop |].
  apply withinFuel_bind; [auto with fuel |]. intros tn.
  apply withinFuel_bind; [auto with fuel |]. intros cn.
  destruct (isReached _ _); [apply withinFuel_stop |].
  destruct (existsb _ _); [auto with fuel | apply withinFuel_stop].
Qed.

Lemma withinFuel_simulateSelection (v : Vertex) (d : Z) (e : Edge) :
  withinFuel (simulateSelection cfg v d e).
Proof.
  unfold simulateSelection.
  destruct (d >=? maxPOMCPDepth_ cfg); [apply withinFuel_simulateAtHorizon |].
  apply withinFuel_bind; [apply withinFuel_selectGreedyUCB | auto with fuel].
Qed.

Lemma withinFuel_addEdge (a b : Vertex) : withinFuel (addEdgeToPOMCPTreeWithApproxCost a b).
Proof.
  unfold addEdgeToPOMCPTreeWithApproxCost.
  apply withinFuel_bind; [auto with fuel |]. intros an.
  apply withinFuel_bind; [auto with fuel |]. intros bn p. discriminate.
Qed.

Lemma withinFuel_expandNeighbors (m : Vertex) (l : list Vertex) :
  withinFuel (expandNeighbors m l).
Proof.
  induction l as [| n l IH]; [apply withinFuel_ret |].
  cbn [expandNeighbors]. apply withinFuel_bind; [| intros _; exact IH].
  destruct (Nat.eqb m n); [auto with fuel |].
  apply withinFuel_bind; [auto with fuel |]. intros mn.
  apply withinFuel_bind; [auto with fuel |]. intros nn.
  destruct (checkMotion _ _); [| auto with fuel].
  apply withinFuel_bind; [apply withinFuel_addEdge |]. intros c.
  repeat fuel_step.
Qed.

Lemma withinFuel_expand (m : Vertex) (b : bool) :
  withinFuel (expandQnodesOnPOMCPTreeWithApproxCostToGo cfg m b).
Proof.
  unfold expandQnodesOnPOMCPTreeWithApproxCostToGo.
  apply withinFuel_bind; [auto with fuel |]. intros mn.
  apply withinFuel_bind.
  { destruct (connectionStrategy_ _ _ _) as [| n [| n' l]]; auto with fuel.
    destruct (Nat.eqb m n); auto with fuel. }
  intros _. apply withinFuel_bind; [apply withinFuel_expandNeighbors |]. intros _.
  repeat fuel_step.
Qed.

Lemma withinFuel_expandIfNeeded (v : Vertex) (b : bool) :
  withinFuel (expandIfNeeded cfg v b).
Proof.
  unfold expandIfNeeded. apply withinFuel_bind; [auto with fuel |]. intros cn.
  destruct (negb _); [apply withinFuel_expand | auto with fuel].
Qed.

Lemma withinFuel_selectRolloutAction (v : Vertex) : withinFuel (selectRolloutAction cfg v).
Proof.
  unfold selectRolloutAction. apply withinFuel_bind; [auto with fuel |]. intros cn.
  apply withinFuel_bind.
  { unfold checkReachedWithinNEps. destruct (childQnodes cn); repeat fuel_step. }
  intros b. destruct (accumulateWeights _ _ _ _ _) as [ws wsum].
  apply withinFuel_bind; [auto with fuel |]. intros w.
  destruct (findSection _ _ _) as [j |]; [| auto with fuel].
  destruct (nth_error _ _) as [q |]; [| auto with fuel].
  repeat fuel_step.
Qed.

Lemma withinFuel_rolloutSelection (v : Vertex) (d : Z) (e : Edge) (b : bool) :
  withinFuel (rolloutSelection cfg v d e b).
Proof.
  unfold rolloutSelection.
  destruct (d >=? maxPOMCPDepth_ cfg).
  - destruct (d >=? maxFIRMReachDepth_ cfg); [apply withinFuel_stop |].
    apply withinFuel_bind; [apply withinFuel_expandIfNeeded |]. intros ex.
    destruct (negb ex); [apply withinFuel_stop |].
    apply withinFuel_bind; [auto with fuel |]. intros tn.
    apply withinFuel_bind; [auto with fuel |]. intros cn.
    destruct (isReached _ _); [apply withinFuel_stop |].
    destruct (existsb _ _); [auto with fuel | apply withinFuel_stop].
  - apply withinFuel_bind; [apply withinFuel_expandIfNeeded |]. intros ex.
    destruct (negb ex); [apply withinFuel_stop |].
    apply withinFuel_bind; [apply withinFuel_selectRolloutAction | auto with fuel].
Qed.

Lemma withinFuel_simulateActionExecution (v : Vertex) (d : Z) (e : Edge) :
  withinFuel (simulateActionExecution cfg v d e).
Proof.
  unfold simulateActionExecution. apply withinFuel_bind; [auto with fuel |].
  intros cn p. destruct (edgeControllers_ p !! e); [| discriminate].
  destruct (executeSimulationFromUpto _ _ _ _ _ _) as [[[ok nb] cost] h]. discriminate.
Qed.

Lemma withinFuel_resolve (v q : Vertex) (b : Belief) : withinFuel (resolveChildQVnode v q b).
Proof.
  unfold resolveChildQVnode. apply withinFuel_bind; [auto with fuel |]. intros cn.
  destruct (getChildQVnode cn q); [repeat fuel_step |].
  apply withinFuel_bind; [intros p; discriminate |]. intros nv. repeat fuel_step.
Qed.

Lemma withinFuel_descend (recurse : Vertex -> Z -> Edge -> PM Q)
    (backup : bool -> Q -> Q -> Vertex -> Vertex -> PM Q)
    (v : Vertex) (d : Z) (q : Vertex) (e : Edge) :
  (forall v' e', withinFuel (recurse v' (d + 1) e')) ->
  (forall ok cost j v' q', withinFuel (backup ok cost j v' q')) ->
  withinFuel (descend cfg recurse backup v d q e).
Proof.
  intros Hrec Hback. unfold descend.
  apply withinFuel_bind; [apply withinFuel_simulateActionExecution |].
  intros [[ok nb] cost].
  apply withinFuel_bind; [apply withinFuel_resolve |]. intros nv.
  apply withinFuel_bind; [| intros; apply Hback].
  destruct ok; [apply Hrec | auto with fuel].
Qed.

(** A descent whose recursive call did not run out of fuel does not depend
    on how much fuel that call had left. *)
Lemma descend_ext (rec1 rec2 : Vertex -> Z -> Edge -> PM Q)
    (backup : bool -> Q -> Q -> Vertex -> Vertex -> PM Q)
    (v : Vertex) (d : Z) (q : Vertex) (e : Edge) (p : Planner) :
  (forall v' d' e' p', rec1 v' d' e' p' <> OutOfFuel ->
                       rec2 v' d' e' p' = rec1 v' d' e' p') ->
  descend cfg rec1 backup v d q e p <> OutOfFuel ->
  descend cfg rec2 backup v d q e p = descend cfg rec1 backup v d q e p.
Proof.
  intros Hext. unfold descend, bind.
  destruct (simulateActionExecution cfg v d e p) as [[[[ok nb] cost] p1] | | |];
    try reflexivity.
  destruct (resolveChildQVnode v q nb p1) as [[nv p2] | | |]; try reflexivity.
  destruct ok; [| reflexivity].
  intros Hne. rewrite Hext; [reflexivity |].
  intros Hoof. rewrite Hoof in Hne. apply Hne. reflexivity.
Qed.

(** At or beyond both depth limits the selection stops. *)
Lemma rolloutSelection_stops (v : Vertex) (d : Z) (e : Edge) (b : bool) (p p' : Planner)
    (q : Vertex) (e0 : Edge) :
  searchDepth cfg <= d ->
  rolloutSelection cfg v d e b p <> Ret (Go q e0, p').
Proof.
  unfold searchDepth. intros Hd. unfold rolloutSelection.
  replace (d >=? maxPOMCPDepth_ cfg) with true
    by (symmetry; rewrite Z.geb_leb; apply Z.leb_le; lia).
  replace (d >=? maxFIRMReachDepth_ cfg) with true
    by (symmetry; rewrite Z.geb_leb; apply Z.leb_le; lia).
  unfold bind. destruct (terminalBackup v (obstacleCostToGo_ cfg) p) as [[j p1] | | |];
    discriminate.
Qed.

Lemma simulateSelection_stops (v : Vertex) (d : Z) (e : Edge) (p p' : Planner)
    (q : Vertex) (e0 : Edge) :
  searchDepth cfg <= d ->
  simulateSelection cfg v d e p <> Ret (Go q e0, p').
Proof.
  unfold searchDepth. intros Hd. unfold simulateSelection, simulateAtHorizon.
  replace (d >=? maxPOMCPDepth_ cfg) with true
    by (symmetry; rewrite Z.geb_leb; apply Z.leb_le; lia).
  replace (d >=? maxFIRMReachDepth_ cfg) with true
    by (symmetry; rewrite Z.geb_leb; apply Z.leb_le; lia).
  unfold bind. destruct (terminalBackup v (obstacleCostToGo_ cfg) p) as [[j p1] | | |];
    discriminate.
Qed.

Lemma pomcpRollout_withinFuel (fuel : nat) :
  forall (d : Z),
    (Z.to_nat (searchDepth cfg - d) < fuel)%nat ->
    forall v e b, withinFuel (pomcpRollout cfg fuel v d e b).
Proof.
  induction fuel as [| fuel IH]; intros d Hfuel v e b; [lia |].
  cbn [pomcpRollout]. intros p. unfold bind.
  pose proof (withinFuel_rolloutSelection v d e b p) as Hsel.
  destruct (rolloutSelection cfg v d e b p) as [[[j | q e0] p1] | | |] eqn:Hs;
    try discriminate; [| congruence].
  destruct (Z_lt_le_dec d (searchDepth cfg)) as [Hlt | Hge].
  - apply withinFuel_descend.
    + intros v' e'. apply IH. lia.
    + intros. apply withinFuel_rolloutBackup.
  - exfalso. eapply rolloutSelection_stops; eassumption.
Qed.

Lemma pomcpSimulate_withinFuel (fuel : nat) :
  forall (d : Z),
    (Z.to_nat (searchDepth cfg - d) + 1 < fuel)%nat ->
    forall v e, withinFuel (pomcpSimulate cfg fuel v d e).
Proof.
  induction fuel as [| fuel IH]; intros d Hfuel v e; [lia |].
  cbn [pomcpSimulate]. apply withinFuel_bind; [auto with fuel |]. intros cn.
  destruct (negb (childQexpanded cn)).
  - apply withinFuel_bind; [| auto with fuel].
    apply pomcpRollout_withinFuel. lia.
  - intros p. unfold bind.
    pose proof (withinFuel_simulateSelection v d e p) as Hsel.
    destruct (simulateSelection cfg v d e p) as [[[j | q e0] p1] | | |] eqn:Hs;
      try discriminate; [| congruence].
    destruct (Z_lt_le_dec d (searchDepth cfg)) as [Hlt | Hge].
    + apply withinFuel_descend.
      * intros v' e'. apply IH. lia.
      * intros. rewrite simulateBackup_is_rolloutBackup. apply withinFuel_rolloutBackup.
    + exfalso. eapply simulateSelection_stops; eassumption.
Qed.

Lemma bind_ext_l {A B : Type} (m : PM A) (k1 k2 : A -> PM B) (p : Planner) :
  (forall a p1, m p = Ret (a, p1) -> k2 a p1 = k1 a p1) ->
  bind m k2 p = bind m k1 p.
Proof.
  intros H. unfold bind. destruct (m p) as [[a p1] | | |]; try reflexivity.
  apply H. reflexivity.
Qed.

Lemma bind_not_OutOfFuel {A B : Type} (m : PM A) (k : A -> PM B) (p : Planner)
    (a : A) (p1 : Planner) :
  bind m k p <> OutOfFuel -> m p = Ret (a, p1) -> k a p1 <> OutOfFuel.
Proof. unfold bind. intros H Hm. rewrite Hm in H. exact H. Qed.

Lemma pomcpRollout_more_fuel (fuel : nat) :
  forall v d e b p,
    pomcpRollout cfg fuel v d e b p <> OutOfFuel ->
    pomcpRollout cfg (S fuel) v d e b p = pomcpRollout cfg fuel v d e b p.
Proof.
  induction fuel as [| fuel IH]; intros v d e b p Hne.
  - exfalso. apply Hne. reflexivity.
  - remember (S fuel) as f1. cbn [pomcpRollout]. subst f1.
    cbn [pomcpRollout] in Hne |- *.
    apply bind_ext_l. intros [j | q e0] p1 Hsel; [reflexivity |].
    apply descend_ext.
    + intros v' d' e' p'. apply IH.
    + exact (bind_not_OutOfFuel _ _ _ _ _ Hne Hsel).
Qed.

Lemma pomcpSimulate_more_fuel (fuel : nat) :
  forall v d e p,
    pomcpSimulate cfg fuel v d e p <> OutOfFuel ->
    pomcpSimulate cfg (S fuel) v d e p = pomcpSimulate cfg fuel v d e p.
Proof.
  induction fuel as [| fuel IH]; intros v d e p Hne.
  - exfalso. apply Hne. reflexivity.
  - remember (S fuel) as f1. cbn [pomcpSimulate]. subst f1.
    cbn [pomcpSimulate] in Hne |- *.
    apply bind_ext_l. intros cn p1 Hcn.
    pose proof (bind_not_OutOfFuel _ _ _ _ _ Hne Hcn) as Hne1. cbv beta in Hne1.
    destruct (negb (childQexpanded cn)).
    + unfold bind.
      rewrite pomcpRollout_more_fuel; [reflexivity |].
      intros Hoof. apply Hne1. unfold bind. rewrite Hoof. reflexivity.
    + apply bind_ext_l. intros [j | q e0] p2 Hsel; [reflexivity |].
      apply descend_ext.
      * intros v' d' e' p'. apply IH.
      * exact (bind_not_OutOfFuel _ _ _ _ _ Hne1 Hsel).
Qed.


Lemma pomcpRollout_fuel_le (fuel fuel' : nat) (v : Vertex) (d : Z) (e : Edge) (b : bool)
    (p : Planner) :
  (fuel <= fuel')%nat ->
  pomcpRollout cfg fuel v d e b p <> OutOfFuel ->
  pomcpRollout cfg fuel' v d e b p = pomcpRollout cfg fuel v d e b p.
Proof.
  intros Hle Hne. induction Hle as [| f Hle IH]; [reflexivity |].
  rewrite pomcpRollout_more_fuel; [exact IH | rewrite IH; exact Hne].
Qed.

Lemma pomcpSimulate_fuel_le (fuel fuel' : nat) (v : Vertex) (d : Z) (e : Edge)
    (p : Planner) :
  (fuel <= fuel')%nat ->
  pomcpSimulate cfg fuel v d e p <> OutOfFuel ->
  pomcpSimulate cfg fuel' v d e p = pomcpSimulate cfg fuel v d e p.
Proof.
  intros Hle Hne. induction Hle as [| f Hle IH]; [reflexivity |].
  rewrite pomcpSimulate_more_fuel; [exact IH | rewrite IH; exact Hne].
Qed.

Lemma particleLoop_fuel_le (fuel fuel' particles : nat) (v : Vertex) :
  (fuel <= fuel')%nat ->
  (forall e, withinFuel (pomcpSimulate cfg fuel v 0 e)) ->
  forall p, particleLoop cfg fuel particles v p <> OutOfFuel /\
            particleLoop cfg fuel' particles v p = particleLoop cfg fuel particles v p.
Proof.
  intros Hle Hsim. induction particles as [| n IH]; intros p; [split; [discriminate | reflexivity] |].
  cbn [particleLoop]. split.
  - apply withinFuel_bind; [auto with fuel |]. intros cn.
    apply withinFuel_bind; [auto with fuel |]. intros [t |]; [| intros p0; apply IH].
    apply withinFuel_bind; [auto with fuel |]. intros _.
    apply withinFuel_bind; [apply Hsim |]. intros _ p0. apply IH.
  - apply bind_ext_l. intros cn p1 _.
    apply bind_ext_l. intros [t |] p2 _; [| apply IH].
    apply bind_ext_l. intros _ p3 _.
    unfold bind. rewrite (pomcpSimulate_fuel_le fuel fuel') by (exact Hle || apply Hsim).
    destruct (pomcpSimulate cfg fuel v 0 _ p3) as [[J p4] | | |]; try reflexivity.
    apply IH.
Qed.

(** X9.  The recursion of the search is bounded by the depth limits.  A
    descent stops at the latest at depth max(maxPOMCPDepth_,
    maxFIRMReachDepth_): entered at depth [d], [pomcpSimulate] and
    [pomcpRollout] need no more than that maximum minus [d], plus two,
    nested calls, and [generatePOMCPPolicy], which enters at depth 0, no
    more than the maximum plus two.  With that much fuel the model does
    not run out of it, and more fuel does not change the result.  *)
Theorem search_recursion_is_bounded
    (fuel fuel' : nat) (v : Vertex) (d : Z) (ePrev : Edge) (p : Planner) :
  (Z.to_nat (searchDepth cfg - d) + 2 <= fuel)%nat ->
  (fuel <= fuel')%nat ->
  (pomcpSimulate cfg fuel v d ePrev p <> OutOfFuel /\
   pomcpSimulate cfg fuel' v d ePrev p = pomcpSimulate cfg fuel v d ePrev p) /\
  (forall isNew,
     pomcpRollout cfg fuel v d ePrev isNew p <> OutOfFuel /\
     pomcpRollout cfg fuel' v d ePrev isNew p = pomcpRollout cfg fuel v d ePrev isNew p) /\
  (forall goal,
     (Z.to_nat (searchDepth cfg) + 2 <= fuel)%nat ->
     generatePOMCPPolicy cfg fuel v goal p <> OutOfFuel /\
     generatePOMCPPolicy cfg fuel' v goal p = generatePOMCPPolicy cfg fuel v goal p).
Proof.
  intros Hfuel Hle.
  assert (Hsim : pomcpSimulate cfg fuel v d ePrev p <> OutOfFuel)
    by (apply pomcpSimulate_withinFuel; lia).
  split; [split; [exact Hsim | apply pomcpSimulate_fuel_le; assumption] |].
  split.
  - intros isNew.
    assert (Hroll : pomcpRollout cfg fuel v d ePrev isNew p <> OutOfFuel)
      by (apply pomcpRollout_withinFuel; lia).
    split; [exact Hroll | apply pomcpRollout_fuel_le; assumption].
  - intros goal Hfuel0.
    assert (Hs0 : forall e, withinFuel (pomcpSimulate cfg fuel v 0 e)).
    { intros e. apply pomcpSimulate_withinFuel. rewrite Z.sub_0_r. lia. }
    unfold generatePOMCPPolicy. split.
    + apply withinFuel_bind; [auto with fuel |]. intros t.
      apply withinFuel_bind;
        [intros p0; apply (proj1 (particleLoop_fuel_le fuel fuel' _ v Hle Hs0 p0)) |].
      intros _.
      apply withinFuel_bind; [auto with fuel |]. intros cn.
      destruct (collectMinQcosttogoNodes _ _ _ _) as [m acc].
      apply withinFuel_bind; [apply withinFuel_pickMinQcosttogoNode |]. intros q.
      repeat fuel_step.
    + apply bind_ext_l. intros t p1 _.
      unfold bind at 1 3.
      rewrite (proj2 (particleLoop_fuel_le fuel fuel' _ v Hle Hs0 p1)). reflexivity.
Qed.

End Termination.


(** ** The policy that is returned *)

Section Policy.
Context {E : Env}.
Variable cfg : Config.

(** The selection that ends [generatePOMCPPolicy], from the planner the
    simulations left. *)
Lemma pick_min_Q_child (score : Vertex -> Q) (l : list Vertex) (p : Planner)
    (q : Vertex) (p1 : Planner) :
  pickMinQcosttogoNode
    (snd (collectMinQcosttogoNodes score l (infiniteCostToGo_ cfg) [])) p = Ret (q, p1) ->
  In q l /\
  (forall c, In c l -> (score q <= score c)%Q) /\
  (score q <= infiniteCostToGo_ cfg)%Q /\
  stateProperty_ p1 = stateProperty_ p /\ edges p1 = edges p /\
  edgeControllers_ p1 = edgeControllers_ p.
Proof.
  intros Hpick.
  destruct (existsb (fun c => Qle_bool (score c) (infiniteCostToGo_ cfg)) l) eqn:Hex.
  - apply existsb_exists in Hex. destruct Hex as (c0 & Hc0 & Hle0).
    apply Qle_bool_iff in Hle0.
    rewrite (collect_is_argmin score (infiniteCostToGo_ cfg) l) in Hpick
      by (exists c0; auto).
    assert (Hne : argminNodes score l <> []).
    { apply argminNodes_nonempty. intros ->. destruct Hc0. }
    destruct (pickMinQcosttogoNode_spec (argminNodes score l) p Hne)
      as (q' & p1' & Hpick' & Hin & Htie).
    rewrite Hpick' in Hpick. injection Hpick as -> ->.
    apply In_argminNodes in Hin. destruct Hin as [Hq Hmin].
    split; [exact Hq |]. split; [exact Hmin |].
    split; [eapply Qle_trans; [apply Hmin; exact Hc0 | exact Hle0] |].
    destruct Htie as [[_ ->] | (_ & _ & ->)]; auto.
  - rewrite (collect_is_empty score (infiniteCostToGo_ cfg) l) in Hpick; [discriminate |].
    intros c Hc Hle. apply Qle_bool_iff in Hle.
    assert (Ht : existsb (fun c => Qle_bool (score c) (infiniteCostToGo_ cfg)) l = true)
      by (apply existsb_exists; exists c; auto).
    congruence.
Qed.

(** An edge that [generatePOMCPPolicy] returns starts at the current
    vertex, whose state object is live. *)
Lemma generatePOMCPPolicy_root
    (fuel : nat) (currentVertex goal : Vertex) (p p' : Planner) (e : Edge) :
  generatePOMCPPolicy cfg fuel currentVertex goal p = Ret (e, p') ->
  is_Some (stateProperty_ p' !! currentVertex) /\ source e = currentVertex /\
  exists h, hidden p' = setTrueState (getTrueState (hidden p)) h.
Proof.
  unfold generatePOMCPPolicy. unfold bind at 1. unfold onHidden at 1. cbn [fst snd].
  unfold bind at 1.
  destruct (particleLoop cfg fuel _ currentVertex _) as [[[] p1] | | |]; try discriminate.
  unfold bind at 1. unfold getNode at 1.
  destruct (stateProperty_ p1 !! currentVertex) as [cn |] eqn:Hcn; [| discriminate].
  pose proof (pick_min_Q_child (getChildQcosttogo cn) (childQnodes cn) p1) as Hpick.
  destruct (collectMinQcosttogoNodes _ _ _ _) as [m acc]. cbn [snd] in Hpick.
  unfold bind at 1.
  destruct (pickMinQcosttogoNode acc p1) as [[q p2] | | |]; try discriminate.
  destruct (Hpick q p2 eq_refl) as (_ & _ & _ & Hsp & _ & _).
  unfold bind at 1. unfold boostEdge.
  destruct (List.find _ (edges p2)) as [e0 |] eqn:Hfind; [| discriminate].
  unfold bind, onHidden, ret. intros H. injection H as <- <-.
  pose proof (List.find_some _ _ Hfind) as [_ Hst].
  apply andb_true_iff in Hst. destruct Hst as [Hs _]. apply Nat.eqb_eq in Hs.
  cbn [stateProperty_ withHidden hidden]. rewrite Hsp, Hcn.
  split; [eauto |]. split; [exact Hs |]. eexists. reflexivity.
Qed.

(** X10.  Whatever the number of particles, an edge that
    [generatePOMCPPolicy] returns leads from the current vertex to a child
    action whose stored Q(h,q), after the simulations, is minimal among the
    child actions and does not exceed [infiniteCostToGo_]; it is the first
    edge of [g_] between the two vertices.  The true state that was
    current on entry is set again before the return. *)
Theorem generatePOMCPPolicy_returns_min_Q_edge
    (fuel : nat) (currentVertex goal : Vertex) (p p' : Planner) (e : Edge) :
  generatePOMCPPolicy cfg fuel currentVertex goal p = Ret (e, p') ->
  exists cn' h,
    stateProperty_ p' !! currentVertex = Some cn' /\
    source e = currentVertex /\
    In (target e) (childQnodes cn') /\
    (forall c, In c (childQnodes cn') ->
       (getChildQcosttogo cn' (target e) <= getChildQcosttogo cn' c)%Q) /\
    (getChildQcosttogo cn' (target e) <= infiniteCostToGo_ cfg)%Q /\
    List.find (fun e' => Nat.eqb (source e') currentVertex
                         && Nat.eqb (target e') (target e)) (edges p') = Some e /\
    hidden p' = setTrueState (getTrueState (hidden p)) h.
Proof.
  unfold generatePOMCPPolicy. unfold bind at 1. unfold onHidden at 1. cbn [fst snd].
  unfold bind at 1.
  destruct (particleLoop cfg fuel _ currentVertex _) as [[[] p1] | | |]; try discriminate.
  unfold bind at 1. unfold getNode at 1.
  destruct (stateProperty_ p1 !! currentVertex) as [cn |] eqn:Hcn; [| discriminate].
  pose proof (pick_min_Q_child (getChildQcosttogo cn) (childQnodes cn) p1) as Hpick.
  destruct (collectMinQcosttogoNodes _ _ _ _) as [m acc]. cbn [snd] in Hpick.
  unfold bind at 1.
  destruct (pickMinQcosttogoNode acc p1) as [[q p2] | | |]; try discriminate.
  destruct (Hpick q p2 eq_refl) as (Hq & Hmin & Hinf & Hsp & Hed & _).
  unfold bind at 1. unfold boostEdge.
  destruct (List.find _ (edges p2)) as [e0 |] eqn:Hfind; [| discriminate].
  unfold bind, onHidden, ret. intros H. injection H as <- <-.
  pose proof (List.find_some _ _ Hfind) as [_ Hst].
  apply andb_true_iff in Hst. destruct Hst as [Hs Ht].
  apply Nat.eqb_eq in Hs, Ht.
  exists cn, (hidden p2). cbn [stateProperty_ withHidden edges hidden].
  rewrite Hsp, Ht.
  split; [exact Hcn |]. split; [exact Hs |]. split; [exact Hq |].
  split; [exact Hmin |]. split; [exact Hinf |]. split; [exact Hfind |]. reflexivity.
Qed.

End Policy.


(** ** Pruning frees the whole subtree *)

Section PruneSubtree.
Context {E : Env}.
Variable cfg : Config.

Lemma pruneChildren_frees (recurse : Vertex -> PM unit) (h : nat)
    (sp0 : gmap nat QVNode) (rootVertex : Vertex) (n : QVNode) :
  (forall v L p,
     treeAt h sp0 v L ->
     startM_0 cfg ∉ L ->
     (forall w, w ∈ L -> stateProperty_ p !! w = sp0 !! w) ->
     exists p', recurse v p = Ret (tt, p') /\ freed L p p') ->
  forall (qs : list Vertex) (kidss : list (list Vertex)) (p : Planner),
    Forall2 (treeAt h sp0) (omap (fun q => childQVnodes n !! q) qs) kidss ->
    NoDup (concat kidss) ->
    rootVertex ∉ concat kidss ->
    startM_0 cfg ∉ concat kidss ->
    stateProperty_ p !! rootVertex = Some n ->
    (forall w, w ∈ concat kidss -> stateProperty_ p !! w = sp0 !! w) ->
    exists p', pruneChildren recurse rootVertex qs p = Ret (tt, p') /\
               freed (concat kidss) p p'.
Proof.
  intros Hrec. induction qs as [| q qs IH]; intros kidss p Hall Hnd Hroot Hstart Hlive Hagree.
  - inversion Hall; subst. exists p. split; [reflexivity |].
    split; [intros w Hw; cbn in Hw; inversion Hw | split; auto].
  - cbn [pruneChildren]. unfold bind at 1. unfold getNode at 1. rewrite Hlive.
    unfold bind at 1. unfold getChildQVnode.
    cbn [omap list_omap] in Hall.
    destruct (childQVnodes n !! q) as [c |] eqn:Hq.
    + inversion Hall as [| c' K omapqs kidss' Hc Hrest]; subst.
      cbn [concat] in *.
      apply NoDup_app in Hnd. destruct Hnd as (HndK & Hdisj & Hndrest).
      rewrite elem_of_app in Hroot. rewrite elem_of_app in Hstart.
      destruct (Hrec c K p Hc) as (p1 & Hrun & F1 & F2 & F3).
      { intros Hin. apply Hstart. left. exact Hin. }
      { intros w Hw. apply Hagree. apply elem_of_app. left. exact Hw. }
      rewrite Hrun.
      destruct (IH kidss' p1 Hrest Hndrest) as (p2 & Hrun2 & G1 & G2 & G3).
      { intros Hin. apply Hroot. right. exact Hin. }
      { intros Hin. apply Hstart. right. exact Hin. }
      { rewrite F2; [exact Hlive |]. intros Hin. apply Hroot. left. exact Hin. }
      { intros w Hw. rewrite F2.
        - apply Hagree. apply elem_of_app. right. exact Hw.
        - intros HwK. exact (Hdisj w HwK Hw). }
      exists p2. split; [exact Hrun2 |].
      split; [| split].
      * intros w Hw. apply elem_of_app in Hw.
        destruct (decide (w ∈ concat kidss')) as [Hin | Hnin]; [apply G1; exact Hin |].
        rewrite G2 by exact Hnin. apply F1. destruct Hw; [assumption | contradiction].
      * intros w Hw. rewrite elem_of_app in Hw.
        rewrite G2 by (intros Hin; apply Hw; right; exact Hin).
        apply F2. intros Hin. apply Hw. left. exact Hin.
      * intros e He. rewrite elem_of_app in He.
        rewrite G3 by (intros Hin; apply He; right; exact Hin).
        apply F3. intros Hin. apply He. left. exact Hin.
    + unfold ret at 1. apply IH; assumption.
Qed.

Lemma prunePOMCPTreeFrom_frees (h : nat) (sp0 : gmap nat QVNode) :
  forall (v : Vertex) (L : list Vertex) (p : Planner),
    treeAt h sp0 v L ->
    startM_0 cfg ∉ L ->
    (forall w, w ∈ L -> stateProperty_ p !! w = sp0 !! w) ->
    exists p', prunePOMCPTreeFrom cfg h v p = Ret (tt, p') /\ freed L p p'.
Proof.
  induction h as [| h IH]; intros v L p Htree Hstart Hagree; [destruct Htree |].
  destruct Htree as (n & kidss & Hn & Hkids & -> & Hnd).
  apply NoDup_cons in Hnd. destruct Hnd as [Hv Hndk].
  assert (Hvs : v <> startM_0 cfg) by (intros ->; apply Hstart; left).
  assert (Hks : startM_0 cfg ∉ concat kidss) by (intros Hin; apply Hstart; right; exact Hin).
  assert (Hlive : stateProperty_ p !! v = Some n).
  { rewrite Hagree; [exact Hn | left]. }
  cbn [prunePOMCPTreeFrom]. unfold bind at 1. unfold getNode at 1. rewrite Hlive.
  unfold bind at 1.
  assert (Hch : exists p1,
    (if childQexpanded n
     then pruneChildren (prunePOMCPTreeFrom cfg h) v (childQnodes n)
     else ret tt) p = Ret (tt, p1) /\ freed (concat kidss) p p1).
  { unfold qvChildren in Hkids. destruct (childQexpanded n).
    - apply (pruneChildren_frees _ h sp0 v n IH (childQnodes n) kidss p);
        try assumption.
      intros w Hw. apply Hagree. right. exact Hw.
    - inversion Hkids; subst. exists p. split; [reflexivity |].
      split; [intros w Hw; cbn in Hw; inversion Hw | split; auto]. }
  destruct Hch as (p1 & Hrun1 & F1 & F2 & F3). rewrite Hrun1.
  assert (Hlive1 : stateProperty_ p1 !! v = Some n)
    by (rewrite F2 by exact Hv; exact Hlive).
  destruct (prunePOMCPNode_other cfg v p1 n Hvs Hlive1) as (p2 & Hrun2 & Hst & _ & _ & Hc2).
  exists p2. split; [exact Hrun2 |]. split; [| split].
  - intros w Hw. rewrite Hst. apply elem_of_cons in Hw. destruct Hw as [-> | Hw].
    + apply lookup_delete_eq.
    + destruct (decide (v = w)) as [-> | Hne]; [apply lookup_delete_eq |].
      rewrite lookup_delete_ne by exact Hne. apply F1. exact Hw.
  - intros w Hw. rewrite Hst.
    rewrite lookup_delete_ne by (intros ->; apply Hw; left).
    apply F2. intros Hin. apply Hw. right. exact Hin.
  - intros e He. rewrite Hc2.
    + apply F3. intros Hin. apply He. right. exact Hin.
    + rewrite In_out_edges. intros [_ Hs]. apply He. rewrite Hs. left.
Qed.

(** X11.  Pruning a subtree frees exactly that subtree.  If the observation
    children reachable from [v] form a tree with the vertices [L], none of
    them the start vertex, then [prunePOMCPTreeFrom(v)] returns, having
    freed the state object of every vertex of [L] and of no other vertex;
    the edges that are left are those of before with neither end in [L];
    the controller of an edge from a vertex of [L] to a live vertex
    outside is erased, and the controllers of the edges that start outside
    [L] are kept.  A second call on [v] reads the freed state object. *)
Theorem prune_frees_exactly_the_subtree
    (h : nat) (v : Vertex) (L : list Vertex) (p : Planner) :
  treeAt h (stateProperty_ p) v L ->
  startM_0 cfg ∉ L ->
  exists p',
    prunePOMCPTreeFrom cfg h v p = Ret (tt, p') /\
    (forall w, w ∈ L -> stateProperty_ p' !! w = None) /\
    (forall w, w ∉ L -> stateProperty_ p' !! w = stateProperty_ p !! w) /\
    (forall e, In e (edges p') <-> (In e (edges p) /\ (source e ∉ L) /\ (target e ∉ L))) /\
    (forall e, In e (edges p) -> source e ∈ L -> target e ∉ L ->
               stateProperty_ p !! target e <> None ->
               edgeControllers_ p' !! e = None) /\
    (forall e, source e ∉ L -> edgeControllers_ p' !! e = edgeControllers_ p !! e) /\
    (forall fuel, prunePOMCPTreeFrom cfg (S fuel) v p' = Undefined).
Proof.
  intros Htree Hstart.
  destruct (prunePOMCPTreeFrom_frees h (stateProperty_ p) v L p Htree Hstart)
    as (p' & Hrun & F1 & F2 & F3); [reflexivity |].
  pose proof (prunePOMCPTreeFrom_prunedFrom cfg h v p p' Hrun)
    as (R1 & R2 & R3 & R4 & R5 & R6 & R7).
  assert (Hlive : forall w, w ∈ L -> stateProperty_ p !! w <> None).
  { clear - Htree. revert v L Htree. induction h as [| h IH]; intros v L Htree; [destruct Htree |].
    destruct Htree as (n & kidss & Hn & Hkids & -> & _).
    intros w Hw. apply elem_of_cons in Hw. destruct Hw as [-> | Hw]; [congruence |].
    revert Hkids Hw. generalize (qvChildren n). intros cs Hkids.
    induction Hkids as [| c K cs' kidss' Hc Hrest IHk]; intros Hw; [inversion Hw |].
    cbn [concat] in Hw. apply elem_of_app in Hw. destruct Hw as [Hw | Hw].
    - eapply IH; eassumption.
    - apply IHk. exact Hw. }
  exists p'. split; [exact Hrun |]. split; [exact F1 |]. split; [exact F2 |].
  split; [| split; [| split; [exact F3 |]]].
  - intros e. split.
    + intros He. split; [apply R5; exact He |].
      split; intros Hin.
      * destruct (R7 (source e) (Hlive _ Hin) (F1 _ Hin)) as [Hno _].
        destruct (Hno e He) as [Hs _]. congruence.
      * destruct (R7 (target e) (Hlive _ Hin) (F1 _ Hin)) as [Hno _].
        destruct (Hno e He) as [_ Ht]. congruence.
    + intros (He & Hs & Ht).
      destruct (R6 e He) as [Hin | (w & [-> | ->] & Hl & Hf)]; [exact Hin | |].
      * rewrite F2 in Hf by exact Hs. contradiction.
      * rewrite F2 in Hf by exact Ht. contradiction.
  - intros e He Hs Ht Htl.
    destruct (R7 (source e) (Hlive _ Hs) (F1 _ Hs)) as [_ Hctl].
    destruct (Hctl e He eq_refl) as [Hc | Hf]; [exact Hc |].
    rewrite F2 in Hf by exact Ht. contradiction.
  - intros fuel. cbn [prunePOMCPTreeFrom]. unfold bind, getNode.
    rewrite F1; [reflexivity |].
    destruct h as [| h']; [destruct Htree |].
    destruct Htree as (n & kidss & _ & _ & -> & _). left.
Qed.

End PruneSubtree.


(** ** Expansion *)

Section Expansion.
Context {E : Env}.
Variable cfg : Config.








End Expansion.


(** ** The rollout policy samples by cumulative weight *)

Section RolloutSampling.
Context {E : Env}.
Variable cfg : Config.








End RolloutSampling.


(** ** Replanning in the execution loop *)

Section Replanning.
Context {E : Env}.
Variable cfg : Config.

Lemma treeAt_live (h : nat) (sp : gmap nat QVNode) :
  forall (v : Vertex) (L : list Vertex),
    treeAt h sp v L -> forall w, w ∈ L -> is_Some (sp !! w).
Proof.
  induction h as [| h IH]; intros v L Htree; [destruct Htree |].
  destruct Htree as (n & kidss & Hn & Hkids & -> & _).
  intros w Hw. apply elem_of_cons in Hw. destruct Hw as [-> | Hw]; [eauto |].
  revert Hkids Hw. generalize (qvChildren n). intros cs Hkids.
  induction Hkids as [| c K cs' kidss' Hc Hrest IHk]; intros Hw; [inversion Hw |].
  cbn [concat] in Hw. apply elem_of_app in Hw. destruct Hw as [Hw | Hw].
  - eapply IH; eassumption.
  - apply IHk. exact Hw.
Qed.

Lemma treeAt_live_forest (h : nat) (sp : gmap nat QVNode)
    (roots : list Vertex) (kidss : list (list Vertex)) :
  Forall2 (treeAt h sp) roots kidss ->
  forall w, w ∈ concat kidss -> is_Some (sp !! w).
Proof.
  induction 1 as [| c K cs kidss' Hc Hrest IH]; intros w Hw; [inversion Hw |].
  cbn [concat] in Hw. apply elem_of_app in Hw. destruct Hw as [Hw | Hw].
  - eapply treeAt_live; eassumption.
  - apply IH. exact Hw.
Qed.

Lemma keepsCounters_refl (p : Planner) : keepsCounters p p.
Proof. repeat split. Qed.

Lemma keepsCounters_trans (p1 p2 p3 : Planner) :
  keepsCounters p1 p2 -> keepsCounters p2 p3 -> keepsCounters p1 p3.
Proof. intros (A1 & A2 & A3) (B1 & B2 & B3). repeat split; congruence. Qed.

Lemma keepsCounters_prunePOMCPNode (v : Vertex) : respects keepsCounters (prunePOMCPNode cfg v).
Proof.
  intros p a p' H. unfold prunePOMCPNode in H.
  destruct (negb _).
  - destruct (stateProperty_ p !! v); [| discriminate]. injection H as _ <-. repeat split.
  - injection H as _ <-. apply keepsCounters_refl.
Qed.

Lemma keepsCounters_prunePOMCPTreeFrom (fuel : nat) :
  forall v, respects keepsCounters (prunePOMCPTreeFrom cfg fuel v).
Proof.
  induction fuel as [| fuel IH]; intros v; [intros p a p' H; discriminate |].
  cbn [prunePOMCPTreeFrom].
  apply (respects_bind keepsCounters keepsCounters_trans);
    [apply respects_getNode, keepsCounters_refl |].
  intros rn.
  apply (respects_bind keepsCounters keepsCounters_trans);
    [| intros _; apply keepsCounters_prunePOMCPNode].
  destruct (childQexpanded rn); [| apply respects_ret, keepsCounters_refl].
  generalize (childQnodes rn). intros l.
  induction l as [| c l IHl]; [apply respects_ret, keepsCounters_refl |].
  cbn [pruneChildren].
  apply (respects_bind keepsCounters keepsCounters_trans);
    [apply respects_getNode, keepsCounters_refl |].
  intros rn'.
  apply (respects_bind keepsCounters keepsCounters_trans); [| intros _; exact IHl].
  destruct (getChildQVnode rn' c); [apply IH | apply respects_ret, keepsCounters_refl].
Qed.

Lemma pruneSiblings_frees (h : nat) (sp0 : gmap nat QVNode)
    (rootVertex nextVertex : Vertex) (n : QVNode) :
  forall (qs : list Vertex) (kidss : list (list Vertex)) (p : Planner),
    Forall2 (treeAt h sp0)
      (List.filter (fun c => negb (Nat.eqb c nextVertex))
         (omap (fun q => childQVnodes n !! q) qs)) kidss ->
    NoDup (concat kidss) ->
    rootVertex ∉ concat kidss ->
    startM_0 cfg ∉ concat kidss ->
    stateProperty_ p !! rootVertex = Some n ->
    (forall w, w ∈ concat kidss -> stateProperty_ p !! w = sp0 !! w) ->
    exists p', pruneSiblings cfg h rootVertex nextVertex qs p = Ret (tt, p') /\
               freed (concat kidss) p p' /\
               numVertices p' = numVertices p /\ hidden p' = hidden p.
Proof.
  induction qs as [| q qs IH]; intros kidss p Hall Hnd Hroot Hstart Hlive Hagree.
  - inversion Hall; subst. exists p. split; [reflexivity |].
    split; [| auto].
    split; [intros w Hw; cbn in Hw; inversion Hw | split; auto].
  - cbn [pruneSiblings]. unfold bind at 1. unfold getNode at 1. rewrite Hlive.
    unfold bind at 1. unfold getChildQVnode.
    cbn [omap list_omap] in Hall.
    destruct (childQVnodes n !! q) as [c |] eqn:Hq.
    + cbn [List.filter] in Hall.
      destruct (negb (Nat.eqb c nextVertex)) eqn:Hc.
      * inversion Hall as [| c' K omapqs kidss' Hc' Hrest]; subst.
        cbn [concat] in *.
        apply NoDup_app in Hnd. destruct Hnd as (HndK & Hdisj & Hndrest).
        rewrite elem_of_app in Hroot. rewrite elem_of_app in Hstart.
        destruct (prunePOMCPTreeFrom_frees cfg h sp0 c K p Hc') as (p1 & Hrun & F1 & F2 & F3).
        { intros Hin. apply Hstart. left. exact Hin. }
        { intros w Hw. apply Hagree. apply elem_of_app. left. exact Hw. }
        rewrite Hrun.
        destruct (keepsCounters_prunePOMCPTreeFrom h c p tt p1 Hrun) as (C1 & C2 & _).
        destruct (IH kidss' p1 Hrest Hndrest) as (p2 & Hrun2 & (G1 & G2 & G3) & D1 & D2).
        { intros Hin. apply Hroot. right. exact Hin. }
        { intros Hin. apply Hstart. right. exact Hin. }
        { rewrite F2; [exact Hlive |]. intros Hin. apply Hroot. left. exact Hin. }
        { intros w Hw. rewrite F2.
          - apply Hagree. apply elem_of_app. right. exact Hw.
          - intros HwK. exact (Hdisj w HwK Hw). }
        exists p2. split; [exact Hrun2 |].
        split; [| split; congruence].
        split; [| split].
        -- intros w Hw. apply elem_of_app in Hw.
           destruct (decide (w ∈ concat kidss')) as [Hin | Hnin]; [apply G1; exact Hin |].
           rewrite G2 by exact Hnin. apply F1. destruct Hw; [assumption | contradiction].
        -- intros w Hw. rewrite elem_of_app in Hw.
           rewrite G2 by (intros Hin; apply Hw; right; exact Hin).
           apply F2. intros Hin. apply Hw. left. exact Hin.
        -- intros e He. rewrite elem_of_app in He.
           rewrite G3 by (intros Hin; apply He; right; exact Hin).
           apply F3. intros Hin. apply He. left. exact Hin.
      * unfold ret at 1. apply IH; assumption.
    + unfold ret at 1. apply IH; assumption.
Qed.

(** The observation child that the last execution leads to: the stored
    one, with its belief overwritten, or a new vertex. *)
Lemma resolveChildQVnode_spec (tempVertex targetNode : Vertex) (b : Belief)
    (p p1 : Planner) (cn : QVNode) (nv : Vertex) :
  stateProperty_ p !! tempVertex = Some cn ->
  (forall w, is_Some (stateProperty_ p !! w) -> (w < numVertices p)%nat) ->
  resolveChildQVnode tempVertex targetNode b p = Ret (nv, p1) ->
  nv = match childQVnodes cn !! targetNode with
       | Some c => c
       | None => numVertices p
       end /\
  hidden p1 = hidden p /\
  (numVertices p <= numVertices p1)%nat /\
  (forall w, w <> nv -> w <> tempVertex -> stateProperty_ p1 !! w = stateProperty_ p !! w) /\
  (exists nn, stateProperty_ p1 !! nv = Some nn /\ belief nn = b) /\
  exists cn1,
    stateProperty_ p1 !! tempVertex = Some cn1 /\
    childQnodes cn1 = childQnodes cn /\
    forall q, childQVnodes cn1 !! q = childQVnodes cn !! q \/
              (childQVnodes cn1 !! q = Some nv /\ childQVnodes cn !! q = None).
Proof.
  intros Hcn Hwf Hrun. unfold resolveChildQVnode in Hrun.
  unfold bind at 1 in Hrun. unfold getNode at 1 in Hrun. rewrite Hcn in Hrun.
  unfold getChildQVnode in Hrun.
  destruct (childQVnodes cn !! targetNode) as [c |] eqn:Hc.
  - unfold bind at 1 in Hrun. unfold modifyNode at 1 in Hrun.
    destruct (stateProperty_ p !! c) as [nc |] eqn:Hnc; [| discriminate].
    injection Hrun as <- <-.
    unfold withStates. cbn [stateProperty_ hidden numVertices].
    split; [reflexivity |]. split; [reflexivity |]. split; [lia |].
    split.
    { intros w Hw _. apply lookup_insert_ne. congruence. }
    split.
    { exists (setBeliefOf b nc). split; [apply lookup_insert_eq | reflexivity]. }
    destruct (decide (c = tempVertex)) as [-> | Hne].
    + exists (setBeliefOf b nc). split; [apply lookup_insert_eq |].
      assert (nc = cn) by congruence. subst nc.
      split; [reflexivity |]. intros q. left. reflexivity.
    + exists cn. split; [rewrite lookup_insert_ne by exact Hne; exact Hcn |].
      split; [reflexivity |]. intros q. left. reflexivity.
  - unfold bind at 1 in Hrun. unfold addQVnodeToPOMCPTree at 1 in Hrun.
    assert (Hlt : (tempVertex < numVertices p)%nat) by (apply Hwf; rewrite Hcn; eauto).
    unfold bind at 1 in Hrun. unfold modifyNode at 1 in Hrun.
    cbn [stateProperty_] in Hrun.
    rewrite lookup_insert_ne in Hrun by lia. rewrite Hcn in Hrun.
    injection Hrun as <- <-.
    unfold withStates. cbn [stateProperty_ hidden numVertices].
    split; [reflexivity |]. split; [reflexivity |]. split; [lia |].
    split.
    { intros w Hw Hw'. rewrite !lookup_insert_ne by congruence. reflexivity. }
    split.
    { exists (freshNode b). split; [| reflexivity].
      rewrite lookup_insert_ne by lia. apply lookup_insert_eq. }
    exists (addChildQVnode targetNode (numVertices p) cn).
    split; [apply lookup_insert_eq |]. split; [reflexivity |].
    intros q. cbn [childQVnodes addChildQVnode].
    destruct (decide (targetNode = q)) as [<- | Hne].
    + right. split; [apply lookup_insert_eq | exact Hc].
    + left. apply lookup_insert_ne. exact Hne.
Qed.

Lemma filter_omap_siblings (nv : Vertex) (m1 m : gmap nat nat) (qs : list Vertex) :
  (forall q, m1 !! q = m !! q \/ (m1 !! q = Some nv /\ m !! q = None)) ->
  List.filter (fun c => negb (Nat.eqb c nv)) (omap (fun q => m1 !! q) qs)
  = List.filter (fun c => negb (Nat.eqb c nv)) (omap (fun q => m !! q) qs).
Proof.
  intros H. induction qs as [| q qs IH]; [reflexivity |].
  cbn [omap list_omap].
  destruct (H q) as [Heq | [H1 H2]].
  - rewrite Heq. destruct (m !! q); [| exact IH].
    cbn [List.filter]. rewrite IH. reflexivity.
  - rewrite H1, H2. cbn [List.filter]. rewrite Nat.eqb_refl. cbn [negb]. exact IH.
Qed.

(** X14.  One replanning step of the execution loop.  The belief reached
    by the last execution becomes the observation child of the old root
    under the last target: the child stored there, or else a new vertex.
    If the other observation children of the old root are the roots of
    disjoint trees that contain neither the old root, the new root nor the
    start vertex, then when the step returns every vertex of these trees
    is freed, also after the search that follows; the old root and the
    new root keep their state objects (the root that is left behind is
    never freed); the edge that is returned starts at the new root; the
    true state is the one of before the search; and the counter is one
    more than before if the edge is the previous one, and 0 otherwise. *)
Theorem replan_frees_siblings_and_keeps_roots
    (fuel : nat) (tempVertex targetNode : Vertex) (cstartState : Belief) (goal : Vertex)
    (e_prev : Edge) (k : Z) (p p' : Planner) (cn : QVNode) (kidss : list (list Vertex))
    (nextVertex : Vertex) (e : Edge) (k' : Z) :
  stateProperty_ p !! tempVertex = Some cn ->
  (forall w, is_Some (stateProperty_ p !! w) -> (w < numVertices p)%nat) ->
  let nextV := match childQVnodes cn !! targetNode with
               | Some c => c
               | None => numVertices p
               end in
  let siblings :=
    List.filter (fun c => negb (Nat.eqb c nextV))
      (omap (fun q => childQVnodes cn !! q) (childQnodes cn)) in
  Forall2 (treeAt fuel (stateProperty_ p)) siblings kidss ->
  NoDup (concat kidss) ->
  tempVertex ∉ concat kidss -> nextV ∉ concat kidss -> startM_0 cfg ∉ concat kidss ->
  replanStep cfg fuel tempVertex targetNode cstartState goal e_prev k p
  = Ret ((nextVertex, e, k'), p') ->
  nextVertex = nextV /\
  is_Some (stateProperty_ p' !! nextVertex) /\
  is_Some (stateProperty_ p' !! tempVertex) /\
  (forall w, w ∈ concat kidss -> stateProperty_ p' !! w = None) /\
  source e = nextVertex /\
  k' = (if bool_decide (e = e_prev) then k + 1 else 0) /\
  exists h, hidden p' = setTrueState (getTrueState (hidden p)) h.
Proof.
  intros Hcn Hwf nextV siblings Htrees Hnd Hroot Hnext Hstart Hrun.
  unfold replanStep in Hrun. unfold bind at 1 in Hrun.
  destruct (resolveChildQVnode tempVertex targetNode cstartState p) as [[nv p1] | | |] eqn:Hres;
    try discriminate.
  destruct (resolveChildQVnode_spec _ _ _ _ _ _ _ Hcn Hwf Hres)
    as (Hnv & Hh1 & Hn1 & Hoth & (nn & Hnn & _) & cn1 & Hcn1 & Hq1 & Hm1).
  fold nextV in Hnv. subst nv.
  unfold bind at 1 in Hrun. unfold getNode at 1 in Hrun. rewrite Hcn1 in Hrun.
  unfold bind at 1 in Hrun.
  assert (Htrees1 : Forall2 (treeAt fuel (stateProperty_ p))
            (List.filter (fun c => negb (Nat.eqb c nextV))
               (omap (fun q => childQVnodes cn1 !! q) (childQnodes cn1))) kidss).
  { rewrite Hq1, (filter_omap_siblings nextV _ _ _ Hm1). exact Htrees. }
  destruct (pruneSiblings_frees fuel (stateProperty_ p) tempVertex nextV cn1
              (childQnodes cn1) kidss p1 Htrees1 Hnd Hroot Hstart Hcn1)
    as (p2 & Hprune & (F1 & F2 & F3) & D1 & D2).
  { intros w Hw. apply Hoth; intros ->; contradiction. }
  rewrite Hprune in Hrun.
  unfold bind at 1 in Hrun. unfold onHidden at 1 in Hrun. cbn [fst snd] in Hrun.
  assert (Hwh : withHidden (hidden p2) p2 = p2) by (destruct p2; reflexivity).
  rewrite Hwh in Hrun.
  unfold bind at 1 in Hrun.
  destruct (generatePOMCPPolicy cfg fuel nextV goal p2) as [[e0 p3] | | |] eqn:Hpol;
    try discriminate.
  destruct (generatePOMCPPolicy_root cfg _ _ _ _ _ _ Hpol) as (Hlive3 & Hsrc & _).
  destruct (generatePOMCPPolicy_grows cfg _ _ _ _ _ _ Hpol)
    as [(G1 & G2 & _) _].
  unfold bind at 1 in Hrun. unfold onHidden at 1 in Hrun.
  assert (Hfinal : nextVertex = nextV /\ e = e0 /\
            k' = (if bool_decide (e0 = e_prev) then k + 1 else 0) /\
            p' = withHidden (setTrueState (getTrueState (hidden p2)) (hidden p3)) p3).
  { destruct (bool_decide (e0 = e_prev)).
    - destruct (k =? INT_MAX); [discriminate |].
      injection Hrun as <- <- <- <-. auto.
    - injection Hrun as <- <- <- <-. auto. }
  destruct Hfinal as (-> & -> & -> & ->).
  cbn [stateProperty_ withHidden hidden].
  split; [reflexivity |]. split; [exact Hlive3 |].
  split.
  { apply G1. rewrite F2 by exact Hroot. rewrite Hcn1. eauto. }
  split.
  { intros w Hw. apply G2; [| apply F1; exact Hw].
    rewrite D1.
    assert (Hlt : (w < numVertices p)%nat)
      by (apply Hwf; eapply (treeAt_live_forest fuel); eassumption).
    lia. }
  split; [exact Hsrc |]. split; [reflexivity |].
  exists (hidden p3). rewrite D2, Hh1. reflexivity.
Qed.

End Replanning.


(** ** Runs in the corridor *)

Section CorridorRuns.
Import Corridor CorridorSearch.

Lemma treePlanner_stats (x : Q) : allStatsOK (treePlanner x).
Proof.
  assert (Hfirm : forall y, statsOK (firmNode y)) by (intros y; apply statsOK_freshNode).
  intros v n H. cbn [treePlanner stateProperty_] in H.
  destruct (decide (0%nat = v)) as [<- | ?];
    [rewrite lookup_insert_eq in H; injection H as <-; apply Hfirm
    | rewrite lookup_insert_ne in H by assumption].
  destruct (decide (1%nat = v)) as [<- | ?];
    [rewrite lookup_insert_eq in H; injection H as <-; apply Hfirm
    | rewrite lookup_insert_ne in H by assumption].
  destruct (decide (2%nat = v)) as [<- | ?];
    [rewrite lookup_insert_eq in H; injection H as <-; apply Hfirm
    | rewrite lookup_insert_ne in H by assumption].
  destruct (decide (3%nat = v)) as [<- | ?].
  { rewrite lookup_insert_eq in H. injection H as <-. intros q.
    unfold getChildQmiss, getChildQvisit. cbn [rootNode childQmisses childQvisits thisQVvisit].
    rewrite lookup_empty. cbn [default from_option].
    destruct (decide (1%nat = q)) as [<- | ?];
      [rewrite lookup_insert_eq; cbn; lia | rewrite lookup_insert_ne by assumption].
    destruct (decide (2%nat = q)) as [<- | ?];
      [rewrite lookup_insert_eq; cbn; lia | rewrite lookup_insert_ne by assumption].
    rewrite lookup_empty. cbn. lia. }
  rewrite lookup_insert_ne in H by assumption.
  destruct (decide (4%nat = v)) as [<- | ?].
  { rewrite lookup_insert_eq in H. injection H as <-. intros q.
    unfold getChildQmiss, getChildQvisit. cbn [leafNode childQmisses childQvisits thisQVvisit].
    rewrite lookup_empty. cbn [default from_option].
    destruct (decide (1%nat = q)) as [<- | ?];
      [rewrite lookup_insert_eq; cbn; lia | rewrite lookup_insert_ne by assumption].
    rewrite lookup_empty. cbn. lia. }
  rewrite lookup_insert_ne in H by assumption. rewrite lookup_empty in H. discriminate.
Qed.

Lemma forkPlanner_bound (x : Q) (w : Vertex) :
  is_Some (stateProperty_ (forkPlanner x) !! w) -> (w < numVertices (forkPlanner x))%nat.
Proof.
  intros H. cbn [forkPlanner numVertices].
  destruct (le_lt_dec 6 w) as [Hge | Hlt]; [| exact Hlt].
  cbn [forkPlanner stateProperty_] in H.
  rewrite !lookup_insert_ne in H by lia. rewrite lookup_empty in H.
  destruct H as [? H]. discriminate.
Qed.


Lemma search_keeps_counters_consistent_witness :
  exists e p',
    generatePOMCPPolicy searchCfg 8 3%nat 2%nat (treePlanner (1 # 2)) = Ret (e, p') /\
    allStatsOK p'.
Proof.
  assert (Hret : exists e p',
            generatePOMCPPolicy searchCfg 8 3%nat 2%nat (treePlanner (1 # 2)) = Ret (e, p')).
  { eexists. eexists. vm_compute. reflexivity. }
  destruct Hret as (e & p' & Hrun).
  exists e, p'. split; [exact Hrun |].
  exact (proj1 (search_keeps_counters_consistent searchCfg 8 3%nat 2%nat 0 (0, 0, 0)%nat false
                  (treePlanner (1 # 2)) p' (treePlanner_stats (1 # 2))) e Hrun).
Defined.

Lemma search_recursion_is_bounded_witness :
  pomcpSimulate searchCfg 6 3%nat 0 (0, 0, 0)%nat (treePlanner (1 # 2)) <> OutOfFuel /\
  pomcpSimulate searchCfg 9 3%nat 0 (0, 0, 0)%nat (treePlanner (1 # 2))
  = pomcpSimulate searchCfg 6 3%nat 0 (0, 0, 0)%nat (treePlanner (1 # 2)).
Proof.
  assert (Hdepth : (Z.to_nat (searchDepth searchCfg - 0) + 2 <= 6)%nat) by (vm_compute; lia).
  assert (Hle : (6 <= 9)%nat) by lia.
  destruct (search_recursion_is_bounded searchCfg 6 9 3%nat 0 (0, 0, 0)%nat
              (treePlanner (1 # 2)) Hdepth Hle) as ((Hne & Heq) & _).
  split; [exact Hne | exact Heq].
Defined.

Lemma generatePOMCPPolicy_returns_min_Q_edge_witness :
  exists e p' cn',
    generatePOMCPPolicy searchCfg 8 3%nat 2%nat (treePlanner (1 # 2)) = Ret (e, p') /\
    stateProperty_ p' !! 3%nat = Some cn' /\
    e = (3, 1, 0)%nat /\
    (forall c, In c (childQnodes cn') ->
       (getChildQcosttogo cn' (target e) <= getChildQcosttogo cn' c)%Q).
Proof.
  assert (Hret : exists e p',
            generatePOMCPPolicy searchCfg 8 3%nat 2%nat (treePlanner (1 # 2)) = Ret (e, p') /\
            e = (3, 1, 0)%nat).
  { eexists. eexists. split; [vm_compute; reflexivity | reflexivity]. }
  destruct Hret as (e & p' & Hrun & He).
  destruct (generatePOMCPPolicy_returns_min_Q_edge searchCfg 8 3%nat 2%nat
              (treePlanner (1 # 2)) p' e Hrun)
    as (cn' & h & Hcn & _ & _ & Hmin & _).
  exists e, p', cn'. split; [exact Hrun |]. split; [exact Hcn |]. split; [exact He | exact Hmin].
Defined.

Lemma prune_frees_exactly_the_subtree_witness :
  exists p',
    prunePOMCPTreeFrom searchCfg 2 3%nat (treePlanner (1 # 2)) = Ret (tt, p') /\
    stateProperty_ p' !! 3%nat = None /\ stateProperty_ p' !! 4%nat = None /\
    stateProperty_ p' !! 1%nat = stateProperty_ (treePlanner (1 # 2)) !! 1%nat /\
    edges p' = [].
Proof.
  assert (Htree : treeAt 2 (stateProperty_ (treePlanner (1 # 2))) 3%nat [3; 4]%nat).
  { exists (rootNode (1 # 2)), [[4%nat]].
    split; [reflexivity |]. split; [| split; [reflexivity |]].
    - constructor; [| constructor].
      exists leafNode, []. split; [reflexivity |]. split; [constructor |].
      split; [reflexivity |]. apply NoDup_singleton.
    - apply NoDup_cons. split; [| apply NoDup_singleton].
      intros Hin. apply list_elem_of_singleton in Hin. discriminate. }
  assert (Hstart : startM_0 searchCfg ∉ [3; 4]%nat).
  { cbn [searchCfg startM_0]. intros Hin.
    apply elem_of_cons in Hin. destruct Hin as [Hin | Hin]; [discriminate |].
    apply list_elem_of_singleton in Hin. discriminate. }
  destruct (prune_frees_exactly_the_subtree searchCfg 2 3%nat [3; 4]%nat
              (treePlanner (1 # 2)) Htree Hstart)
    as (p' & Hrun & Hfreed & Hkept & Hedges & _).
  exists p'. split; [exact Hrun |].
  split; [apply Hfreed; apply elem_of_cons; left; reflexivity |].
  split; [apply Hfreed; apply elem_of_cons; right; apply elem_of_cons; left; reflexivity |].
  split.
  - apply Hkept. intros Hin.
    apply elem_of_cons in Hin. destruct Hin as [Hin | Hin]; [discriminate |].
    apply list_elem_of_singleton in Hin. discriminate.
  - assert (Hret : prunePOMCPTreeFrom searchCfg 2 3%nat (treePlanner (1 # 2))
                   = Ret (tt, p')) by exact Hrun.
    vm_compute in Hret. injection Hret as <-. reflexivity.
Defined.



Lemma replan_frees_siblings_and_keeps_roots_witness :
  exists nextVertex e k' p',
    replanStep searchCfg 8 3%nat 1%nat (bel 1 (1 # 3)) 2%nat (3, 1, 0)%nat 5
      (forkPlanner (1 # 2)) = Ret ((nextVertex, e, k'), p') /\
    nextVertex = 4%nat /\
    stateProperty_ p' !! 5%nat = None /\
    is_Some (stateProperty_ p' !! 3%nat) /\
    source e = 4%nat /\ k' = 0.
Proof.
  assert (Hret : exists nextVertex e k' p',
            replanStep searchCfg 8 3%nat 1%nat (bel 1 (1 # 3)) 2%nat (3, 1, 0)%nat 5
              (forkPlanner (1 # 2)) = Ret ((nextVertex, e, k'), p') /\ k' = 0).
  { eexists. eexists. eexists. eexists. split; [vm_compute; reflexivity | reflexivity]. }
  destruct Hret as (nextVertex & e & k' & p' & Hrun & Hk).
  assert (Hnot : forall a : nat, a <> 5%nat -> a ∉ concat [[5%nat]]).
  { intros a Ha Hin. cbn in Hin. apply list_elem_of_singleton in Hin. contradiction. }
  destruct (replan_frees_siblings_and_keeps_roots searchCfg 8 3%nat 1%nat (bel 1 (1 # 3))
              2%nat (3, 1, 0)%nat 5 (forkPlanner (1 # 2)) p'
              (addChildQVnode 2 5 (rootNode (1 # 2))) [[5%nat]] nextVertex e k')
    as (Hnext & _ & Hroot & Hfreed & Hsrc & _).
  - reflexivity.
  - apply forkPlanner_bound.
  - constructor; [| constructor].
    exists (freshNode (bel 2 (1 # 2))), []. split; [reflexivity |].
    split; [constructor |]. split; [reflexivity | apply NoDup_singleton].
  - apply NoDup_singleton.
  - apply Hnot. lia.
  - apply Hnot. vm_compute. lia.
  - apply Hnot. vm_compute. lia.
  - exact Hrun.
  - exists nextVertex, e, k', p'. split; [exact Hrun |].
    split; [rewrite Hnext; reflexivity |].
    split; [apply Hfreed; cbn; apply list_elem_of_singleton; reflexivity |].
    split; [exact Hroot |]. split; [rewrite Hsrc, Hnext; reflexivity | exact Hk].
Defined.

End CorridorRuns.

End SearchProps.

(* ===================================================================== *)
(** * Properties of the cost-to-go memo *)
(* ===================================================================== *)

Module CostToGoProps.
Import FIRMCP CostToGo.

Section Memo.
Variable cfg : Config.
Variable inflation : Q.
Variable goalM_ : list Vertex.
Variable feedback_ : gmap nat Edge.
Variable isFeedbackPolicyValid : Vertex -> Vertex -> bool.
Variable stab : Vertex -> Vertex -> Q.
Variable order : EvalOrder.

Local Abbreviation update := (updateCostToGoWithApproxStabCost cfg inflation goalM_ feedback_
                                isFeedbackPolicyValid stab order).
Local Abbreviation get := (getCostToGoWithApproxStabCost cfg inflation goalM_ feedback_
                             isFeedbackPolicyValid stab order).

Lemma baselineKept_refl (t : CostTables) : baselineKept t t.
Proof. split; auto. Qed.

Lemma baselineKept_trans (t1 t2 t3 : CostTables) :
  baselineKept t1 t2 -> baselineKept t2 t3 -> baselineKept t1 t3.
Proof.
  intros [A1 A2] [B1 B2]. split.
  - intros w c H. apply B1, A1, H.
  - intros w c H. destruct (B2 _ _ H) as [H' | H']; [apply A2, H' | right; exact H'].
Qed.

Lemma baselineKept_touchCostToGo (v : Vertex) (t : CostTables) :
  baselineKept t (touchCostToGo v t).
Proof.
  unfold touchCostToGo. destruct (costToGo_ t !! v) eqn:Hv; [apply baselineKept_refl |].
  split; cbn [costToGo_]; intros w c H.
  - rewrite lookup_insert_ne; [exact H | congruence].
  - destruct (decide (v = w)) as [-> | Hne].
    + rewrite lookup_insert_eq in H. right. congruence.
    + rewrite lookup_insert_ne in H by exact Hne. left. exact H.
Qed.

Lemma baselineKept_touchApprox (v : Vertex) (t : CostTables) :
  baselineKept t (touchApprox v t).
Proof.
  unfold touchApprox.
  destruct (costToGoWithApproxStabCost_ t !! v);
    [apply baselineKept_refl | split; cbn [costToGo_]; auto].
Qed.

Lemma memo_touchCostToGo (v : Vertex) (t : CostTables) :
  costToGoWithApproxStabCost_ (touchCostToGo v t) = costToGoWithApproxStabCost_ t.
Proof. unfold touchCostToGo. destruct (costToGo_ t !! v); reflexivity. Qed.

Lemma memo_touchApprox_kept (v w : Vertex) (c : Q) (t : CostTables) :
  costToGoWithApproxStabCost_ t !! w = Some c ->
  costToGoWithApproxStabCost_ (touchApprox v t) !! w = Some c.
Proof.
  intros H. unfold touchApprox.
  destruct (costToGoWithApproxStabCost_ t !! v) eqn:Hv; [exact H |].
  cbn [costToGoWithApproxStabCost_]. rewrite lookup_insert_ne; [exact H | congruence].
Qed.

Lemma updateOK_store (v : Vertex) (t t0 : CostTables) (b : bool) (c : Q) :
  (b = false -> c = infiniteCostToGo_ cfg) ->
  (forall w x, w <> v -> costToGoWithApproxStabCost_ t0 !! w = Some x ->
               costToGoWithApproxStabCost_ t !! w = Some x) ->
  baselineKept t0 t ->
  updateOK cfg v t0 b (storeApprox v c t).
Proof.
  intros Hb Hkeep Hbase. split; [| split].
  - exists c. split; [apply lookup_insert_eq | exact Hb].
  - intros w x Hw H. cbn [storeApprox costToGoWithApproxStabCost_].
    rewrite lookup_insert_ne by congruence. apply Hkeep; assumption.
  - exact Hbase.
Qed.

Lemma getWith_OK (upd : Vertex -> CM bool) (v : Vertex) (t : CostTables) (c : Q)
    (t' : CostTables) :
  (forall b t1, upd v t = Returns (b, t1) -> updateOK cfg v t b t1) ->
  getCostToGoWith cfg upd v t = Returns (c, t') -> getOK v t c t'.
Proof.
  intros Hupd H. unfold getCostToGoWith in H.
  destruct (costToGoWithApproxStabCost_ t !! v) as [c0 |] eqn:Hv.
  - injection H as <- <-. split; [exact Hv | split; [auto | apply baselineKept_refl]].
  - destruct (upd v t) as [[b t1] | | |] eqn:Hu; try discriminate.
    destruct (Hupd _ _ eq_refl) as ((x & Hx & Hinf) & Hkeep & Hbase).
    assert (Hall : forall w y, costToGoWithApproxStabCost_ t !! w = Some y ->
                               costToGoWithApproxStabCost_ t1 !! w = Some y).
    { intros w y Hw. apply Hkeep; [| exact Hw]. intros ->. congruence. }
    destruct b.
    + rewrite Hx in H. injection H as <- <-. split; [exact Hx | split; assumption].
    + injection H as <- <-.
      split; [rewrite Hx, (Hinf eq_refl); reflexivity | split; assumption].
Qed.

Lemma update_OK (fuel : nat) :
  forall v t b t', update fuel v t = Returns (b, t') -> updateOK cfg v t b t'.
Proof.
  induction fuel as [| fuel IH]; intros v t b t' H; [discriminate |].
  cbn [updateCostToGoWithApproxStabCost] in H.
  destruct goalM_ as [| goal gs]; [discriminate |].
  destruct (Nat.eqb v goal).
  { destruct (costToGo_ t !! v); [| discriminate]. injection H as <- <-.
    apply updateOK_store; [discriminate | auto | apply baselineKept_refl]. }
  destruct (negb (isFeedbackPolicyValid v goal)).
  { injection H as <- <-. apply updateOK_store; [auto | auto | apply baselineKept_refl]. }
  destruct (feedback_ !! v) as [edge |].
  2:{ injection H as <- <-. apply updateOK_store; [auto | auto | apply baselineKept_refl]. }
  cbv zeta in H.
  set (t1 := touchCostToGo v t) in *.
  assert (Hm1 : costToGoWithApproxStabCost_ t1 = costToGoWithApproxStabCost_ t)
    by apply memo_touchCostToGo.
  assert (Hb1 : baselineKept t t1) by apply baselineKept_touchCostToGo.
  destruct (Qgeb _ _).
  { injection H as <- <-. apply updateOK_store; [auto | | exact Hb1].
    intros w x _ Hw. rewrite Hm1. exact Hw. }
  destruct (Nat.eqb (target edge) goal).
  { destruct (costToGo_ t1 !! v); [| discriminate]. injection H as <- <-.
    apply updateOK_store; [discriminate | | exact Hb1].
    intros w x _ Hw. rewrite Hm1. exact Hw. }
  set (t2 := if slotFirst order then touchApprox v t1 else t1) in *.
  assert (Hm2 : forall w x, costToGoWithApproxStabCost_ t !! w = Some x ->
                            costToGoWithApproxStabCost_ t2 !! w = Some x).
  { intros w x Hw. subst t2. destruct (slotFirst order).
    - apply memo_touchApprox_kept. rewrite Hm1. exact Hw.
    - rewrite Hm1. exact Hw. }
  assert (Hb2 : baselineKept t t2).
  { subst t2. destruct (slotFirst order); [| exact Hb1].
    eapply baselineKept_trans; [exact Hb1 | apply baselineKept_touchApprox]. }
  assert (Hget : forall c t3,
             getCostToGoWith cfg
               (updateCostToGoWithApproxStabCost cfg inflation (goal :: gs) feedback_
                  isFeedbackPolicyValid stab order fuel) (target edge) t2 = Returns (c, t3) ->
             getOK (target edge) t2 c t3).
  { intros c t3 Hg. eapply getWith_OK; [| exact Hg]. intros b0 t0 Hu. apply IH. exact Hu. }
  assert (Hassign : forall nb nc t3 c,
             getOK (target edge) t2 c t3 ->
             match costToGo_ t3 !! v with
             | Some c0 =>
                 Returns (true, storeApprox v (c0 + (nc - nb) + inflation * stab v (target edge))%Q t3)
             | None => Throws
             end = Returns (b, t') ->
             updateOK cfg v t b t').
  { intros nb nc t3 c (_ & Hk3 & Hb3) Ha.
    destruct (costToGo_ t3 !! v); [| discriminate]. injection Ha as <- <-.
    apply updateOK_store; [discriminate | |].
    - intros w x _ Hw. apply Hk3, Hm2, Hw.
    - eapply baselineKept_trans; eassumption. }
  destruct (nextBaselineFirst order).
  - destruct (costToGo_ t2 !! target edge) as [nb |]; [| discriminate].
    destruct (getCostToGoWith _ _ _ t2) as [[nc t3] | | |] eqn:Hg; try discriminate.
    eapply Hassign; [apply Hget; reflexivity | exact H].
  - destruct (getCostToGoWith _ _ _ t2) as [[nc t3] | | |] eqn:Hg; try discriminate.
    destruct (costToGo_ t3 !! target edge) as [nb |]; [| discriminate].
    eapply Hassign; [apply Hget; reflexivity | exact H].
Qed.

Lemma get_OK (fuel : nat) (v : Vertex) (t : CostTables) (c : Q) (t' : CostTables) :
  get fuel v t = Returns (c, t') -> getOK v t c t'.
Proof.
  intros H. eapply getWith_OK; [| exact H]. intros b t1 Hu. apply (update_OK fuel). exact Hu.
Qed.

(** X15.  The cost-to-go with approximate stabilization cost is memoized:
    the value a call returns for a vertex is stored, every value stored
    before is kept, and a later call for the vertex returns the same value
    whatever was asked in between, without recursion and without changing
    a table. The baseline table keeps its entries and gains only entries
    0.  This holds for every order in which the operands of the recursive
    assignment may be evaluated. *)
Theorem cost_to_go_is_memoized (f1 f2 f3 : nat) (v w : Vertex) (c d : Q)
    (t t1 t2 : CostTables) :
  get f1 v t = Returns (c, t1) ->
  get f2 w t1 = Returns (d, t2) ->
  costToGoWithApproxStabCost_ t1 !! v = Some c /\
  (forall u x, costToGoWithApproxStabCost_ t !! u = Some x ->
               costToGoWithApproxStabCost_ t1 !! u = Some x) /\
  (forall u x, costToGo_ t !! u = Some x -> costToGo_ t2 !! u = Some x) /\
  (forall u x, costToGo_ t2 !! u = Some x -> costToGo_ t !! u = Some x \/ x = 0%Q) /\
  get f3 v t1 = Returns (c, t1) /\
  get f3 v t2 = Returns (c, t2).
Proof.
  intros H1 H2.
  destruct (get_OK _ _ _ _ _ H1) as (Hv & Hk1 & Hb1).
  destruct (get_OK _ _ _ _ _ H2) as (_ & Hk2 & Hb2).
  destruct (baselineKept_trans _ _ _ Hb1 Hb2) as [B1 B2].
  repeat split; try assumption.
  - unfold getCostToGoWithApproxStabCost, getCostToGoWith. rewrite Hv. reflexivity.
  - unfold getCostToGoWithApproxStabCost, getCostToGoWith.
    rewrite (Hk2 _ _ Hv). reflexivity.
Qed.

End Memo.

Section FeedbackPath.
Variable cfg : Config.
Variable inflation : Q.
Variable goal : Vertex.
Variable otherGoals : list Vertex.
Variable feedback_ : gmap nat Edge.
Variable isFeedbackPolicyValid : Vertex -> Vertex -> bool.
Variable stab : Vertex -> Vertex -> Q.
Variable order : EvalOrder.

Local Abbreviation update := (updateCostToGoWithApproxStabCost cfg inflation (goal :: otherGoals)
                            feedback_ isFeedbackPolicyValid stab order).
Local Abbreviation get := (getCostToGoWithApproxStabCost cfg inflation (goal :: otherGoals)
                         feedback_ isFeedbackPolicyValid stab order).
Local Abbreviation reaches := (reachesGoal cfg feedback_ isFeedbackPolicyValid).
Local Abbreviation path := (pathFrom feedback_).
Local Abbreviation along := (stabilizationAlong inflation feedback_ stab goal).

Lemma reachesGoal_positive (J : gmap nat Q) (n : nat) (v : Vertex) :
  reaches J goal n v -> (1 <= n)%nat.
Proof. destruct 1; lia. Qed.

Lemma reachesGoal_inv (J : gmap nat Q) (n : nat) (v : Vertex) :
  reaches J goal (S n) v ->
  exists e c,
    v <> goal /\ isFeedbackPolicyValid v goal = true /\
    feedback_ !! v = Some e /\ J !! v = Some c /\
    Qgeb c (infiniteCostToGo_ cfg) = false /\
    ((target e = goal /\ n = 0%nat) \/ (target e <> goal /\ reaches J goal n (target e))).
Proof.
  intros H. remember (S n) as k eqn:Hk.
  destruct H as [v e c Hv Hval He Hc Hfin Ht | m v e c Hv Hval He Hc Hfin Ht Hrest].
  - exists e, c. repeat (split; [assumption |]). left. split; [exact Ht | lia].
  - exists e, c. repeat (split; [assumption |]). right. injection Hk as ->.
    split; assumption.
Qed.

Lemma reachesGoal_unique (J : gmap nat Q) (n : nat) :
  forall v, reaches J goal n v -> forall m, reaches J goal m v -> n = m.
Proof.
  induction n as [| n IH]; intros v Hn m Hm.
  { apply reachesGoal_positive in Hn. lia. }
  destruct m as [| m]; [apply reachesGoal_positive in Hm; lia |].
  apply reachesGoal_inv in Hn. apply reachesGoal_inv in Hm.
  destruct Hn as (e & c & _ & _ & He & _ & _ & Hcase).
  destruct Hm as (e' & c' & _ & _ & He' & _ & _ & Hcase').
  rewrite He in He'. injection He' as <-.
  destruct Hcase as [[Ht ->] | [Ht Hr]]; destruct Hcase' as [[Ht' ->] | [Ht' Hr']];
    try contradiction; [reflexivity |].
  f_equal. eapply IH; eassumption.
Qed.

Lemma path_reaches (J : gmap nat Q) (n : nat) (v : Vertex) :
  reaches J goal n v ->
  forall w, w ∈ path n v -> exists m, (m <= n)%nat /\ reaches J goal m w.
Proof.
  induction 1 as [v e c Hv Hval He Hc Hfin Ht | n v e c Hv Hval He Hc Hfin Ht Hrest IH];
    intros w Hw.
  - cbn [pathFrom] in Hw. rewrite He in Hw. cbn [pathFrom] in Hw.
    apply list_elem_of_singleton in Hw. subst w.
    exists 1%nat. split; [lia |]. eapply reaches_last; eassumption.
  - cbn [pathFrom] in Hw. rewrite He in Hw.
    apply elem_of_cons in Hw. destruct Hw as [-> | Hw].
    + exists (S n). split; [lia |]. eapply reaches_step; eassumption.
    + destruct (IH _ Hw) as (m & Hm & Hr). exists m. split; [lia | exact Hr].
Qed.

Lemma path_head_fresh (J : gmap nat Q) (n : nat) (v : Vertex) (e : Edge) :
  reaches J goal (S n) v -> feedback_ !! v = Some e -> reaches J goal n (target e) ->
  v ∉ path n (target e).
Proof.
  intros Hv He Hnext Hin.
  destruct (path_reaches _ _ _ Hnext _ Hin) as (m & Hm & Hr).
  pose proof (reachesGoal_unique _ _ _ Hv _ Hr). lia.
Qed.

Lemma get_fresh (fuel : nat) (v : Vertex) (t t' : CostTables) :
  costToGoWithApproxStabCost_ t !! v = None ->
  update fuel v t = Returns (true, t') ->
  forall x, costToGoWithApproxStabCost_ t' !! v = Some x ->
  get fuel v t = Returns (x, t').
Proof.
  intros Hnone Hu x Hx. unfold getCostToGoWithApproxStabCost, getCostToGoWith.
  rewrite Hnone. rewrite Hu, Hx. reflexivity.
Qed.

Lemma touchCostToGo_present (v : Vertex) (c : Q) (t : CostTables) :
  costToGo_ t !! v = Some c -> touchCostToGo v t = t.
Proof. intros H. unfold touchCostToGo. rewrite H. reflexivity. Qed.

(** X16.  Along a feedback path.  If the feedback leads from a vertex to the
    goal in n edges, over vertices with a valid policy and a finite
    baseline cost, and nothing is stored yet for the vertices of the path,
    then with fuel n the call returns the baseline cost of the vertex plus
    the inflated approximate stabilization costs of the edges of the path
    except the last one, which enters the goal.  It stores a value for
    every vertex of the path, changes no other entry, and leaves the
    baseline table as it was.  The order in which the operands of the
    recursive assignment are evaluated makes no difference. *)
Theorem cost_to_go_along_feedback_path (n fuel : nat) (v : Vertex) (c : Q) (t : CostTables) :
  reachesGoal cfg feedback_ isFeedbackPolicyValid (costToGo_ t) goal n v ->
  costToGo_ t !! v = Some c ->
  (forall w, w ∈ pathFrom feedback_ n v -> costToGoWithApproxStabCost_ t !! w = None) ->
  (n <= fuel)%nat ->
  exists x t',
    getCostToGoWithApproxStabCost cfg inflation (goal :: otherGoals) feedback_
      isFeedbackPolicyValid stab order fuel v t = Returns (x, t') /\
    (x == c + stabilizationAlong inflation feedback_ stab goal n v)%Q /\
    costToGo_ t' = costToGo_ t /\
    (forall w, w ∉ pathFrom feedback_ n v ->
               costToGoWithApproxStabCost_ t' !! w = costToGoWithApproxStabCost_ t !! w) /\
    (forall w, w ∈ pathFrom feedback_ n v -> is_Some (costToGoWithApproxStabCost_ t' !! w)).
Proof.
  revert fuel v c t.
  induction n as [| n IH]; intros fuel v c t Hr Hc Hfresh Hfuel.
  { apply reachesGoal_positive in Hr. lia. }
  destruct fuel as [| fuel]; [lia |].
  assert (Hvnone : costToGoWithApproxStabCost_ t !! v = None).
  { apply Hfresh. cbn [pathFrom]. apply elem_of_cons. left. reflexivity. }
  assert (Hstore : forall y t0,
            costToGo_ t0 = costToGo_ t ->
            (forall w, w ∉ path (S n) v ->
                       costToGoWithApproxStabCost_ t0 !! w = costToGoWithApproxStabCost_ t !! w) ->
            (forall w, w ∈ path (S n) v -> w <> v ->
                       is_Some (costToGoWithApproxStabCost_ t0 !! w)) ->
            costToGo_ (storeApprox v y t0) = costToGo_ t /\
            (forall w, w ∉ path (S n) v ->
                       costToGoWithApproxStabCost_ (storeApprox v y t0) !! w
                       = costToGoWithApproxStabCost_ t !! w) /\
            (forall w, w ∈ path (S n) v ->
                       is_Some (costToGoWithApproxStabCost_ (storeApprox v y t0) !! w))).
  { intros y t0 H0 H1 H2. split; [exact H0 |]. split.
    - intros w Hw. cbn [storeApprox costToGoWithApproxStabCost_].
      rewrite lookup_insert_ne; [apply H1, Hw |].
      intros ->. apply Hw. cbn [pathFrom]. apply elem_of_cons. left. reflexivity.
    - intros w Hw. cbn [storeApprox costToGoWithApproxStabCost_].
      destruct (decide (v = w)) as [-> | Hne].
      + rewrite lookup_insert_eq. eauto.
      + rewrite lookup_insert_ne by exact Hne. apply H2; [exact Hw | congruence]. }
  destruct (reachesGoal_inv _ _ _ Hr)
    as (e & c0 & Hv & Hval & He & Hc0 & Hfin & [[Ht ->] | [Ht Hrest]]).
  - (* the feedback edge enters the goal *)
    assert (c0 = c) by congruence. subst c0.
    assert (Hu : update (S fuel) v t = Returns (true, storeApprox v c t)).
    { cbn [updateCostToGoWithApproxStabCost].
      apply Nat.eqb_neq in Hv. rewrite Hv, Hval. cbn [negb]. rewrite He. cbv zeta.
      rewrite (touchCostToGo_present _ _ _ Hc), Hc.
      change (default 0%Q (Some c)) with c. rewrite Hfin.
      rewrite Ht, Nat.eqb_refl. reflexivity. }
    exists c, (storeApprox v c t). split.
    { eapply get_fresh; [exact Hvnone | exact Hu | apply lookup_insert_eq]. }
    split.
    { cbn [stabilizationAlong]. rewrite He, Ht, Nat.eqb_refl. ring. }
    apply Hstore; [reflexivity | reflexivity |].
    intros w Hw Hne. cbn [pathFrom] in Hw. rewrite He in Hw.
    cbn [pathFrom] in Hw. apply list_elem_of_singleton in Hw. contradiction.
  - (* the feedback edge enters another vertex *)
    assert (c0 = c) by congruence. subst c0.
    set (next := target e) in *.
    assert (Hhead : v ∉ path n next) by (eapply path_head_fresh; eassumption).
    set (t2 := if slotFirst order then touchApprox v t else t).
    assert (Hb2 : costToGo_ t2 = costToGo_ t).
    { subst t2. destruct (slotFirst order); [| reflexivity].
      unfold touchApprox. destruct (costToGoWithApproxStabCost_ t !! v); reflexivity. }
    assert (Hm2 : forall w, w <> v ->
              costToGoWithApproxStabCost_ t2 !! w = costToGoWithApproxStabCost_ t !! w).
    { intros w Hw. subst t2. destruct (slotFirst order); [| reflexivity].
      unfold touchApprox. rewrite Hvnone. cbn [costToGoWithApproxStabCost_].
      apply lookup_insert_ne. congruence. }
    assert (Hnextbase : exists cn, costToGo_ t !! next = Some cn).
    { destruct n as [| n']; [apply reachesGoal_positive in Hrest; lia |].
      destruct (reachesGoal_inv _ _ _ Hrest) as (_ & cn & _ & _ & _ & Hcn & _). eauto. }
    destruct Hnextbase as (cn & Hcn).
    destruct (IH fuel next cn t2) as (x & t3 & Hget & Hx & Hb3 & Hout & Hin).
    { rewrite Hb2. exact Hrest. }
    { rewrite Hb2. exact Hcn. }
    { intros w Hw. rewrite Hm2; [| intros ->; contradiction].
      apply Hfresh. cbn [pathFrom]. rewrite He. apply elem_of_cons. right. exact Hw. }
    { lia. }
    rewrite Hb2 in Hb3.
    set (y := (c + (x - cn) + inflation * stab v next)%Q).
    assert (Hu : update (S fuel) v t = Returns (true, storeApprox v y t3)).
    { cbn [updateCostToGoWithApproxStabCost].
      apply Nat.eqb_neq in Hv. rewrite Hv, Hval. cbn [negb]. rewrite He. cbv zeta.
      rewrite (touchCostToGo_present _ _ _ Hc), Hc.
      change (default 0%Q (Some c)) with c. rewrite Hfin.
      fold next. apply Nat.eqb_neq in Ht. rewrite Ht.
      fold t2. unfold getCostToGoWithApproxStabCost in Hget.
     
      destruct (nextBaselineFirst order).
      - rewrite Hb2, Hcn, Hget, Hb3, Hc. reflexivity.
      - rewrite Hget, Hb3, Hcn, Hc. reflexivity. }
    exists y, (storeApprox v y t3). split.
    { eapply get_fresh; [exact Hvnone | exact Hu | apply lookup_insert_eq]. }
    split.
    { subst y. cbn [stabilizationAlong]. rewrite He. fold next.
      apply Nat.eqb_neq in Ht. rewrite Ht. rewrite Hx. ring. }
    apply Hstore; [exact Hb3 | |].
    + intros w Hw.
      assert (Hwv : w <> v).
      { intros ->. apply Hw. cbn [pathFrom]. apply elem_of_cons. left. reflexivity. }
      rewrite Hout; [apply Hm2, Hwv |].
      intros Hin'. apply Hw. cbn [pathFrom]. rewrite He.
      apply elem_of_cons. right. exact Hin'.
    + intros w Hw Hne. apply Hin. cbn [pathFrom] in Hw. rewrite He in Hw.
      apply elem_of_cons in Hw. destruct Hw as [-> | Hw]; [contradiction | exact Hw].
Qed.

End FeedbackPath.


Section FeedbackChainRuns.
Import FeedbackChain.

Lemma cost_to_go_is_memoized_witness :
  exists (c d : Q) (t1 t2 : CostTables),
    chainGet slotThenCall 3 3%nat chainTables = Returns (c, t1) /\
    chainGet slotThenCall 0 1%nat t1 = Returns (d, t2) /\
    costToGoWithApproxStabCost_ t1 !! 3%nat = Some c /\
    chainGet slotThenCall 0 3%nat t2 = Returns (c, t2).
Proof.
  assert (Hret : exists c d t1 t2,
            chainGet slotThenCall 3 3%nat chainTables = Returns (c, t1) /\
            chainGet slotThenCall 0 1%nat t1 = Returns (d, t2)).
  { eexists. eexists. eexists. eexists. split; vm_compute; reflexivity. }
  destruct Hret as (c & d & t1 & t2 & H1 & H2).
  destruct (cost_to_go_is_memoized Corridor.corridorCfg 2 [0%nat] chainFeedback chainValid
              chainStab slotThenCall 3 0 0 3%nat 1%nat c d chainTables t1 t2 H1 H2)
    as (Hv & _ & _ & _ & _ & H3).
  exists c, d, t1, t2. repeat split; assumption.
Defined.

Lemma cost_to_go_along_feedback_path_witness :
  exists (x : Q) (t' : CostTables),
    chainGet callThenSlot 3 3%nat chainTables = Returns (x, t') /\
    (x == 25)%Q /\
    costToGo_ t' = costToGo_ chainTables.
Proof.
  assert (Hreach : reachesGoal Corridor.corridorCfg chainFeedback chainValid
                     (costToGo_ chainTables) 0%nat 3 3%nat).
  { eapply (reaches_step _ _ _ _ _ 2 3%nat (3, 2, 30)%nat 15%Q);
      [lia | reflexivity | reflexivity | reflexivity | reflexivity | cbn; lia |].
    eapply (reaches_step _ _ _ _ _ 1 2%nat (2, 1, 20)%nat 9%Q);
      [lia | reflexivity | reflexivity | reflexivity | reflexivity | cbn; lia |].
    eapply (reaches_last _ _ _ _ _ 1%nat (1, 0, 10)%nat 4%Q);
      [lia | reflexivity | reflexivity | reflexivity | reflexivity | reflexivity]. }
  destruct (cost_to_go_along_feedback_path Corridor.corridorCfg 2 0%nat [] chainFeedback
              chainValid chainStab callThenSlot 3 3 3%nat 15%Q chainTables Hreach
              ltac:(reflexivity) ltac:(intros w _; apply lookup_empty) ltac:(lia))
    as (x & t' & Hget & Hx & Hbase & _).
  exists x, t'. split; [exact Hget |]. split; [| exact Hbase].
  rewrite Hx. vm_compute. reflexivity.
Defined.

End FeedbackChainRuns.

End CostToGoProps.
